(** * Disputes API of kleros-api: a shallow embedding and its properties

    The development follows [src/abstractWrappers/Disputes.js].  The class
    [Disputes] talks to three collaborators that are injected into it:
    the arbitrator and arbitrable-contract wrappers (the ledger) and the
    store provider (the off-chain store).  Ledger reads are pure, fallible
    functions of a fixed ledger; store reads and writes act on an explicit
    store that is threaded through every asynchronous method, together
    with a log of the outward calls a method performs.

    JavaScript numbers are modelled by the integers they hold ([nat] for
    ids, sessions and counters, [Z] for token amounts and timestamps);
    the sum that the token-shift handler computes is rounded as the sum
    of two doubles is.  Addresses are strings, and arrays that are
    written by index are lists of optional entries (a hole reads as
    [undefined]). *)

From stdpp Require Import base option list gmap strings pretty.
From Stdlib Require Import ZArith Lia Permutation Sorted.

Local Open Scope string_scope.
Local Open Scope list_scope.
Local Open Scope nat_scope.

(** ** JavaScript values used by the class *)

Definition address := string.

(** What a [throw] statement carries: an [Error] object (also the
    [TypeError] raised by a property read on [null]) or a bare string. *)
Inductive thrown : Type :=
| JsError (message : string)
| JsString (s : string).

(** [err === 'DisputeOutOfRange']: strict equality between the caught
    value and a string literal.  An object is never strictly equal to a
    string primitive. *)
Definition strictEqString (err : thrown) (lit : string) : bool :=
  match err with
  | JsError _ => false
  | JsString s => bool_decide (s = lit)
  end.

(** The answer of a collaborator: the awaited promise resolves with a
    value or rejects with a thrown value. *)
Inductive result (A : Type) : Type :=
| Resolved (a : A)
| Rejected (e : thrown).
Arguments Resolved {A} a.
Arguments Rejected {A} e.

(** Arrays written by index.  [arr[k]] on a hole or past the end is
    [undefined]; [arr[k] = v] past the end extends the array with holes. *)
Abbreviation jsarray A := (list (option A)) (only parsing).

Definition js_get {A} (arr : jsarray A) (k : nat) : option A :=
  mjoin (arr !! k).

Definition js_set {A} (arr : jsarray A) (k : nat) (v : A) : jsarray A :=
  if decide (k < length arr)
  then <[k := Some v]> arr
  else arr ++ replicate (k - length arr) None ++ [Some v].

(** Truthiness of an optional number: [undefined], [null] and [0] are
    falsy. *)
Definition truthyZ (x : option Z) : bool :=
  match x with
  | Some z => negb (Z.eqb z 0)
  | None => false
  end.

(** [x ? x : 0] and [x || 0] on an optional number. *)
Definition orZero (x : option Z) : Z :=
  match x with
  | Some z => if Z.eqb z 0 then 0%Z else z
  | None => 0%Z
  end.

(** The double nearest to an integer, ties going to the even
    significand: what [Number] makes of a decimal numeral and what [+]
    makes of the exact sum of two doubles.  An integer of at most 53
    bits is a double; a longer one keeps its 53 leading bits, rounded.
    (From [2^1024] on a double is [Infinity]: the amounts of the ledger,
    256-bit integers, and the sums of fewer than [2^768] of them stay
    below.) *)
Definition roundToDouble (z : Z) : Z :=
  let a := Z.abs z in
  let shift := Z.max 0 (Z.log2 a - 52) in
  let ulp := (2 ^ shift)%Z in
  let q := (a / ulp)%Z in
  let r := (a mod ulp)%Z in
  let significand :=
    if (2 * r <? ulp)%Z then q
    else if (ulp <? 2 * r)%Z then (q + 1)%Z
    else if Z.even q then q else (q + 1)%Z in
  (Z.sgn z * (significand * ulp))%Z.

(** [bigNumber.toNumber()] *)
Definition toNumber (z : Z) : Z := roundToDouble z.

(** [x + y] on two numbers. *)
Definition jsAdd (x y : Z) : Z := roundToDouble (x + y).

(** [x || []] on an optional array (an array, even empty, is truthy). *)
Definition orEmpty {A} (x : option (list A)) : list A :=
  match x with
  | Some l => l
  | None => []
  end.

(** A string is truthy when it is not empty. *)
Definition truthyString (s : string) : bool :=
  negb (bool_decide (s = "")).

(** ** Ledger records

    The shapes below are read off the property accesses of
    [Disputes.js]; the wrappers that produce them are collaborators. *)

Module Dispute.
(** What [Arbitrator.getDispute] resolves with. *)
Record t : Type := mk {
  arbitratedContract : address;
  firstSession : nat;
  numberOfAppeals : nat;
  arbitrationFeePerJuror : nat;
  voteCounters : jsarray (list nat);
  state : nat;
  status : nat
}.
End Dispute.

Module ArbitratorData.
(** What [Arbitrator.getData] resolves with. *)
Record t : Type := mk {
  period : nat;
  session : nat;
  lastPeriodChange : Z
}.
End ArbitratorData.

Module ArbitrableData.
(** What [ArbitrableContract.getData] resolves with. *)
Record t : Type := mk {
  partyA : address;
  partyB : address;
  status : nat
}.
End ArbitrableData.

Module Arbitrator.
(** The arbitrator wrapper [this._Arbitrator], with the web3 wrapper it
    carries.  Every call but [getBlock] is awaited. *)
Record t : Type := mk {
  getData : address -> option address -> result ArbitratorData.t;
  getDispute : address -> nat -> result (option Dispute.t);
  getSession : address -> result nat;
  currentRulingForDispute : address -> nat -> nat -> result nat;
  getAmountOfJurorsForDispute : address -> nat -> result nat;
  isJurorDrawnForDispute : nat -> nat -> address -> address -> result bool;
  canRuleDispute : address -> nat -> list nat -> result bool;
  getTimeForPeriod : address -> nat -> result Z;
  getBlockTimestamp : nat -> Z
}.
End Arbitrator.

Module ArbitrableContract.
(** The arbitrable-contract wrapper [this._ArbitrableContract]. *)
Record t : Type := mk {
  getData : address -> result ArbitrableData.t
}.
End ArbitrableContract.

(** ** Store records

    The store provider and its documents are not among the sources; the
    records below have the fields that [Disputes.js] reads, writes or
    passes to the provider. *)

Module Evidence.
(** An evidence item of a contract record.  The class only writes
    [submitter]; the three other fields stand for what a party filed. *)
Record t : Type := mk {
  name : string;
  description : string;
  url : string;
  submitter : option address
}.

(** [evidence.submitter = party; return evidence] *)
Definition setSubmitter (party : address) (e : t) : t :=
  {| name := name e; description := description e; url := url e;
     submitter := Some party |}.
End Evidence.

Module ContractData.
(** A party's stored record of an arbitrable contract, as read by
    [getDataForDispute] ([description], [email]) and by
    [getEvidenceForArbitrableContract] ([evidences]). *)
Record t : Type := mk {
  description : option string;
  email : option string;
  evidences : list Evidence.t
}.
End ContractData.

Module ProfileDispute.
(** An element of [userProfile.disputes], with the fields the handlers
    read; [appealDraws] and [netPNK] may be undefined. *)
Record t : Type := mk {
  disputeId : nat;
  arbitratorAddress : address;
  appealDraws : option (jsarray (list nat));
  netPNK : option Z
}.
End ProfileDispute.

Module UserProfile.
(** A participant's profile: [profile.session], [userProfile.disputes]. *)
Record t : Type := mk {
  session : option nat;
  disputes : list ProfileDispute.t
}.
End UserProfile.

Module DisputeDoc.
(** The dispute document written by [updateDispute]: one field per
    argument of the call. *)
Record t : Type := mk {
  disputeId : nat;
  arbitratorAddress : address;
  arbitrableContractAddress : address;
  partyA : address;
  partyB : address;
  title : option string;
  status : option nat;
  information : option string;
  justification : option string;
  resolutionOptions : option (list string);
  appealCreatedAt : jsarray Z;
  appealRuledAt : jsarray Z
}.
End DisputeDoc.

Module StoredDispute.
(** What [getDisputeData] resolves with: the dispute document merged
    with the participant's profile entry. *)
Record t : Type := mk {
  appealDraws : option (jsarray (list nat));
  netPNK : option Z;
  appealCreatedAt : option (jsarray Z);
  appealRuledAt : option (jsarray Z)
}.
End StoredDispute.

Module Notification.
(** A notification: one field per argument of [newNotification], the
    last three for its data object. *)
Record t : Type := mk {
  account : address;
  txHash : string;
  logIndex : nat;
  notificationType : nat;
  message : string;
  dataDisputeId : nat;
  dataContractAddress : address;
  dataRuling : nat
}.
End Notification.

(** ** lodash helpers *)

(** [_.findIndex(array, predicate)]: the index of the first element the
    predicate accepts; [None] stands for [-1]. *)
Fixpoint findIndex {A} (array : list A) (predicate : A -> bool) : option nat :=
  match array with
  | [] => None
  | x :: rest =>
      if predicate x then Some 0
      else match findIndex rest predicate with
           | Some i => Some (S i)
           | None => None
           end
  end.

(** The predicate both handlers pass to [_.findIndex]:
    [dispute.disputeId === disputeId &&
     dispute.arbitratorAddress === contractAddress]. *)
Definition sameDispute (disputeId : nat) (contractAddress : address)
    (dispute : ProfileDispute.t) : bool :=
  bool_decide (ProfileDispute.disputeId dispute = disputeId)
  && bool_decide (ProfileDispute.arbitratorAddress dispute = contractAddress).

(** ** The store provider *)

Module StoreProvider.
(** Modelled from the spec: the store provider [this._StoreProvider]
    (its wrapper is not part of the sources at hand).  The store is a
    document store keyed by participant address (profiles), by
    (arbitrator, disputeId) pairs (dispute documents) and by
    (party, contract) pairs (contract records).  The signatures are
    those of section 6 of the specification; a dispute that has not
    been added through [updateDispute] makes [getDisputeData] fail, and
    every other operation succeeds. *)
Record t : Type := mk {
  profiles : gmap address UserProfile.t;
  disputes : gmap (address * nat) DisputeDoc.t;
  contracts : gmap (address * address) ContractData.t;
  notifications : list Notification.t
}.

(** Modelled from the spec: [getUserProfile(account)] of the absent store
    provider; the profile keyed by the address, [null] when there is
    none. *)
Definition getUserProfile (account : address) (s : t)
  : option UserProfile.t :=
  profiles s !! account.

(** Modelled from the spec: [getContractByAddress(party, contract)] of
    the absent store provider; the party's record of the contract,
    [null] when there is none. *)
Definition getContractByAddress (party contract : address) (s : t)
  : option ContractData.t :=
  contracts s !! (party, contract).

(** Modelled from the spec: the entry of a dispute in a profile's list,
    found as the handlers of [Disputes.js] find it (first match on
    [disputeId] and [arbitratorAddress]). *)
Definition entryFor (arbitratorAddress : address) (disputeId : nat)
    (l : list ProfileDispute.t) : option ProfileDispute.t :=
  match findIndex l (sameDispute disputeId arbitratorAddress) with
  | Some i => l !! i
  | None => None
  end.

(** Modelled from the spec: the participant's entry for a dispute, when
    the profile of the absent store provider lists it. *)
Definition profileEntry (arbitratorAddress : address) (disputeId : nat)
    (account : address) (s : t) : option ProfileDispute.t :=
  match profiles s !! account with
  | Some profile =>
      entryFor arbitratorAddress disputeId (UserProfile.disputes profile)
  | None => None
  end.

(** Modelled from the spec: [getDisputeData(arbitrator, id, account)] of
    the absent store provider; the dispute document merged with the
    participant's profile entry.  It fails for a dispute that has not
    been added to the store (see the comment in [getDataForDispute]). *)
Definition getDisputeData (arbitratorAddress : address) (disputeId : nat)
    (account : address) (s : t) : result StoredDispute.t :=
  match disputes s !! (arbitratorAddress, disputeId) with
  | None => Rejected (JsError "dispute not found in store")
  | Some doc =>
      let entry := profileEntry arbitratorAddress disputeId account s in
      Resolved
        {| StoredDispute.appealDraws :=
             entry ≫= ProfileDispute.appealDraws;
           StoredDispute.netPNK := entry ≫= ProfileDispute.netPNK;
           StoredDispute.appealCreatedAt :=
             Some (DisputeDoc.appealCreatedAt doc);
           StoredDispute.appealRuledAt :=
             Some (DisputeDoc.appealRuledAt doc) |}
  end.

(** Modelled from the spec: [updateDispute(id, arbitrator, ...)] of the
    absent store provider; the document made of its twelve arguments is
    stored under (arbitrator, id). *)
Definition updateDispute (doc : DisputeDoc.t) (s : t) : t :=
  {| profiles := profiles s;
     disputes :=
       <[(DisputeDoc.arbitratorAddress doc, DisputeDoc.disputeId doc) := doc]>
         (disputes s);
     contracts := contracts s;
     notifications := notifications s |}.

(** Modelled from the spec: the profile write of the absent store
    provider; replace the first entry of the dispute, or append a new
    one. *)
Fixpoint upsert (entry : ProfileDispute.t) (l : list ProfileDispute.t)
  : list ProfileDispute.t :=
  match l with
  | [] => [entry]
  | d :: rest =>
      if sameDispute (ProfileDispute.disputeId entry)
           (ProfileDispute.arbitratorAddress entry) d
      then entry :: rest
      else d :: upsert entry rest
  end.

(** Modelled from the spec:
    [updateDisputeProfile(account, appealDraws, arbitrator, id, netPNK)]
    of the absent store provider; the participant's entry for the dispute
    is set to the draws and the net PNK given. *)
Definition updateDisputeProfile (account : address)
    (appealDraws : option (jsarray (list nat)))
    (arbitratorAddress : address) (disputeId : nat) (netPNK : Z) (s : t)
  : t :=
  let entry :=
    {| ProfileDispute.disputeId := disputeId;
       ProfileDispute.arbitratorAddress := arbitratorAddress;
       ProfileDispute.appealDraws := appealDraws;
       ProfileDispute.netPNK := Some netPNK |} in
  let profile :=
    match profiles s !! account with
    | Some p => p
    | None => {| UserProfile.session := None; UserProfile.disputes := [] |}
    end in
  {| profiles :=
       <[account :=
           {| UserProfile.session := UserProfile.session profile;
              UserProfile.disputes :=
                upsert entry (UserProfile.disputes profile) |}]>
         (profiles s);
     disputes := disputes s;
     contracts := contracts s;
     notifications := notifications s |}.

(** Modelled from the spec: [newNotification(account, txHash, logIndex,
    type, message, data)] of the absent store provider; the notification
    is recorded and handed back in an array. *)
Definition newNotification (n : Notification.t) (s : t)
  : option (list Notification.t) * t :=
  (Some [n],
   {| profiles := profiles s;
      disputes := disputes s;
      contracts := contracts s;
      notifications := notifications s ++ [n] |}).
End StoreProvider.

(** ** Asynchronous methods

    A method runs against a world: the store and the log of the calls it
    makes outwards (store writes, the eligibility check, the
    notification callback).  It returns a value, throws, or runs out of
    the fuel that bounds its [while (1)] loops. *)

Inductive call : Type :=
| CallUpdateDispute (doc : DisputeDoc.t)
| CallUpdateDisputeProfile (account : address)
    (appealDraws : option (jsarray (list nat)))
    (arbitratorAddress : address) (disputeId : nat) (netPNK : Z)
| CallNewNotification (n : Notification.t)
| CallCanRuleDispute (account : address) (disputeId : nat) (draws : list nat)
| CallNotificationCallback (n : option Notification.t).

Record World : Type := mkWorld {
  store : StoreProvider.t;
  calls : list call
}.

Inductive outcome (A : Type) : Type :=
| Ok (a : A)
| Throw (e : thrown)
| OutOfFuel.
Arguments Ok {A} a.
Arguments Throw {A} e.
Arguments OutOfFuel {A}.

Definition M (A : Type) : Type := World -> outcome A * World.

Definition ret {A} (a : A) : M A := fun w => (Ok a, w).

Definition bind {A B} (m : M A) (k : A -> M B) : M B :=
  fun w =>
    match m w with
    | (Ok a, w') => k a w'
    | (Throw e, w') => (Throw e, w')
    | (OutOfFuel, w') => (OutOfFuel, w')
    end.

Definition throw {A} (e : thrown) : M A := fun w => (Throw e, w).

Definition outOfFuel {A} : M A := fun w => (OutOfFuel, w).

(** [try { m } catch (err) { handler(err) }]: what [m] did to the world
    before it threw stays done. *)
Definition tryCatch {A} (m : M A) (handler : thrown -> M A) : M A :=
  fun w =>
    match m w with
    | (Throw e, w') => handler e w'
    | r => r
    end.

(** [await] on a collaborator's answer. *)
Definition await {A} (r : result A) : M A :=
  match r with
  | Resolved a => ret a
  | Rejected e => throw e
  end.

(** A read of the store. *)
Definition readStore {A} (f : StoreProvider.t -> A) : M A :=
  fun w => (Ok (f (store w)), w).

(** A logged write to the store. *)
Definition writeStore {A} (c : call) (f : StoreProvider.t -> A * StoreProvider.t)
  : M A :=
  fun w =>
    let '(a, s') := f (store w) in
    (Ok a, {| store := s'; calls := calls w ++ [c] |}).

(** A logged call that leaves the store alone. *)
Definition logCall (c : call) : M unit :=
  fun w => (Ok tt, {| store := store w; calls := calls w ++ [c] |}).

(** A property read on a possibly-null object. *)
Definition requireObject {A} (o : option A) : M A :=
  match o with
  | Some a => ret a
  | None => throw (JsError "TypeError: Cannot read property of null")
  end.

Notation "'let*' x ':=' m 'in' k" := (bind m (fun x => k))
  (at level 10, x pattern, m at level 100, k at level 200).

(** ** Events delivered by the event listener *)

Module DisputeCreationEvent.
Record t : Type := mk { _disputeID : nat; blockNumber : nat }.
End DisputeCreationEvent.

Module TokenShiftEvent.
Record t : Type := mk { _disputeID : nat; _account : address; _amount : Z }.
End TokenShiftEvent.

Module NewPeriodEvent.
Record t : Type := mk {
  _period : nat;
  transactionHash : string;
  blockNumber : nat
}.
End NewPeriodEvent.

(** ** The aggregated view returned by [getDataForDispute] *)

Module AppealRuling.
Record t : Type := mk {
  ruling : nat;
  voteCounter : option (list nat);
  ruledAt : option Z;
  deadline : Z
}.
End AppealRuling.

Module AppealJuror.
Record t : Type := mk {
  fee : nat;
  draws : list nat;
  canRule : bool
}.
End AppealJuror.

Module DisputeData.
Record t : Type := mk {
  arbitrableContractAddress : address;
  arbitrableContractStatus : nat;
  arbitratorAddress : address;
  partyA : address;
  partyB : address;
  disputeId : nat;
  firstSession : nat;
  lastSession : nat;
  numberOfAppeals : nat;
  disputeState : nat;
  disputeStatus : nat;
  appealRulings : list AppealRuling.t;
  appealJuror : list AppealJuror.t;
  description : option string;
  email : option string;
  evidence : list Evidence.t;
  netPNK : Z;
  appealCreatedAt : jsarray Z;
  appealRuledAt : jsarray Z
}.
End DisputeData.

(** How an iteration of a [while (1)] loop ends: [break], or on to the
    next turn with the loop variables it leaves. *)
Inductive step (S : Type) : Type :=
| Break
| Next (s : S).
Arguments Break {S}.
Arguments Next {S} s.

(** ** The class [Disputes] *)

Section Disputes.
(** The collaborators set on the instance (the guards
    [_checkArbitratorWrappersSet] and [_checkArbitrableWrappersSet] of
    the methods then pass), and the constants the class imports from
    [constants/eth], [constants/arbitrator] and
    [constants/notification]. *)
Variable _Arbitrator : Arbitrator.t.
Variable _ArbitrableContract : ArbitrableContract.t.
Variable NULL_ADDRESS : address.
Variable PERIOD_APPEAL : nat.
Variable TYPE_APPEAL_POSSIBLE : nat.

(** [getDrawsForJuror]: the body of
    [for (let draw = 1; draw <= numberOfJurors; draw++)], run over the
    draw slots still to visit. *)
Fixpoint drawsLoop (arbitratorAddress : address) (disputeId : nat)
    (account : address) (slots : list nat) (draws : list nat)
  : M (list nat) :=
  match slots with
  | [] => ret draws
  | draw :: rest =>
      let* isJuror :=
        await (Arbitrator.isJurorDrawnForDispute _Arbitrator
                 disputeId draw arbitratorAddress account) in
      drawsLoop arbitratorAddress disputeId account rest
        (if isJuror : bool then draws ++ [draw] else draws)
  end.

Definition getDrawsForJuror (arbitratorAddress : address) (disputeId : nat)
    (account : address) : M (list nat) :=
  let* numberOfJurors :=
    await (Arbitrator.getAmountOfJurorsForDispute _Arbitrator
             arbitratorAddress disputeId) in
  drawsLoop arbitratorAddress disputeId account (seq 1 numberOfJurors) [].

(** One turn of the [while (1)] loop of [getDisputesForJuror], with
    its [try]/[catch]: any failure inside the turn breaks the loop. *)
Definition jurorScanTurn (arbitratorAddress account : address)
    (currentSession : nat) (disputeId : nat) (myDisputes : list nat)
  : M (step (nat * list nat)) :=
  tryCatch
    (let* dispute :=
       await (Arbitrator.getDispute _Arbitrator arbitratorAddress disputeId) in
     let* dispute := requireObject dispute in
     if bool_decide (Dispute.arbitratedContract dispute = NULL_ADDRESS)
     then ret Break
     else
       let disputeSession :=
         Dispute.firstSession dispute + Dispute.numberOfAppeals dispute in
       if negb (bool_decide (disputeSession = currentSession))
       then
         let disputeId := S disputeId in
         let* dispute :=
           await (Arbitrator.getDispute _Arbitrator
                    arbitratorAddress disputeId) in
         ret (Next (disputeId, myDisputes))
       else
         let* draws := getDrawsForJuror arbitratorAddress disputeId account in
         let myDisputes :=
           if 0 <? length draws then myDisputes ++ [disputeId]
           else myDisputes in
         ret (Next (disputeId + 1, myDisputes)))
    (fun err => ret Break).

Fixpoint jurorScan (fuel : nat) (arbitratorAddress account : address)
    (currentSession : nat) (disputeId : nat) (myDisputes : list nat)
  : M (list nat) :=
  match fuel with
  | 0 => outOfFuel
  | S fuel =>
      let* turn :=
        jurorScanTurn arbitratorAddress account currentSession
          disputeId myDisputes in
      match turn with
      | Break => ret myDisputes
      | Next (disputeId, myDisputes) =>
          jurorScan fuel arbitratorAddress account currentSession
            disputeId myDisputes
      end
  end.

Definition getDisputesForJuror (fuel : nat)
    (arbitratorAddress account : address) : M (list nat) :=
  let* arbitratorData :=
    await (Arbitrator.getData _Arbitrator arbitratorAddress (Some account)) in
  let currentSession := ArbitratorData.session arbitratorData in
  jurorScan fuel arbitratorAddress account currentSession 0 [].

Definition getDeadlineForDispute (arbitratorAddress : address)
    (period : nat) : M Z :=
  let* arbitratorData :=
    await (Arbitrator.getData _Arbitrator arbitratorAddress None) in
  let* timeForPeriod :=
    await (Arbitrator.getTimeForPeriod _Arbitrator arbitratorAddress period) in
  ret (1000 * (ArbitratorData.lastPeriodChange arbitratorData
               + timeForPeriod))%Z.

(** [(contractData ? contractData.evidences : [])] *)
Definition evidencesOf (contractData : option ContractData.t)
  : list Evidence.t :=
  match contractData with
  | Some c => ContractData.evidences c
  | None => []
  end.

Definition getEvidenceForArbitrableContract
    (arbitrableContractAddress : address) : M (list Evidence.t) :=
  let* arbitrableContractData :=
    await (ArbitrableContract.getData _ArbitrableContract
             arbitrableContractAddress) in
  let* partyAContractData :=
    readStore (StoreProvider.getContractByAddress
                 (ArbitrableData.partyA arbitrableContractData)
                 arbitrableContractAddress) in
  let* partyBContractData :=
    readStore (StoreProvider.getContractByAddress
                 (ArbitrableData.partyB arbitrableContractData)
                 arbitrableContractAddress) in
  let partyAEvidence :=
    map (Evidence.setSubmitter (ArbitrableData.partyA arbitrableContractData))
      (evidencesOf partyAContractData) in
  let partyBEvidence :=
    map (Evidence.setSubmitter (ArbitrableData.partyB arbitrableContractData))
      (evidencesOf partyBContractData) in
  ret (partyAEvidence ++ partyBEvidence).

(** The store data of a dispute as [getDataForDispute] keeps it in its
    four local variables. *)
Record userStoreData : Type := mkUserStoreData {
  usd_appealDraws : jsarray (list nat);
  usd_netPNK : Z;
  usd_appealCreatedAt : jsarray Z;
  usd_appealRuledAt : jsarray Z
}.

(** [let appealDraws = []; let netPNK = 0; ...] *)
Definition noStoreData : userStoreData :=
  {| usd_appealDraws := []; usd_netPNK := 0%Z;
     usd_appealCreatedAt := []; usd_appealRuledAt := [] |}.

(** [if (account) { try { ... } catch (err) { } }] *)
Definition fetchUserStoreData (arbitratorAddress : address)
    (disputeId : nat) (account : address) : M userStoreData :=
  if truthyString account
  then
    tryCatch
      (let* userData :=
         bind (readStore (StoreProvider.getDisputeData
                            arbitratorAddress disputeId account)) await in
       ret {| usd_appealDraws := orEmpty (StoredDispute.appealDraws userData);
              usd_netPNK := orZero (StoredDispute.netPNK userData);
              usd_appealCreatedAt :=
                orEmpty (StoredDispute.appealCreatedAt userData);
              usd_appealRuledAt :=
                orEmpty (StoredDispute.appealRuledAt userData) |})
      (fun err => ret noStoreData)
  else ret noStoreData.

(** The body of
    [for (let appeal = 0; appeal <= lastSession - firstSession; appeal++)],
    run over the appeal indices still to visit.  The two arrays are
    written at index [appeal], which is their length at that point. *)
Fixpoint appealLoop (arbitratorAddress : address) (disputeId : nat)
    (account : address) (dispute : Dispute.t) (lastSession : nat)
    (storeData : userStoreData) (appeals : list nat)
    (appealRulings : list AppealRuling.t) (appealJuror : list AppealJuror.t)
  : M (list AppealRuling.t * list AppealJuror.t) :=
  match appeals with
  | [] => ret (appealRulings, appealJuror)
  | appeal :: rest =>
      let* ruling :=
        await (Arbitrator.currentRulingForDispute _Arbitrator
                 arbitratorAddress disputeId appeal) in
      let* deadline := getDeadlineForDispute arbitratorAddress appeal in
      let appealRulings :=
        appealRulings ++
        [{| AppealRuling.ruling := ruling;
            AppealRuling.voteCounter :=
              js_get (Dispute.voteCounters dispute) appeal;
            AppealRuling.ruledAt :=
              js_get (usd_appealRuledAt storeData) appeal;
            AppealRuling.deadline := deadline |}] in
      let baseFee := Dispute.arbitrationFeePerJuror dispute in
      let draws := orEmpty (js_get (usd_appealDraws storeData) appeal) in
      let* canRule :=
        if bool_decide (appeal = lastSession) && (0 <? length draws)
        then
          let* _ := logCall (CallCanRuleDispute account disputeId draws) in
          await (Arbitrator.canRuleDispute _Arbitrator
                   account disputeId draws)
        else ret false in
      let appealJuror :=
        appealJuror ++
        [{| AppealJuror.fee := baseFee * length draws;
            AppealJuror.draws := draws;
            AppealJuror.canRule := canRule |}] in
      appealLoop arbitratorAddress disputeId account dispute lastSession
        storeData rest appealRulings appealJuror
  end.

Definition getDataForDispute (arbitratorAddress : address)
    (disputeId : nat) (account : address) : M DisputeData.t :=
  let* dispute :=
    await (Arbitrator.getDispute _Arbitrator arbitratorAddress disputeId) in
  match dispute with
  | None =>
      throw (JsError ("Dispute with arbitrator: " +:+ arbitratorAddress
                      +:+ " and disputeId: " +:+ pretty disputeId
                      +:+ " does not exist"))
  | Some dispute =>
      let arbitrableContractAddress := Dispute.arbitratedContract dispute in
      let* arbitrableContractData :=
        await (ArbitrableContract.getData _ArbitrableContract
                 arbitrableContractAddress) in
      let* constractStoreData :=
        readStore (StoreProvider.getContractByAddress
                     (ArbitrableData.partyA arbitrableContractData)
                     arbitrableContractAddress) in
      let* storeData :=
        fetchUserStoreData arbitratorAddress disputeId account in
      let* evidence :=
        getEvidenceForArbitrableContract arbitrableContractAddress in
      let firstSession := Dispute.firstSession dispute in
      let lastSession :=
        Dispute.firstSession dispute + Dispute.numberOfAppeals dispute in
      let* (appealRulings, appealJuror) :=
        appealLoop arbitratorAddress disputeId account dispute lastSession
          storeData (seq 0 (S (lastSession - firstSession))) [] [] in
      ret {| DisputeData.arbitrableContractAddress :=
               arbitrableContractAddress;
             DisputeData.arbitrableContractStatus :=
               ArbitrableData.status arbitrableContractData;
             DisputeData.arbitratorAddress := arbitratorAddress;
             DisputeData.partyA := ArbitrableData.partyA arbitrableContractData;
             DisputeData.partyB := ArbitrableData.partyB arbitrableContractData;
             DisputeData.disputeId := disputeId;
             DisputeData.firstSession := firstSession;
             DisputeData.lastSession := lastSession;
             DisputeData.numberOfAppeals := Dispute.numberOfAppeals dispute;
             DisputeData.disputeState := Dispute.state dispute;
             DisputeData.disputeStatus := Dispute.status dispute;
             DisputeData.appealRulings := appealRulings;
             DisputeData.appealJuror := appealJuror;
             DisputeData.description :=
               constractStoreData ≫= ContractData.description;
             DisputeData.email := constractStoreData ≫= ContractData.email;
             DisputeData.evidence := evidence;
             DisputeData.netPNK := usd_netPNK storeData;
             DisputeData.appealCreatedAt := usd_appealCreatedAt storeData;
             DisputeData.appealRuledAt := usd_appealRuledAt storeData |}
  end.

(** [if (timestamp) array[index] = timestamp] *)
Definition setIfTruthy (array : jsarray Z) (index : nat)
    (timestamp : option Z) : jsarray Z :=
  match timestamp with
  | Some t => if truthyZ (Some t) then js_set array index t else array
  | None => array
  end.

Definition _updateStoreForDispute (arbitratorAddress : address)
    (disputeId : nat) (account : address) (createdAt ruledAt : option Z)
  : M DisputeDoc.t :=
  let* disputeData :=
    getDataForDispute arbitratorAddress disputeId account in
  let appealCreatedAt :=
    setIfTruthy (DisputeData.appealCreatedAt disputeData)
      (DisputeData.numberOfAppeals disputeData) createdAt in
  let appealRuledAt :=
    setIfTruthy (DisputeData.appealRuledAt disputeData)
      (DisputeData.numberOfAppeals disputeData) ruledAt in
  (* the view has no title, status, information, justification or
     resolutionOptions: these five arguments are undefined *)
  let doc :=
    {| DisputeDoc.disputeId := DisputeData.disputeId disputeData;
       DisputeDoc.arbitratorAddress :=
         DisputeData.arbitratorAddress disputeData;
       DisputeDoc.arbitrableContractAddress :=
         DisputeData.arbitrableContractAddress disputeData;
       DisputeDoc.partyA := DisputeData.partyA disputeData;
       DisputeDoc.partyB := DisputeData.partyB disputeData;
       DisputeDoc.title := None;
       DisputeDoc.status := None;
       DisputeDoc.information := None;
       DisputeDoc.justification := None;
       DisputeDoc.resolutionOptions := None;
       DisputeDoc.appealCreatedAt := appealCreatedAt;
       DisputeDoc.appealRuledAt := appealRuledAt |} in
  let* dispute :=
    writeStore (CallUpdateDispute doc)
      (fun s => (doc, StoreProvider.updateDispute doc s)) in
  let* storedDisputeData :=
    bind (readStore (StoreProvider.getDisputeData
                       arbitratorAddress disputeId account)) await in
  let* currentSession :=
    await (Arbitrator.getSession _Arbitrator arbitratorAddress) in
  let* appealDraws :=
    if bool_decide (DisputeData.lastSession disputeData = currentSession)
    then
      let* sessionDraws :=
        getDrawsForJuror arbitratorAddress disputeId account in
      ret (Some (js_set
                   (orEmpty (StoredDispute.appealDraws storedDisputeData))
                   (DisputeData.numberOfAppeals disputeData) sessionDraws))
    else ret (StoredDispute.appealDraws storedDisputeData) in
  let netPNK := orZero (Some (DisputeData.netPNK disputeData)) in
  let* _ :=
    writeStore
      (CallUpdateDisputeProfile account appealDraws
         (DisputeData.arbitratorAddress disputeData)
         (DisputeData.disputeId disputeData) netPNK)
      (fun s =>
         (tt, StoreProvider.updateDisputeProfile account appealDraws
                (DisputeData.arbitratorAddress disputeData)
                (DisputeData.disputeId disputeData) netPNK s)) in
  ret dispute.

(** The handler registered by [addDisputeEventListener account]: the
    defaults of its last two parameters are the listener's arguments. *)
Definition _disputeCreatedHandler (account : address)
    (event : DisputeCreationEvent.t) (contractAddress address : address)
  : M unit :=
  let disputeId := DisputeCreationEvent._disputeID event in
  let* disputeData := getDataForDispute contractAddress disputeId account in
  if bool_decide (DisputeData.partyA disputeData = address)
     || bool_decide (DisputeData.partyB disputeData = address)
  then
    let blockNumber := DisputeCreationEvent.blockNumber event in
    let timestamp := Arbitrator.getBlockTimestamp _Arbitrator blockNumber in
    let* _ :=
      _updateStoreForDispute contractAddress disputeId address
        (Some (timestamp * 1000)%Z) None in
    ret tt
  else ret tt.

(** The handler registered by [addTokenShiftToJurorProfileEventListener]. *)
Definition _tokenShiftHandler (event : TokenShiftEvent.t)
    (contractAddress address : address) : M unit :=
  let disputeId := TokenShiftEvent._disputeID event in
  let account := TokenShiftEvent._account event in
  let amountShift := toNumber (TokenShiftEvent._amount event) in
  if bool_decide (account = address)
  then
    let* userProfile :=
      bind (readStore (StoreProvider.getUserProfile address))
        requireObject in
    match findIndex (UserProfile.disputes userProfile)
            (sameDispute disputeId contractAddress) with
    | None => ret tt
    | Some disputeIndex =>
        let* dispute :=
          requireObject (UserProfile.disputes userProfile !! disputeIndex) in
        let netPNK :=
          jsAdd (orZero (ProfileDispute.netPNK dispute)) amountShift in
        writeStore
          (CallUpdateDisputeProfile address
             (ProfileDispute.appealDraws dispute)
             (ProfileDispute.arbitratorAddress dispute)
             (ProfileDispute.disputeId dispute) netPNK)
          (fun s =>
             (tt, StoreProvider.updateDisputeProfile address
                    (ProfileDispute.appealDraws dispute)
                    (ProfileDispute.arbitratorAddress dispute)
                    (ProfileDispute.disputeId dispute) netPNK s))
    end
  else ret tt.

(** One turn of the [while (1)] loop of [_disputeRulingHandler], with
    its two nested [try]/[catch] blocks. *)
Definition rulingScanTurn (event : NewPeriodEvent.t)
    (contractAddress address : address) (notificationCallback : bool)
    (userProfile : option UserProfile.t) (currentSession : nat)
    (disputeId : nat) : M (step nat) :=
  tryCatch
    (let* dispute :=
       tryCatch
         (await (Arbitrator.getDispute _Arbitrator contractAddress disputeId))
         (fun err => throw (JsError "DisputeOutOfRange")) in
     let* dispute := requireObject dispute in
     if bool_decide (Dispute.arbitratedContract dispute = NULL_ADDRESS)
     then ret Break
     else
       let disputeSession :=
         Dispute.firstSession dispute + Dispute.numberOfAppeals dispute in
       if negb (bool_decide (disputeSession = currentSession))
       then ret (Next (S disputeId))
       else
         let* ruling :=
           await (Arbitrator.currentRulingForDispute _Arbitrator
                    contractAddress disputeId
                    (Dispute.numberOfAppeals dispute)) in
         let* profile := requireObject userProfile in
         let* _ :=
           match findIndex (UserProfile.disputes profile)
                   (sameDispute disputeId contractAddress) with
           | Some _ =>
               let n :=
                 {| Notification.account := address;
                    Notification.txHash :=
                      NewPeriodEvent.transactionHash event;
                    Notification.logIndex := disputeId;
                    Notification.notificationType := TYPE_APPEAL_POSSIBLE;
                    Notification.message :=
                      "A ruling has been made. Appeal is possible";
                    Notification.dataDisputeId := disputeId;
                    Notification.dataContractAddress := contractAddress;
                    Notification.dataRuling := ruling |} in
               let* notification :=
                 writeStore (CallNewNotification n)
                   (StoreProvider.newNotification n) in
               let blockNumber := NewPeriodEvent.blockNumber event in
               let timestamp :=
                 Arbitrator.getBlockTimestamp _Arbitrator blockNumber in
               let* _ :=
                 _updateStoreForDispute contractAddress disputeId address
                   None (Some (timestamp * 1000)%Z) in
               match notification with
               | Some l =>
                   if notificationCallback
                   then logCall (CallNotificationCallback (head l))
                   else ret tt
               | None => ret tt
               end
           | None => ret tt
           end in
         ret (Next (disputeId + 1)))
    (fun err =>
       if strictEqString err "DisputeOutOfRange" then ret Break
       else throw err).

Fixpoint rulingScan (fuel : nat) (event : NewPeriodEvent.t)
    (contractAddress address : address) (notificationCallback : bool)
    (userProfile : option UserProfile.t) (currentSession : nat)
    (disputeId : nat) : M unit :=
  match fuel with
  | 0 => outOfFuel
  | S fuel =>
      let* turn :=
        rulingScanTurn event contractAddress address notificationCallback
          userProfile currentSession disputeId in
      match turn with
      | Break => ret tt
      | Next disputeId =>
          rulingScan fuel event contractAddress address
            notificationCallback userProfile currentSession disputeId
      end
  end.

(** The handler registered by [addDisputeRulingHandler]. *)
Definition _disputeRulingHandler (fuel : nat) (event : NewPeriodEvent.t)
    (contractAddress address : address) (notificationCallback : bool)
  : M unit :=
  let newPeriod := NewPeriodEvent._period event in
  if bool_decide (newPeriod = PERIOD_APPEAL)
  then
    let* userProfile :=
      readStore (StoreProvider.getUserProfile address) in
    let* arbitratorData :=
      await (Arbitrator.getData _Arbitrator contractAddress (Some address)) in
    let currentSession := ArbitratorData.session arbitratorData in
    rulingScan fuel event contractAddress address notificationCallback
      userProfile currentSession 0
  else ret tt.

End Disputes.

(** ** Statements about the aggregated view *)

Section ViewPredicates.
Variable _Arbitrator : Arbitrator.t.

(** What the appeal loop appends for one appeal index. *)
Definition jurorEntryOk (account : address) (disputeId lastSession : nat)
    (storeData : userStoreData) (appeal : nat) (j : AppealJuror.t) : Prop :=
  AppealJuror.draws j = orEmpty (js_get (usd_appealDraws storeData) appeal)
  /\ (AppealJuror.canRule j = true ->
      appeal = lastSession
      /\ AppealJuror.draws j <> []
      /\ Arbitrator.canRuleDispute _Arbitrator account disputeId
           (AppealJuror.draws j) = Resolved true).

(** A consultation of the eligibility check, as logged: it is made
    for the appeal index equal to [lastSession], one of the indices
    the loop visits, with the non-empty draws stored for it. *)
Definition consultationOk (account : address) (disputeId lastSession : nat)
    (storeData : userStoreData) (appeals : list nat) (c : call) : Prop :=
  exists draws,
    c = CallCanRuleDispute account disputeId draws
    /\ draws <> []
    /\ draws = orEmpty (js_get (usd_appealDraws storeData) lastSession)
    /\ In lastSession appeals.

(** The appeal index a merge writes at: the number of appeals of the
    dispute on the ledger. *)
Definition currentAppeal (arbitratorAddress : address) (disputeId : nat)
    (k : nat) : Prop :=
  exists dispute,
    Arbitrator.getDispute _Arbitrator arbitratorAddress disputeId
    = Resolved (Some dispute)
    /\ k = Dispute.numberOfAppeals dispute.

(** A returned evidence item: the stored item with its submitter
    replaced by the party. *)
Definition attributedTo (party : address) (stored returned : Evidence.t)
  : Prop :=
  Evidence.submitter returned = Some party
  /\ Evidence.name returned = Evidence.name stored
  /\ Evidence.description returned = Evidence.description stored
  /\ Evidence.url returned = Evidence.url stored.

(** The evidence a party has in the store for a contract; none when
    the party has no record of the contract. *)
Definition storedEvidence (party contract : address) (s : StoreProvider.t)
  : list Evidence.t :=
  match StoreProvider.contracts s !! (party, contract) with
  | Some record => ContractData.evidences record
  | None => []
  end.

(** The ledger answers every read the appeal loop makes for a dispute
    in which the participant holds no draws. *)
Definition appealReadsAnswer (arbitratorAddress : address)
    (disputeId : nat) (dispute : Dispute.t) : Prop :=
  (exists data,
      Arbitrator.getData _Arbitrator arbitratorAddress None = Resolved data)
  /\ forall appeal, appeal <= Dispute.numberOfAppeals dispute ->
       (exists ruling,
           Arbitrator.currentRulingForDispute _Arbitrator
             arbitratorAddress disputeId appeal = Resolved ruling)
       /\ (exists time,
              Arbitrator.getTimeForPeriod _Arbitrator
                arbitratorAddress appeal = Resolved time).
End ViewPredicates.

(** ** Statements about the discovery scan *)

Section ScanPredicates.
Variable _Arbitrator : Arbitrator.t.
Variable NULL_ADDRESS : address.

(** Dispute [d] is in session [session]:
    [firstSession + numberOfAppeals] equals it. *)
Definition inSession (arbitratorAddress : address) (session d : nat)
  : bool :=
  match Arbitrator.getDispute _Arbitrator arbitratorAddress d with
  | Resolved (Some dispute) =>
      bool_decide (Dispute.firstSession dispute
                   + Dispute.numberOfAppeals dispute = session)
  | _ => false
  end.

(** The answer of the ledger for one draw slot, a failed read counting
    as not drawn. *)
Definition drawnAt (arbitratorAddress account : address) (d draw : nat)
  : bool :=
  match Arbitrator.isJurorDrawnForDispute _Arbitrator d draw
          arbitratorAddress account with
  | Resolved isJuror => isJuror
  | Rejected _ => false
  end.

(** At least one draw slot in [1..numberOfJurors] of dispute [d] is
    drawn for the participant. *)
Definition drawnInSomeSlot (arbitratorAddress account : address) (d : nat)
  : bool :=
  match Arbitrator.getAmountOfJurorsForDispute _Arbitrator
          arbitratorAddress d with
  | Resolved numberOfJurors =>
      existsb (drawnAt arbitratorAddress account d) (seq 1 numberOfJurors)
  | Rejected _ => false
  end.

(** Every draw read of dispute [d] is answered by the ledger. *)
Definition drawReadsAnswer (arbitratorAddress account : address) (d : nat)
  : bool :=
  match Arbitrator.getAmountOfJurorsForDispute _Arbitrator
          arbitratorAddress d with
  | Resolved numberOfJurors =>
      forallb (fun draw =>
                 match Arbitrator.isJurorDrawnForDispute _Arbitrator d draw
                         arbitratorAddress account with
                 | Resolved _ => true
                 | Rejected _ => false
                 end)
        (seq 1 numberOfJurors)
  | Rejected _ => false
  end.

(** The end of the dispute space as the scan meets it at id [d]: the
    null arbitrated-contract address, or an access failure (no dispute
    record, or a failed draw read of a dispute of the session). *)
Definition endOfSpace (arbitratorAddress account : address)
    (session d : nat) : bool :=
  match Arbitrator.getDispute _Arbitrator arbitratorAddress d with
  | Resolved (Some dispute) =>
      bool_decide (Dispute.arbitratedContract dispute = NULL_ADDRESS)
      || (bool_decide (Dispute.firstSession dispute
                       + Dispute.numberOfAppeals dispute = session)
          && negb (drawReadsAnswer arbitratorAddress account d))
  | _ => true
  end.

(** Dispute [d] is relevant to the participant in the session. *)
Definition relevant (arbitratorAddress account : address)
    (session d : nat) : bool :=
  inSession arbitratorAddress session d
  && drawnInSomeSlot arbitratorAddress account d.
End ScanPredicates.

(** ** Methods that only read *)

(** A method that leaves the store as it found it, and that returns or
    throws without any fuel. *)
Definition readOnly {A} (m : M A) : Prop :=
  forall w o w', m w = (o, w') -> store w' = store w /\ o <> OutOfFuel.

(** ** Statements about token shifts *)

(** The events of a list delivered one after the other to the handler
    of a listener. *)
Fixpoint deliverTokenShifts (events : list TokenShiftEvent.t)
    (contractAddress address : address) : M unit :=
  match events with
  | [] => ret tt
  | event :: rest =>
      let* _ := _tokenShiftHandler event contractAddress address in
      deliverTokenShifts rest contractAddress address
  end.

(** The sum of the shift amounts of the events that target an account
    and a dispute. *)
Fixpoint shiftTotal (account : address) (disputeId : nat)
    (events : list TokenShiftEvent.t) : Z :=
  match events with
  | [] => 0%Z
  | event :: rest =>
      ((if bool_decide (TokenShiftEvent._account event = account)
           && bool_decide (TokenShiftEvent._disputeID event = disputeId)
        then TokenShiftEvent._amount event else 0)
       + shiftTotal account disputeId rest)%Z
  end.

(** The sum of the magnitudes of the shift amounts of the events that
    target an account and a dispute. *)
Fixpoint shiftMagnitude (account : address) (disputeId : nat)
    (events : list TokenShiftEvent.t) : Z :=
  match events with
  | [] => 0%Z
  | event :: rest =>
      ((if bool_decide (TokenShiftEvent._account event = account)
           && bool_decide (TokenShiftEvent._disputeID event = disputeId)
        then Z.abs (TokenShiftEvent._amount event) else 0)
       + shiftMagnitude account disputeId rest)%Z
  end.

(** The sum of all the shift amounts of a list of events. *)
Definition sumAmounts (events : list TokenShiftEvent.t) : Z :=
  foldr Z.add 0%Z (map TokenShiftEvent._amount events).

(** The [netPNK] the store holds for a participant and a dispute, an
    absent value read as 0. *)
Definition storedNetPNK (arbitratorAddress : address) (disputeId : nat)
    (account : address) (s : StoreProvider.t) : Z :=
  orZero (StoreProvider.profileEntry arbitratorAddress disputeId account s
          ≫= ProfileDispute.netPNK).

(** ** A small ledger and store to run the methods on *)

Module Fixture.
Definition arbitrator : address := "0xarbitrator".
Definition juror : address := "0xjuror".
Definition contract : address := "0xcontract".
Definition alice : address := "0xalice".
Definition bob : address := "0xbob".
Definition NULL_ADDRESS : address := "0x".
Definition PERIOD_APPEAL : nat := 3.
Definition TYPE_APPEAL_POSSIBLE : nat := 2.

Definition disputeAt (firstSession numberOfAppeals : nat) : Dispute.t :=
  {| Dispute.arbitratedContract := contract;
     Dispute.firstSession := firstSession;
     Dispute.numberOfAppeals := numberOfAppeals;
     Dispute.arbitrationFeePerJuror := 10;
     Dispute.voteCounters := [Some [2; 1]];
     Dispute.state := 0;
     Dispute.status := 1 |}.

Definition endOfDisputes : Dispute.t :=
  {| Dispute.arbitratedContract := NULL_ADDRESS;
     Dispute.firstSession := 0;
     Dispute.numberOfAppeals := 0;
     Dispute.arbitrationFeePerJuror := 0;
     Dispute.voteCounters := [];
     Dispute.state := 0;
     Dispute.status := 0 |}.

(** Three disputes, then the null address at id 3; further reads
    answer null or fail.  The arbitrator is in session 1 and in the appeal
    period.  Dispute 0 and dispute 2 are in the current session; the
    juror holds draw 2 of 3 in dispute 0 only. *)
Definition ledger : Arbitrator.t :=
  {| Arbitrator.getData := fun _ _ =>
       Resolved {| ArbitratorData.period := 3;
                   ArbitratorData.session := 1;
                   ArbitratorData.lastPeriodChange := 100%Z |};
     Arbitrator.getDispute := fun _ disputeId =>
       match disputeId with
       | 0 => Resolved (Some (disputeAt 1 0))
       | 1 => Resolved (Some (disputeAt 0 0))
       | 2 => Resolved (Some (disputeAt 0 1))
       | 3 => Resolved (Some endOfDisputes)
       | 4 => Resolved None
       | _ => Rejected (JsError "invalid opcode")
       end;
     Arbitrator.getSession := fun _ => Resolved 1;
     Arbitrator.currentRulingForDispute := fun _ _ _ => Resolved 1;
     Arbitrator.getAmountOfJurorsForDispute := fun _ _ => Resolved 3;
     Arbitrator.isJurorDrawnForDispute := fun disputeId draw _ account =>
       Resolved (bool_decide (disputeId = 0) && bool_decide (draw = 2)
                 && bool_decide (account = juror));
     Arbitrator.canRuleDispute := fun _ _ _ => Resolved true;
     Arbitrator.getTimeForPeriod := fun _ _ => Resolved 60%Z;
     Arbitrator.getBlockTimestamp := fun blockNumber => Z.of_nat blockNumber
  |}.

Definition arbitrable : ArbitrableContract.t :=
  {| ArbitrableContract.getData := fun _ =>
       Resolved {| ArbitrableData.partyA := alice;
                   ArbitrableData.partyB := bob;
                   ArbitrableData.status := 4 |} |}.

Definition emptyStore : StoreProvider.t :=
  {| StoreProvider.profiles := ∅;
     StoreProvider.disputes := ∅;
     StoreProvider.contracts := ∅;
     StoreProvider.notifications := [] |}.

Definition emptyWorld : World := {| store := emptyStore; calls := [] |}.

Definition docOf (disputeId : nat) (appealCreatedAt appealRuledAt : jsarray Z)
  : DisputeDoc.t :=
  {| DisputeDoc.disputeId := disputeId;
     DisputeDoc.arbitratorAddress := arbitrator;
     DisputeDoc.arbitrableContractAddress := contract;
     DisputeDoc.partyA := alice;
     DisputeDoc.partyB := bob;
     DisputeDoc.title := None;
     DisputeDoc.status := None;
     DisputeDoc.information := None;
     DisputeDoc.justification := None;
     DisputeDoc.resolutionOptions := None;
     DisputeDoc.appealCreatedAt := appealCreatedAt;
     DisputeDoc.appealRuledAt := appealRuledAt |}.

Definition entryOf (disputeId : nat)
    (appealDraws : option (jsarray (list nat))) (netPNK : option Z)
  : ProfileDispute.t :=
  {| ProfileDispute.disputeId := disputeId;
     ProfileDispute.arbitratorAddress := arbitrator;
     ProfileDispute.appealDraws := appealDraws;
     ProfileDispute.netPNK := netPNK |}.

Definition evidenceOf (name : string) (submitter : option address)
  : Evidence.t :=
  {| Evidence.name := name; Evidence.description := "";
     Evidence.url := "https://example.org/" +:+ name;
     Evidence.submitter := submitter |}.

(** The juror tracks disputes 0 and 2; alice tracks dispute 0, created
    at time 1000; both parties have filed evidence. *)
Definition trackedStore : StoreProvider.t :=
  {| StoreProvider.profiles :=
       <[juror :=
           {| UserProfile.session := Some 1;
              UserProfile.disputes :=
                [entryOf 0 (Some [Some [2]]) (Some 5%Z);
                 entryOf 2 (Some [None; Some [1; 3]]) None] |}]>
       (<[alice :=
            {| UserProfile.session := None;
               UserProfile.disputes := [entryOf 0 None None] |}]> ∅);
     StoreProvider.disputes :=
       <[(arbitrator, 0) := docOf 0 [Some 1000%Z] []]>
       (<[(arbitrator, 2) := docOf 2 [Some 500%Z; Some 900%Z] [Some 700%Z]]> ∅);
     StoreProvider.contracts :=
       <[(alice, contract) :=
           {| ContractData.description := Some "sale of a bicycle";
              ContractData.email := Some "alice@example.org";
              ContractData.evidences :=
                [evidenceOf "receipt" (Some "0xmallory")] |}]>
       (<[(bob, contract) :=
            {| ContractData.description := None;
               ContractData.email := None;
               ContractData.evidences :=
                 [evidenceOf "photo" None; evidenceOf "letter" (Some alice)] |}]>
          ∅);
     StoreProvider.notifications := [] |}.

Definition trackedWorld : World := {| store := trackedStore; calls := [] |}.

(** The juror's view of dispute 2 over [trackedWorld]. *)
Definition view2 : DisputeData.t :=
  {| DisputeData.arbitrableContractAddress := contract;
     DisputeData.arbitrableContractStatus := 4;
     DisputeData.arbitratorAddress := arbitrator;
     DisputeData.partyA := alice;
     DisputeData.partyB := bob;
     DisputeData.disputeId := 2;
     DisputeData.firstSession := 0;
     DisputeData.lastSession := 1;
     DisputeData.numberOfAppeals := 1;
     DisputeData.disputeState := 0;
     DisputeData.disputeStatus := 1;
     DisputeData.appealRulings :=
       [{| AppealRuling.ruling := 1;
           AppealRuling.voteCounter := Some [2; 1];
           AppealRuling.ruledAt := Some 700%Z;
           AppealRuling.deadline := 160000%Z |};
        {| AppealRuling.ruling := 1;
           AppealRuling.voteCounter := None;
           AppealRuling.ruledAt := None;
           AppealRuling.deadline := 160000%Z |}];
     DisputeData.appealJuror :=
       [{| AppealJuror.fee := 0;
           AppealJuror.draws := [];
           AppealJuror.canRule := false |};
        {| AppealJuror.fee := 20;
           AppealJuror.draws := [1; 3];
           AppealJuror.canRule := true |}];
     DisputeData.description := Some "sale of a bicycle";
     DisputeData.email := Some "alice@example.org";
     DisputeData.evidence :=
       [evidenceOf "receipt" (Some alice);
        evidenceOf "photo" (Some bob);
        evidenceOf "letter" (Some bob)];
     DisputeData.netPNK := 0%Z;
     DisputeData.appealCreatedAt := [Some 500%Z; Some 900%Z];
     DisputeData.appealRuledAt := [Some 700%Z] |}.

(** A ledger whose dispute getter fails past the last dispute, as an
    out-of-range read of a contract array does. *)
Definition boundedLedger : Arbitrator.t :=
  {| Arbitrator.getData := Arbitrator.getData ledger;
     Arbitrator.getDispute := fun _ disputeId =>
       match disputeId with
       | 0 => Resolved (Some (disputeAt 0 0))
       | _ => Rejected (JsError "invalid opcode")
       end;
     Arbitrator.getSession := Arbitrator.getSession ledger;
     Arbitrator.currentRulingForDispute :=
       Arbitrator.currentRulingForDispute ledger;
     Arbitrator.getAmountOfJurorsForDispute :=
       Arbitrator.getAmountOfJurorsForDispute ledger;
     Arbitrator.isJurorDrawnForDispute :=
       Arbitrator.isJurorDrawnForDispute ledger;
     Arbitrator.canRuleDispute := Arbitrator.canRuleDispute ledger;
     Arbitrator.getTimeForPeriod := Arbitrator.getTimeForPeriod ledger;
     Arbitrator.getBlockTimestamp := Arbitrator.getBlockTimestamp ledger
  |}.

Definition appealPeriodEvent : NewPeriodEvent.t :=
  {| NewPeriodEvent._period := PERIOD_APPEAL;
     NewPeriodEvent.transactionHash := "0xtx";
     NewPeriodEvent.blockNumber := 7 |}.

(** A creation event for dispute 0 in a block of timestamp 2. *)
Definition creationEvent : DisputeCreationEvent.t :=
  {| DisputeCreationEvent._disputeID := 0;
     DisputeCreationEvent.blockNumber := 2 |}.

Definition shift (disputeId : nat) (account : address) (amount : Z)
  : TokenShiftEvent.t :=
  {| TokenShiftEvent._disputeID := disputeId;
     TokenShiftEvent._account := account;
     TokenShiftEvent._amount := amount |}.

Definition trackedWorldConsulted : World :=
  {| store := trackedStore;
     calls := [CallCanRuleDispute juror 2 [1; 3]] |}.
End Fixture.

(** ** The lookup methods of the class *)

Module Transactions.
(** The methods of [this._ArbitrableContract] and [this._Arbitrator]
    that pay fees, vote and read the ruling options, in a record of
    their own. *)
Record t : Type := mk {
  payArbitrationFeeByPartyA : address -> address -> Z -> result (option string);
  payArbitrationFeeByPartyB : address -> address -> Z -> result (option string);
  submitVotes :
    address -> nat -> nat -> list nat -> address -> result (option string);
  getRulingOptions : address -> address -> nat -> result (list string)
}.
End Transactions.

Section OtherMethods.
Variable _Arbitrator : Arbitrator.t.
Variable _Transactions : Transactions.t.

Definition getRulingOptions (arbitratorAddress : address) (disputeId : nat)
  : M (list string) :=
  let* dispute :=
    await (Arbitrator.getDispute _Arbitrator arbitratorAddress disputeId) in
  match dispute with
  | None =>
      throw (JsError ("Cannot fetch ruling options: Dispute from arbitrator "
                      +:+ arbitratorAddress +:+ " with disputeId: "
                      +:+ pretty disputeId +:+ " does not exist"))
  | Some dispute =>
      let arbitrableContractAddress := Dispute.arbitratedContract dispute in
      await (Transactions.getRulingOptions _Transactions
               arbitrableContractAddress arbitratorAddress disputeId)
  end.

(** [_.filter] keeps the elements the predicate accepts, in order;
    [disputeArray[0]] of a non-empty array is its head. *)
Definition getUserDisputeFromStore (arbitratorAddress : address)
    (disputeId : nat) (account : address) : M ProfileDispute.t :=
  let* userProfile :=
    bind (readStore (StoreProvider.getUserProfile account)) requireObject in
  let disputeArray :=
    List.filter (sameDispute disputeId arbitratorAddress)
      (UserProfile.disputes userProfile) in
  match disputeArray with
  | [] =>
      throw (JsError ("User " +:+ account
                      +:+ " does not have store data for dispute"))
  | dispute :: _ => ret dispute
  end.
End OtherMethods.

(** ** Statements about the entries of the aggregated view *)

Section EntryPredicates.
Variable _Arbitrator : Arbitrator.t.

(** The ruling entry of an appeal index: the ledger's ruling for that
    appeal, the vote counter and the stored ruling time at that index,
    and the deadline computed with the appeal index as the period. *)
Definition rulingEntryOk (arbitratorAddress : address) (disputeId : nat)
    (dispute : Dispute.t) (appealRuledAt : jsarray Z) (appeal : nat)
    (r : AppealRuling.t) : Prop :=
  Arbitrator.currentRulingForDispute _Arbitrator arbitratorAddress disputeId
    appeal = Resolved (AppealRuling.ruling r)
  /\ AppealRuling.voteCounter r = js_get (Dispute.voteCounters dispute) appeal
  /\ AppealRuling.ruledAt r = js_get appealRuledAt appeal
  /\ exists data time,
       Arbitrator.getData _Arbitrator arbitratorAddress None = Resolved data
       /\ Arbitrator.getTimeForPeriod _Arbitrator arbitratorAddress appeal
          = Resolved time
       /\ AppealRuling.deadline r
          = (1000 * (ArbitratorData.lastPeriodChange data + time))%Z.

(** The juror entry of an appeal index: the draws stored at that index,
    the fee they earn, and the answer of the eligibility check when the
    index equals [lastSession] and there are draws. *)
Definition jurorFeeOk (account : address) (disputeId : nat)
    (dispute : Dispute.t) (lastSession : nat)
    (appealDraws : jsarray (list nat)) (appeal : nat) (j : AppealJuror.t)
  : Prop :=
  AppealJuror.draws j = orEmpty (js_get appealDraws appeal)
  /\ AppealJuror.fee j
     = Dispute.arbitrationFeePerJuror dispute * length (AppealJuror.draws j)
  /\ (AppealJuror.canRule j = true ->
      appeal = lastSession /\ AppealJuror.draws j <> [])
  /\ (appeal = lastSession -> AppealJuror.draws j <> [] ->
      Arbitrator.canRuleDispute _Arbitrator account disputeId
        (AppealJuror.draws j) = Resolved (AppealJuror.canRule j)).
End EntryPredicates.

(** The consultations of the eligibility check that a complete appeal
    loop logs: one, when it visits the index [lastSession] and draws
    are stored there. *)
Definition consultations (account : address) (disputeId lastSession : nat)
    (appealDraws : jsarray (list nat)) (appeals : list nat) : list call :=
  let draws := orEmpty (js_get appealDraws lastSession) in
  if existsb (Nat.eqb lastSession) appeals && (0 <? length draws)
  then [CallCanRuleDispute account disputeId draws]
  else [].

(** ** Statements about the merge *)

(** The document that a merge hands to [updateDispute]: the view's
    identification, its two timestamp arrays written at the current
    appeal index, and five undefined fields. *)
Definition mergedDocument (disputeData : DisputeData.t)
    (createdAt ruledAt : option Z) : DisputeDoc.t :=
  {| DisputeDoc.disputeId := DisputeData.disputeId disputeData;
     DisputeDoc.arbitratorAddress := DisputeData.arbitratorAddress disputeData;
     DisputeDoc.arbitrableContractAddress :=
       DisputeData.arbitrableContractAddress disputeData;
     DisputeDoc.partyA := DisputeData.partyA disputeData;
     DisputeDoc.partyB := DisputeData.partyB disputeData;
     DisputeDoc.title := None;
     DisputeDoc.status := None;
     DisputeDoc.information := None;
     DisputeDoc.justification := None;
     DisputeDoc.resolutionOptions := None;
     DisputeDoc.appealCreatedAt :=
       setIfTruthy (DisputeData.appealCreatedAt disputeData)
         (DisputeData.numberOfAppeals disputeData) createdAt;
     DisputeDoc.appealRuledAt :=
       setIfTruthy (DisputeData.appealRuledAt disputeData)
         (DisputeData.numberOfAppeals disputeData) ruledAt |}.

(** The draws of a participant's entry in the store. *)
Definition storedDraws (arbitratorAddress : address) (disputeId : nat)
    (account : address) (s : StoreProvider.t)
  : option (jsarray (list nat)) :=
  StoreProvider.profileEntry arbitratorAddress disputeId account s
  ≫= ProfileDispute.appealDraws.

(** ** Statements about the calls a method makes *)

(** Every call that a method adds to the log satisfies [P], whatever
    the outcome of the method. *)
Definition logsOnly {A} (P : call -> Prop) (m : M A) : Prop :=
  forall w o w',
    m w = (o, w') -> exists cs, calls w' = calls w ++ cs /\ Forall P cs.

(** A method that leaves the whole world, store and log, as it found
    it, whatever its outcome. *)
Definition silent {A} (m : M A) : Prop :=
  forall w o w', m w = (o, w') -> w' = w.

(** A call that writes to the store. *)
Definition isStoreWrite (c : call) : Prop :=
  match c with
  | CallUpdateDispute _ | CallUpdateDisputeProfile _ _ _ _ _
  | CallNewNotification _ => True
  | _ => False
  end.

(** ** Statements about the new-period handler *)

Section NoticePredicates.
Variable _Arbitrator : Arbitrator.t.
Variable NULL_ADDRESS : address.
Variable TYPE_APPEAL_POSSIBLE : nat.

(** A notification as the new-period handler makes it for a listener:
    of the appeal-possible type, for a dispute that the profile read at
    the start of the handler lists, that is in the session of the
    arbitrator and that carries the ruling the ledger gives for its
    current appeal. *)
Definition appealNotice (event : NewPeriodEvent.t)
    (contractAddress address : address) (userProfile : option UserProfile.t)
    (currentSession : nat) (n : Notification.t) : Prop :=
  Notification.account n = address
  /\ Notification.txHash n = NewPeriodEvent.transactionHash event
  /\ Notification.logIndex n = Notification.dataDisputeId n
  /\ Notification.notificationType n = TYPE_APPEAL_POSSIBLE
  /\ Notification.dataContractAddress n = contractAddress
  /\ (exists profile entry,
         userProfile = Some profile
         /\ StoreProvider.entryFor contractAddress
              (Notification.dataDisputeId n) (UserProfile.disputes profile)
            = Some entry)
  /\ exists dispute,
       Arbitrator.getDispute _Arbitrator contractAddress
         (Notification.dataDisputeId n) = Resolved (Some dispute)
       /\ Dispute.arbitratedContract dispute <> NULL_ADDRESS
       /\ Dispute.firstSession dispute + Dispute.numberOfAppeals dispute
          = currentSession
       /\ Arbitrator.currentRulingForDispute _Arbitrator contractAddress
            (Notification.dataDisputeId n) (Dispute.numberOfAppeals dispute)
          = Resolved (Notification.dataRuling n).
End NoticePredicates.

(** The notifications that a run adds to the log of calls. *)
Definition noticesOf (cs : list call) : list Notification.t :=
  omap (fun c => match c with
                 | CallNewNotification n => Some n
                 | _ => None
                 end) cs.

(** The notifications that a run hands to the notification callback. *)
Definition callbacksOf (cs : list call) : list (option Notification.t) :=
  omap (fun c => match c with
                 | CallNotificationCallback n => Some n
                 | _ => None
                 end) cs.

(** ** More ledgers and stores to run the methods on *)

Module Sample.
(** The sample ledger with one change to a collaborator method. *)
Definition withDrawReads
    (isJurorDrawnForDispute : nat -> nat -> address -> address -> result bool)
  : Arbitrator.t :=
  {| Arbitrator.getData := Arbitrator.getData Fixture.ledger;
     Arbitrator.getDispute := Arbitrator.getDispute Fixture.ledger;
     Arbitrator.getSession := Arbitrator.getSession Fixture.ledger;
     Arbitrator.currentRulingForDispute :=
       Arbitrator.currentRulingForDispute Fixture.ledger;
     Arbitrator.getAmountOfJurorsForDispute :=
       Arbitrator.getAmountOfJurorsForDispute Fixture.ledger;
     Arbitrator.isJurorDrawnForDispute := isJurorDrawnForDispute;
     Arbitrator.canRuleDispute := Arbitrator.canRuleDispute Fixture.ledger;
     Arbitrator.getTimeForPeriod := Arbitrator.getTimeForPeriod Fixture.ledger;
     Arbitrator.getBlockTimestamp :=
       Arbitrator.getBlockTimestamp Fixture.ledger |}.

(** The read of draw slot 2 fails. *)
Definition flakyLedger : Arbitrator.t :=
  withDrawReads (fun disputeId draw _ _ =>
                   if bool_decide (draw = 2)
                   then Rejected (JsString "timeout")
                   else Resolved (bool_decide (draw = 1))).

(** The sample ledger with another dispute getter. *)
Definition withDisputes
    (getDispute : address -> nat -> result (option Dispute.t))
  : Arbitrator.t :=
  {| Arbitrator.getData := Arbitrator.getData Fixture.ledger;
     Arbitrator.getDispute := getDispute;
     Arbitrator.getSession := Arbitrator.getSession Fixture.ledger;
     Arbitrator.currentRulingForDispute :=
       Arbitrator.currentRulingForDispute Fixture.ledger;
     Arbitrator.getAmountOfJurorsForDispute :=
       Arbitrator.getAmountOfJurorsForDispute Fixture.ledger;
     Arbitrator.isJurorDrawnForDispute :=
       Arbitrator.isJurorDrawnForDispute Fixture.ledger;
     Arbitrator.canRuleDispute := Arbitrator.canRuleDispute Fixture.ledger;
     Arbitrator.getTimeForPeriod := Arbitrator.getTimeForPeriod Fixture.ledger;
     Arbitrator.getBlockTimestamp :=
       Arbitrator.getBlockTimestamp Fixture.ledger |}.

(** The juror's view of dispute 0 over the tracked world, as the
    aggregation computes it. *)
Definition view0 : DisputeData.t :=
  Eval vm_compute in
    match fst (getDataForDispute Fixture.ledger Fixture.arbitrable
                 Fixture.arbitrator 0 Fixture.juror Fixture.trackedWorld) with
    | Ok v => v
    | _ => Fixture.view2
    end.

(** The view of dispute 0 over the tracked world for no account. *)
Definition view0Anonymous : DisputeData.t :=
  Eval vm_compute in
    match fst (getDataForDispute Fixture.ledger Fixture.arbitrable
                 Fixture.arbitrator 0 "" Fixture.trackedWorld) with
    | Ok v => v
    | _ => Fixture.view2
    end.

(** The session read fails. *)
Definition sessionlessLedger : Arbitrator.t :=
  {| Arbitrator.getData := Arbitrator.getData Fixture.ledger;
     Arbitrator.getDispute := Arbitrator.getDispute Fixture.ledger;
     Arbitrator.getSession := fun _ => Rejected (JsError "no session");
     Arbitrator.currentRulingForDispute :=
       Arbitrator.currentRulingForDispute Fixture.ledger;
     Arbitrator.getAmountOfJurorsForDispute :=
       Arbitrator.getAmountOfJurorsForDispute Fixture.ledger;
     Arbitrator.isJurorDrawnForDispute :=
       Arbitrator.isJurorDrawnForDispute Fixture.ledger;
     Arbitrator.canRuleDispute := Arbitrator.canRuleDispute Fixture.ledger;
     Arbitrator.getTimeForPeriod := Arbitrator.getTimeForPeriod Fixture.ledger;
     Arbitrator.getBlockTimestamp :=
       Arbitrator.getBlockTimestamp Fixture.ledger |}.

(** Alice's view of dispute 0 over the tracked world. *)
Definition view0Alice : DisputeData.t :=
  Eval vm_compute in
    match fst (getDataForDispute sessionlessLedger Fixture.arbitrable
                 Fixture.arbitrator 0 Fixture.alice Fixture.trackedWorld) with
    | Ok v => v
    | _ => Fixture.view2
    end.

(** Every id answers a dispute of session 0: the space has no end. *)
Definition endlessLedger : Arbitrator.t :=
  withDisputes (fun _ _ => Resolved (Some (Fixture.disputeAt 0 0))).
(** Two disputes of the session, then the null address at id 2.  The
    draw reads of dispute 0 fail; the juror holds draw 2 of dispute 1. *)
Definition brokenDrawsLedger : Arbitrator.t :=
  {| Arbitrator.getData := Arbitrator.getData Fixture.ledger;
     Arbitrator.getDispute := fun _ disputeId =>
       match disputeId with
       | 0 => Resolved (Some (Fixture.disputeAt 1 0))
       | 1 => Resolved (Some (Fixture.disputeAt 1 0))
       | 2 => Resolved (Some Fixture.endOfDisputes)
       | _ => Rejected (JsError "invalid opcode")
       end;
     Arbitrator.getSession := Arbitrator.getSession Fixture.ledger;
     Arbitrator.currentRulingForDispute :=
       Arbitrator.currentRulingForDispute Fixture.ledger;
     Arbitrator.getAmountOfJurorsForDispute :=
       Arbitrator.getAmountOfJurorsForDispute Fixture.ledger;
     Arbitrator.isJurorDrawnForDispute := fun disputeId draw _ account =>
       if bool_decide (disputeId = 0) then Rejected (JsError "timeout")
       else Resolved (bool_decide (draw = 2)
                      && bool_decide (account = Fixture.juror));
     Arbitrator.canRuleDispute := Arbitrator.canRuleDispute Fixture.ledger;
     Arbitrator.getTimeForPeriod := Arbitrator.getTimeForPeriod Fixture.ledger;
     Arbitrator.getBlockTimestamp :=
       Arbitrator.getBlockTimestamp Fixture.ledger |}.

(** The ruling read fails. *)
Definition rulinglessLedger : Arbitrator.t :=
  {| Arbitrator.getData := Arbitrator.getData Fixture.ledger;
     Arbitrator.getDispute := Arbitrator.getDispute Fixture.ledger;
     Arbitrator.getSession := Arbitrator.getSession Fixture.ledger;
     Arbitrator.currentRulingForDispute := fun _ _ _ =>
       Rejected (JsError "no ruling");
     Arbitrator.getAmountOfJurorsForDispute :=
       Arbitrator.getAmountOfJurorsForDispute Fixture.ledger;
     Arbitrator.isJurorDrawnForDispute :=
       Arbitrator.isJurorDrawnForDispute Fixture.ledger;
     Arbitrator.canRuleDispute := Arbitrator.canRuleDispute Fixture.ledger;
     Arbitrator.getTimeForPeriod := Arbitrator.getTimeForPeriod Fixture.ledger;
     Arbitrator.getBlockTimestamp :=
       Arbitrator.getBlockTimestamp Fixture.ledger |}.

(** Transactions that succeed for alice, resolve without a hash for bob
    and are rejected for everybody else. *)
Definition wallet : Transactions.t :=
  let pay := fun (account _ : address) (_ : Z) =>
    if bool_decide (account = Fixture.alice) then Resolved (Some "0xpaid")
    else if bool_decide (account = Fixture.bob) then Resolved None
    else Rejected (JsError "insufficient funds") in
  {| Transactions.payArbitrationFeeByPartyA := pay;
     Transactions.payArbitrationFeeByPartyB := pay;
     Transactions.submitVotes := fun _ _ _ _ account =>
       if bool_decide (account = Fixture.juror) then Resolved (Some "0xvoted")
       else Rejected (JsString "not a juror");
     Transactions.getRulingOptions := fun _ _ _ => Resolved ["yes"; "no"] |}.
End Sample.

(** * Properties *)

(** ** The monad *)

Lemma bind_Ok_inv {A B} (m : M A) (k : A -> M B) w b w' :
  bind m k w = (Ok b, w') ->
  exists a w1, m w = (Ok a, w1) /\ k a w1 = (Ok b, w').
Proof.
  unfold bind. destruct (m w) as [[a | e |] w1]; intros H; try discriminate.
  exists a, w1. split; [reflexivity | exact H].
Qed.

Lemma bind_Ok {A B} (m : M A) (k : A -> M B) w a w1 :
  m w = (Ok a, w1) -> bind m k w = k a w1.
Proof. intros H. unfold bind. rewrite H. reflexivity. Qed.

Lemma await_Ok_inv {A} (r : result A) w a w' :
  await r w = (Ok a, w') -> r = Resolved a /\ w' = w.
Proof.
  destruct r as [x | e]; simpl; unfold ret, throw; intros H;
    inversion H; subst; auto.
Qed.

Lemma js_get_nil {A} (k : nat) : js_get ([] : jsarray A) k = None.
Proof. reflexivity. Qed.

(** The array operations: a write is read back, leaves the other
    entries alone and never shortens the array. *)
Lemma js_get_set_eq {A} (arr : jsarray A) k v :
  js_get (js_set arr k v) k = Some v.
Proof.
  unfold js_get, js_set. destruct (decide (k < length arr)) as [Hlt | Hge].
  - rewrite list_lookup_insert_eq by exact Hlt. reflexivity.
  - rewrite lookup_app_r by lia.
    rewrite lookup_app_r by (rewrite length_replicate; lia).
    rewrite length_replicate.
    replace (k - length arr - (k - length arr)) with 0 by lia.
    reflexivity.
Qed.

Lemma js_get_set_ne {A} (arr : jsarray A) k j v :
  j <> k -> js_get (js_set arr k v) j = js_get arr j.
Proof.
  intros Hne. unfold js_get, js_set.
  destruct (decide (k < length arr)) as [Hlt | Hge].
  - rewrite list_lookup_insert_ne by congruence. reflexivity.
  - destruct (decide (j < length arr)) as [Hj | Hj].
    + rewrite lookup_app_l by exact Hj. reflexivity.
    + rewrite lookup_app_r by lia.
      rewrite (lookup_ge_None_2 arr j) by lia. simpl.
      destruct (decide (j - length arr < k - length arr)) as [Hin | Hout].
      * rewrite lookup_app_l by (rewrite length_replicate; exact Hin).
        rewrite lookup_replicate_2 by exact Hin. reflexivity.
      * rewrite lookup_app_r by (rewrite length_replicate; lia).
        rewrite length_replicate.
        rewrite lookup_ge_None_2 by (simpl; lia). reflexivity.
Qed.

Lemma js_set_length {A} (arr : jsarray A) k v :
  length arr <= length (js_set arr k v).
Proof.
  unfold js_set. destruct (decide (k < length arr)).
  - rewrite length_insert. lia.
  - rewrite length_app. lia.
Qed.

(** ** Reading methods leave the store alone *)

Section Reads.
Variable _Arbitrator : Arbitrator.t.
Variable _ArbitrableContract : ArbitrableContract.t.

Lemma getEvidenceForArbitrableContract_run contract w :
  getEvidenceForArbitrableContract _ArbitrableContract contract w =
  match ArbitrableContract.getData _ArbitrableContract contract with
  | Resolved data =>
      (Ok (map (Evidence.setSubmitter (ArbitrableData.partyA data))
             (evidencesOf
                (StoreProvider.getContractByAddress
                   (ArbitrableData.partyA data) contract (store w)))
           ++ map (Evidence.setSubmitter (ArbitrableData.partyB data))
                (evidencesOf
                   (StoreProvider.getContractByAddress
                      (ArbitrableData.partyB data) contract (store w)))),
       w)
  | Rejected e => (Throw e, w)
  end.
Proof.
  unfold getEvidenceForArbitrableContract, bind.
  destruct (ArbitrableContract.getData _ArbitrableContract contract);
    reflexivity.
Qed.

Lemma getDeadlineForDispute_world arbitratorAddress period w o w' :
  getDeadlineForDispute _Arbitrator arbitratorAddress period w = (o, w') ->
  w' = w.
Proof.
  unfold getDeadlineForDispute, bind.
  destruct (Arbitrator.getData _ _ _); simpl.
  - destruct (Arbitrator.getTimeForPeriod _ _ _); simpl;
      unfold ret, throw; intros H; inversion H; reflexivity.
  - unfold throw; intros H; inversion H; reflexivity.
Qed.

Lemma fetchUserStoreData_total arbitratorAddress disputeId account w :
  exists storeData,
    fetchUserStoreData arbitratorAddress disputeId account w
    = (Ok storeData, w).
Proof.
  unfold fetchUserStoreData, tryCatch, bind, readStore.
  destruct (truthyString account); [| eexists; reflexivity].
  destruct (StoreProvider.getDisputeData _ _ _ _); simpl;
    eexists; reflexivity.
Qed.

Lemma fetchUserStoreData_absent arbitratorAddress disputeId account w e :
  StoreProvider.getDisputeData arbitratorAddress disputeId account (store w)
  = Rejected e ->
  fetchUserStoreData arbitratorAddress disputeId account w
  = (Ok noStoreData, w).
Proof.
  intros H. unfold fetchUserStoreData, tryCatch, bind, readStore.
  destruct (truthyString account); [| reflexivity].
  rewrite H. reflexivity.
Qed.

Lemma fetchUserStoreData_present arbitratorAddress disputeId account w
    userData :
  account <> "" ->
  StoreProvider.getDisputeData arbitratorAddress disputeId account (store w)
  = Resolved userData ->
  fetchUserStoreData arbitratorAddress disputeId account w
  = (Ok {| usd_appealDraws := orEmpty (StoredDispute.appealDraws userData);
           usd_netPNK := orZero (StoredDispute.netPNK userData);
           usd_appealCreatedAt :=
             orEmpty (StoredDispute.appealCreatedAt userData);
           usd_appealRuledAt :=
             orEmpty (StoredDispute.appealRuledAt userData) |}, w).
Proof.
  intros Hacc H. unfold fetchUserStoreData, tryCatch, bind, readStore.
  unfold truthyString. rewrite bool_decide_eq_false_2 by exact Hacc.
  simpl. rewrite H. reflexivity.
Qed.

Lemma appealLoop_inv arbitratorAddress disputeId account dispute lastSession
    storeData appeals :
  forall rulings jurors w rulings' jurors' w',
    appealLoop _Arbitrator arbitratorAddress disputeId account dispute
      lastSession storeData appeals rulings jurors w
    = (Ok (rulings', jurors'), w') ->
    exists newJurors newCalls,
      jurors' = jurors ++ newJurors
      /\ Forall2 (jurorEntryOk _Arbitrator account disputeId lastSession storeData)
           appeals newJurors
      /\ store w' = store w
      /\ calls w' = calls w ++ newCalls
      /\ Forall (consultationOk account disputeId lastSession storeData
                   appeals) newCalls.
Proof.
  induction appeals as [| appeal rest IH]; intros rulings jurors w
    rulings' jurors' w' Hrun.
  - simpl in Hrun. unfold ret in Hrun. inversion Hrun; subst.
    exists [], []. rewrite !app_nil_r. repeat split; constructor.
  - simpl in Hrun.
    apply bind_Ok_inv in Hrun as (ruling & w1 & Hruling & Hrun).
    apply await_Ok_inv in Hruling as [_ ->].
    apply bind_Ok_inv in Hrun as (deadline & w1 & Hdeadline & Hrun).
    apply getDeadlineForDispute_world in Hdeadline as ->.
    apply bind_Ok_inv in Hrun as (canRule & w2 & HcanRule & Hrun).
    apply IH in Hrun
      as (newJurors & newCalls & -> & Hentries & Hstore & Hcalls & Hlog).
    assert (Hlog' : Forall (consultationOk account disputeId lastSession
                              storeData (appeal :: rest)) newCalls).
    { eapply Forall_impl; [exact Hlog |].
      intros c (draws & ? & ? & ? & ?). exists draws.
      repeat split; try assumption. right; assumption. }
    clear Hlog.
    set (draws := orEmpty (js_get (usd_appealDraws storeData) appeal))
      in *.
    destruct (bool_decide (appeal = lastSession) && (0 <? length draws))
      eqn:Hguard.
    + apply andb_true_iff in Hguard as [Hlast Hlen].
      apply bool_decide_eq_true_1 in Hlast.
      apply Nat.ltb_lt in Hlen.
      assert (Hne : draws <> []) by (destruct draws; simpl in Hlen;
                                     [lia | discriminate]).
      apply bind_Ok_inv in HcanRule as ([] & w3 & Hcall & HcanRule).
      unfold logCall in Hcall. inversion Hcall; subst w3; clear Hcall.
      apply await_Ok_inv in HcanRule as [Hanswer ->].
      simpl in Hstore, Hcalls.
      eexists (_ :: newJurors), (_ :: newCalls).
      split; [rewrite <- app_assoc; reflexivity |].
      split.
      { constructor; [| exact Hentries]. split; [reflexivity |].
        simpl. intros ->. auto. }
      split; [exact Hstore |].
      split; [rewrite Hcalls, <- app_assoc; reflexivity |].
      constructor; [| exact Hlog'].
      exists draws. subst appeal. repeat split; auto. left; reflexivity.
    + unfold ret in HcanRule. inversion HcanRule; subst canRule w2.
      eexists (_ :: newJurors), newCalls.
      split; [rewrite <- app_assoc; reflexivity |].
      split.
      { constructor; [| exact Hentries]. split; [reflexivity |].
        simpl. discriminate. }
      auto.
Qed.
End Reads.

(** ** The aggregated view *)

Section Aggregation.
Variable _Arbitrator : Arbitrator.t.
Variable _ArbitrableContract : ArbitrableContract.t.

Lemma getDataForDispute_Ok_inv arbitratorAddress disputeId account w v w' :
  getDataForDispute _Arbitrator _ArbitrableContract
    arbitratorAddress disputeId account w = (Ok v, w') ->
  exists dispute data storeData rulings,
    Arbitrator.getDispute _Arbitrator arbitratorAddress disputeId
    = Resolved (Some dispute)
    /\ ArbitrableContract.getData _ArbitrableContract
         (Dispute.arbitratedContract dispute) = Resolved data
    /\ fetchUserStoreData arbitratorAddress disputeId account w
       = (Ok storeData, w)
    /\ appealLoop _Arbitrator arbitratorAddress disputeId account dispute
         (Dispute.firstSession dispute + Dispute.numberOfAppeals dispute)
         storeData (seq 0 (S (Dispute.numberOfAppeals dispute))) [] [] w
       = (Ok (rulings, DisputeData.appealJuror v), w')
    /\ DisputeData.arbitratorAddress v = arbitratorAddress
    /\ DisputeData.disputeId v = disputeId
    /\ DisputeData.arbitrableContractAddress v
       = Dispute.arbitratedContract dispute
    /\ DisputeData.partyA v = ArbitrableData.partyA data
    /\ DisputeData.partyB v = ArbitrableData.partyB data
    /\ DisputeData.firstSession v = Dispute.firstSession dispute
    /\ DisputeData.numberOfAppeals v = Dispute.numberOfAppeals dispute
    /\ DisputeData.lastSession v
       = Dispute.firstSession dispute + Dispute.numberOfAppeals dispute
    /\ DisputeData.netPNK v = usd_netPNK storeData
    /\ DisputeData.appealCreatedAt v = usd_appealCreatedAt storeData
    /\ DisputeData.appealRuledAt v = usd_appealRuledAt storeData.
Proof.
  unfold getDataForDispute. intros Hrun.
  apply bind_Ok_inv in Hrun as (dispute & w1 & Hdispute & Hrun).
  apply await_Ok_inv in Hdispute as [Hdispute ->].
  destruct dispute as [dispute |]; [| discriminate].
  apply bind_Ok_inv in Hrun as (data & w1 & Hdata & Hrun).
  apply await_Ok_inv in Hdata as [Hdata ->].
  apply bind_Ok_inv in Hrun as (contractStoreData & w1 & Hcontract & Hrun).
  unfold readStore in Hcontract. inversion Hcontract; subst w1.
  apply bind_Ok_inv in Hrun as (storeData & w1 & Hfetch & Hrun).
  destruct (fetchUserStoreData_total arbitratorAddress disputeId account w)
    as [storeData0 Hfetch0].
  rewrite Hfetch0 in Hfetch. inversion Hfetch; subst storeData0 w1.
  apply bind_Ok_inv in Hrun as (evidence & w1 & Hevidence & Hrun).
  rewrite getEvidenceForArbitrableContract_run, Hdata in Hevidence.
  inversion Hevidence; subst w1.
  apply bind_Ok_inv in Hrun as ([rulings jurors] & w1 & Hloop & Hrun).
  unfold ret in Hrun. inversion Hrun; subst w1. simpl.
  replace (Dispute.firstSession dispute + Dispute.numberOfAppeals dispute
           - Dispute.firstSession dispute)
    with (Dispute.numberOfAppeals dispute) in Hloop by lia.
  exists dispute, data, storeData, rulings.
  repeat split; try reflexivity; assumption.
Qed.
End Aggregation.

Section AggregationClaims.
Variable _Arbitrator : Arbitrator.t.
Variable _ArbitrableContract : ArbitrableContract.t.

(** C8.  Every view returned by [getDataForDispute] has
    [lastSession = firstSession + numberOfAppeals], with
    [firstSession] and [numberOfAppeals] the values of the dispute
    record read from the ledger. *)
Theorem getDataForDispute_lastSession arbitratorAddress disputeId account
    w v w' :
  getDataForDispute _Arbitrator _ArbitrableContract
    arbitratorAddress disputeId account w = (Ok v, w') ->
  exists dispute,
    Arbitrator.getDispute _Arbitrator arbitratorAddress disputeId
    = Resolved (Some dispute)
    /\ DisputeData.firstSession v = Dispute.firstSession dispute
    /\ DisputeData.numberOfAppeals v = Dispute.numberOfAppeals dispute
    /\ DisputeData.lastSession v
       = DisputeData.firstSession v + DisputeData.numberOfAppeals v.
Proof.
  intros Hrun.
  apply getDataForDispute_Ok_inv in Hrun
    as (dispute & data & storeData & rulings & Hdispute & _ & _ & _ & _ & _
        & _ & _ & _ & Hfirst & Happeals & Hlast & _).
  exists dispute. rewrite Hfirst, Happeals, Hlast. auto.
Qed.

(** C5.  In every view returned by [getDataForDispute] there is one
    [appealJuror] entry per appeal index [0..numberOfAppeals]; every
    entry before the final one has [canRule = false]; the final entry
    has [canRule = false] when its draws are empty or when
    [canRuleDispute] answers false for them; and every consultation of
    [canRuleDispute] made on the way is for the final appeal's draws,
    which are then non-empty. *)
Theorem getDataForDispute_canRule arbitratorAddress disputeId account
    w v w' :
  getDataForDispute _Arbitrator _ArbitrableContract
    arbitratorAddress disputeId account w = (Ok v, w') ->
  length (DisputeData.appealJuror v) = S (DisputeData.numberOfAppeals v)
  /\ (forall k j,
         k < DisputeData.lastSession v - DisputeData.firstSession v ->
         DisputeData.appealJuror v !! k = Some j ->
         AppealJuror.canRule j = false)
  /\ (forall j,
         DisputeData.appealJuror v !! DisputeData.numberOfAppeals v = Some j ->
         (AppealJuror.draws j = [] -> AppealJuror.canRule j = false)
         /\ (Arbitrator.canRuleDispute _Arbitrator account disputeId
               (AppealJuror.draws j) = Resolved false ->
             AppealJuror.canRule j = false))
  /\ exists consulted,
       calls w' = calls w ++ consulted
       /\ Forall (fun c =>
                    exists j,
                      DisputeData.appealJuror v
                        !! DisputeData.numberOfAppeals v = Some j
                      /\ AppealJuror.draws j <> []
                      /\ c = CallCanRuleDispute account disputeId
                               (AppealJuror.draws j))
            consulted.
Proof.
  intros Hrun.
  apply getDataForDispute_Ok_inv in Hrun
    as (dispute & data & storeData & rulings & _ & _ & _ & Hloop & _ & _
        & _ & _ & _ & Hfirst & Happeals & Hlast & _).
  apply appealLoop_inv in Hloop
    as (jurors & consulted & Hjurors & Hentries & _ & Hcalls & Hlog).
  simpl in Hjurors. rewrite Hjurors, Hfirst, Happeals, Hlast.
  clear Hjurors Hfirst Happeals Hlast.
  set (n := Dispute.numberOfAppeals dispute) in *.
  set (first := Dispute.firstSession dispute) in *.
  assert (Hlen : length jurors = S n).
  { apply Forall2_length in Hentries. rewrite length_seq in Hentries.
    congruence. }
  assert (Hentry : forall k j, jurors !! k = Some j ->
            jurorEntryOk _Arbitrator account disputeId (first + n)
              storeData k j).
  { intros k j Hk.
    destruct (Forall2_lookup_r _ _ _ _ _ Hentries Hk) as (a & Ha & Hok).
    apply lookup_seq in Ha as [-> _]. exact Hok. }
  split; [exact Hlen |].
  split.
  { intros k j Hlt Hk. apply Hentry in Hk as [_ Hrule].
    destruct (AppealJuror.canRule j); [| reflexivity].
    destruct Hrule as [Heq _]; [reflexivity | lia]. }
  split.
  { intros j Hn. apply Hentry in Hn as [_ Hrule].
    split; intros Hhyp;
      (destruct (AppealJuror.canRule j); [| reflexivity]);
      destruct Hrule as (_ & Hne & Hanswer); try reflexivity;
      congruence. }
  exists consulted. split; [exact Hcalls |].
  eapply Forall_impl; [exact Hlog |].
  intros c (draws & -> & Hne & Hdraws & Hin).
  apply in_seq in Hin.
  assert (Hzero : first + n = n) by lia.
  destruct (lookup_lt_is_Some_2 jurors n) as [j Hj]; [lia |].
  exists j. split; [exact Hj |].
  apply Hentry in Hj as [Hjd _].
  rewrite Hzero in Hdraws. rewrite <- Hdraws in Hjd. rewrite Hjd.
  auto.
Qed.

(** C9.  [getEvidenceForArbitrableContract] returns party A's stored
    evidence followed by party B's, a party without a store record of
    the contract contributing nothing; each returned item carries the
    party address of the ledger's contract data as its submitter,
    whatever submitter was stored with it. *)
Theorem getEvidenceForArbitrableContract_attribution contract w data :
  ArbitrableContract.getData _ArbitrableContract contract = Resolved data ->
  exists evidenceA evidenceB,
    getEvidenceForArbitrableContract _ArbitrableContract contract w
    = (Ok (evidenceA ++ evidenceB), w)
    /\ Forall2 (attributedTo (ArbitrableData.partyA data))
         (storedEvidence (ArbitrableData.partyA data) contract (store w))
         evidenceA
    /\ Forall2 (attributedTo (ArbitrableData.partyB data))
         (storedEvidence (ArbitrableData.partyB data) contract (store w))
         evidenceB.
Proof.
  intros Hdata.
  rewrite getEvidenceForArbitrableContract_run, Hdata.
  eexists _, _. split; [reflexivity |].
  assert (Hmap : forall party (l : list Evidence.t),
             Forall2 (attributedTo party) l
               (map (Evidence.setSubmitter party) l)).
  { intros party l. induction l as [| e l IH]; simpl; constructor;
      [repeat split | exact IH]. }
  split; apply Hmap.
Qed.
End AggregationClaims.

Section AbsentRecord.
Variable _Arbitrator : Arbitrator.t.
Variable _ArbitrableContract : ArbitrableContract.t.

Lemma getDeadlineForDispute_answers arbitratorAddress appeal data time w :
  Arbitrator.getData _Arbitrator arbitratorAddress None = Resolved data ->
  Arbitrator.getTimeForPeriod _Arbitrator arbitratorAddress appeal
  = Resolved time ->
  getDeadlineForDispute _Arbitrator arbitratorAddress appeal w
  = (Ok (1000 * (ArbitratorData.lastPeriodChange data + time))%Z, w).
Proof.
  intros Hdata Htime. unfold getDeadlineForDispute, bind.
  rewrite Hdata, Htime. reflexivity.
Qed.

(** Without stored draws the appeal loop never consults the
    eligibility check, and it succeeds as soon as the ledger answers
    its ruling and deadline reads. *)
Lemma appealLoop_noDraws arbitratorAddress disputeId account dispute
    lastSession storeData data appeals :
  usd_appealDraws storeData = [] ->
  Arbitrator.getData _Arbitrator arbitratorAddress None = Resolved data ->
  (forall appeal, In appeal appeals ->
     (exists ruling,
         Arbitrator.currentRulingForDispute _Arbitrator
           arbitratorAddress disputeId appeal = Resolved ruling)
     /\ (exists time,
            Arbitrator.getTimeForPeriod _Arbitrator
              arbitratorAddress appeal = Resolved time)) ->
  forall rulings jurors w,
  exists rulings' jurors',
    appealLoop _Arbitrator arbitratorAddress disputeId account dispute
      lastSession storeData appeals rulings jurors w
    = (Ok (rulings', jurors'), w).
Proof.
  intros Hdraws Hdata. induction appeals as [| appeal rest IH];
    intros Hreads rulings jurors w.
  - eexists _, _. reflexivity.
  - destruct (Hreads appeal (or_introl eq_refl))
      as [[ruling Hruling] [time Htime]].
    simpl. rewrite Hruling. unfold await at 1.
    rewrite (bind_Ok _ _ _ _ _ (eq_refl : ret ruling w = (Ok ruling, w))).
    rewrite (bind_Ok _ _ _ _ _
               (getDeadlineForDispute_answers _ _ _ _ w Hdata Htime)).
    rewrite Hdraws, js_get_nil. simpl. rewrite andb_false_r.
    rewrite (bind_Ok _ _ _ _ _ (eq_refl : ret false w = (Ok false, w))).
    apply IH. intros a Ha. apply Hreads. right; exact Ha.
Qed.

(** C6.  [getDataForDispute] throws when the ledger has no such
    dispute.  A participant without a stored record of the dispute is
    not a failure: whenever the ledger answers the reads of the
    aggregation, a view is returned, and every view returned in that
    case has [netPNK = 0], empty [appealCreatedAt] and [appealRuledAt]
    arrays and no draws in any appeal. *)
Theorem getDataForDispute_absence arbitratorAddress disputeId account w :
  (Arbitrator.getDispute _Arbitrator arbitratorAddress disputeId
   = Resolved None ->
   exists message,
     getDataForDispute _Arbitrator _ArbitrableContract
       arbitratorAddress disputeId account w
     = (Throw (JsError message), w))
  /\ (forall e,
        StoreProvider.getDisputeData arbitratorAddress disputeId account
          (store w) = Rejected e ->
        (forall v w',
            getDataForDispute _Arbitrator _ArbitrableContract
              arbitratorAddress disputeId account w = (Ok v, w') ->
            DisputeData.netPNK v = 0%Z
            /\ DisputeData.appealCreatedAt v = []
            /\ DisputeData.appealRuledAt v = []
            /\ Forall (fun j => AppealJuror.draws j = []
                                /\ AppealJuror.canRule j = false)
                 (DisputeData.appealJuror v))
        /\ (forall dispute data,
               Arbitrator.getDispute _Arbitrator arbitratorAddress disputeId
               = Resolved (Some dispute) ->
               ArbitrableContract.getData _ArbitrableContract
                 (Dispute.arbitratedContract dispute) = Resolved data ->
               appealReadsAnswer _Arbitrator arbitratorAddress disputeId
                 dispute ->
               exists v,
                 getDataForDispute _Arbitrator _ArbitrableContract
                   arbitratorAddress disputeId account w = (Ok v, w))).
Proof.
  split.
  { intros Hnull. unfold getDataForDispute, bind. rewrite Hnull. simpl.
    eexists. reflexivity. }
  intros e Habsent.
  pose proof (fetchUserStoreData_absent _ _ _ _ _ Habsent) as Hfetch.
  split.
  - intros v w' Hrun.
    apply getDataForDispute_Ok_inv in Hrun
      as (dispute & data & storeData & rulings & _ & _ & Hfetch' & Hloop
          & _ & _ & _ & _ & _ & _ & _ & _ & Hnet & Hcreated & Hruled).
    rewrite Hfetch in Hfetch'. inversion Hfetch'; subst storeData.
    rewrite Hnet, Hcreated, Hruled. repeat split; try reflexivity.
    apply appealLoop_inv in Hloop
      as (jurors & consulted & Hjurors & Hentries & _).
    simpl in Hjurors. rewrite Hjurors.
    clear Hjurors. induction Hentries as [| appeal j appeals jurors Hj _ IH];
      constructor; [| exact IH].
    destruct Hj as [Hdraws Hrule]. simpl in Hdraws.
    split; [exact Hdraws |].
    destruct (AppealJuror.canRule j); [| reflexivity].
    destruct Hrule as (_ & Hne & _); [reflexivity | contradiction].
  - intros dispute data Hdispute Hdata [[arbitratorData Harb] Hreads].
    unfold getDataForDispute.
    rewrite Hdispute. unfold await at 1.
    rewrite (bind_Ok _ _ _ _ _
               (eq_refl : ret (Some dispute) w = (Ok (Some dispute), w))).
    rewrite Hdata. unfold await at 1.
    rewrite (bind_Ok _ _ _ _ _ (eq_refl : ret data w = (Ok data, w))).
    unfold readStore at 1.
    erewrite bind_Ok by reflexivity.
    rewrite (bind_Ok _ _ _ _ _ Hfetch).
    erewrite bind_Ok
      by (rewrite getEvidenceForArbitrableContract_run, Hdata; reflexivity).
    destruct (appealLoop_noDraws arbitratorAddress disputeId account dispute
                (Dispute.firstSession dispute
                 + Dispute.numberOfAppeals dispute)
                noStoreData arbitratorData
                (seq 0 (S (Dispute.firstSession dispute
                           + Dispute.numberOfAppeals dispute
                           - Dispute.firstSession dispute)))
                eq_refl Harb) with (rulings := @nil AppealRuling.t)
                (jurors := @nil AppealJuror.t) (w := w)
      as (rulings' & jurors' & Hloop).
    { intros appeal Hin. apply in_seq in Hin. apply Hreads. lia. }
    rewrite (bind_Ok _ _ _ _ _ Hloop).
    eexists. reflexivity.
Qed.
End AbsentRecord.

(** ** The aggregation claims on the sample ledger *)

Lemma getDataForDispute_lastSession_witness :
  getDataForDispute Fixture.ledger Fixture.arbitrable
    Fixture.arbitrator 2 Fixture.juror Fixture.trackedWorld
  = (Ok Fixture.view2, Fixture.trackedWorldConsulted)
  /\ exists dispute,
       Arbitrator.getDispute Fixture.ledger Fixture.arbitrator 2
       = Resolved (Some dispute)
       /\ DisputeData.firstSession Fixture.view2 = Dispute.firstSession dispute
       /\ DisputeData.numberOfAppeals Fixture.view2
          = Dispute.numberOfAppeals dispute
       /\ DisputeData.lastSession Fixture.view2
          = DisputeData.firstSession Fixture.view2
            + DisputeData.numberOfAppeals Fixture.view2.
Proof.
  assert (Hrun : getDataForDispute Fixture.ledger Fixture.arbitrable
                   Fixture.arbitrator 2 Fixture.juror Fixture.trackedWorld
                 = (Ok Fixture.view2, Fixture.trackedWorldConsulted))
    by (vm_compute; reflexivity).
  split; [exact Hrun |].
  exact (getDataForDispute_lastSession _ _ _ _ _ _ _ _ Hrun).
Defined.

Lemma getDataForDispute_canRule_witness :
  getDataForDispute Fixture.ledger Fixture.arbitrable
    Fixture.arbitrator 2 Fixture.juror Fixture.trackedWorld
  = (Ok Fixture.view2, Fixture.trackedWorldConsulted)
  /\ length (DisputeData.appealJuror Fixture.view2) = 2
  /\ (forall k j,
         k < 1 - 0 ->
         DisputeData.appealJuror Fixture.view2 !! k = Some j ->
         AppealJuror.canRule j = false)
  /\ exists consulted,
       calls Fixture.trackedWorldConsulted
       = calls Fixture.trackedWorld ++ consulted
       /\ Forall (fun c =>
                    exists j,
                      DisputeData.appealJuror Fixture.view2 !! 1 = Some j
                      /\ AppealJuror.draws j <> []
                      /\ c = CallCanRuleDispute Fixture.juror 2
                               (AppealJuror.draws j))
            consulted.
Proof.
  assert (Hrun : getDataForDispute Fixture.ledger Fixture.arbitrable
                   Fixture.arbitrator 2 Fixture.juror Fixture.trackedWorld
                 = (Ok Fixture.view2, Fixture.trackedWorldConsulted))
    by (vm_compute; reflexivity).
  split; [exact Hrun |].
  destruct (getDataForDispute_canRule _ _ _ _ _ _ _ _ Hrun)
    as (Hlen & Hearlier & _ & Hconsulted).
  split; [exact Hlen |].
  split; [exact Hearlier | exact Hconsulted].
Defined.

Lemma getEvidenceForArbitrableContract_attribution_witness :
  ArbitrableContract.getData Fixture.arbitrable Fixture.contract
  = Resolved {| ArbitrableData.partyA := Fixture.alice;
                ArbitrableData.partyB := Fixture.bob;
                ArbitrableData.status := 4 |}
  /\ exists evidenceA evidenceB,
       getEvidenceForArbitrableContract Fixture.arbitrable Fixture.contract
         Fixture.trackedWorld
       = (Ok (evidenceA ++ evidenceB), Fixture.trackedWorld)
       /\ Forall2 (attributedTo Fixture.alice)
            (storedEvidence Fixture.alice Fixture.contract
               Fixture.trackedStore) evidenceA
       /\ Forall2 (attributedTo Fixture.bob)
            (storedEvidence Fixture.bob Fixture.contract
               Fixture.trackedStore) evidenceB.
Proof.
  split; [reflexivity |].
  exact (getEvidenceForArbitrableContract_attribution Fixture.arbitrable
           Fixture.contract Fixture.trackedWorld _ eq_refl).
Defined.

Lemma getDataForDispute_absence_witness :
  (Arbitrator.getDispute Fixture.ledger Fixture.arbitrator 4 = Resolved None
   /\ exists message,
        getDataForDispute Fixture.ledger Fixture.arbitrable
          Fixture.arbitrator 4 Fixture.juror Fixture.emptyWorld
        = (Throw (JsError message), Fixture.emptyWorld))
  /\ StoreProvider.getDisputeData Fixture.arbitrator 0 Fixture.juror
       Fixture.emptyStore
     = Rejected (JsError "dispute not found in store")
  /\ exists v,
       getDataForDispute Fixture.ledger Fixture.arbitrable
         Fixture.arbitrator 0 Fixture.juror Fixture.emptyWorld
       = (Ok v, Fixture.emptyWorld)
       /\ DisputeData.netPNK v = 0%Z
       /\ DisputeData.appealCreatedAt v = []
       /\ DisputeData.appealRuledAt v = []
       /\ Forall (fun j => AppealJuror.draws j = []
                           /\ AppealJuror.canRule j = false)
            (DisputeData.appealJuror v).
Proof.
  split.
  { split; [reflexivity |].
    exact (proj1 (getDataForDispute_absence Fixture.ledger Fixture.arbitrable
                    Fixture.arbitrator 4 Fixture.juror Fixture.emptyWorld)
             eq_refl). }
  split; [reflexivity |].
  destruct (proj2 (getDataForDispute_absence Fixture.ledger Fixture.arbitrable
                     Fixture.arbitrator 0 Fixture.juror Fixture.emptyWorld)
              (JsError "dispute not found in store") eq_refl)
    as [Hdefaults Hreturns].
  destruct (Hreturns (Fixture.disputeAt 1 0)
              {| ArbitrableData.partyA := Fixture.alice;
                 ArbitrableData.partyB := Fixture.bob;
                 ArbitrableData.status := 4 |} eq_refl eq_refl)
    as [v Hrun].
  { split; [eexists; reflexivity |].
    intros appeal _. split; eexists; reflexivity. }
  exists v. split; [exact Hrun |].
  exact (Hdefaults v _ Hrun).
Defined.

(** ** The juror scan *)

Section JurorScan.
Variable _Arbitrator : Arbitrator.t.
Variable NULL_ADDRESS : address.
Variable arbitratorAddress account : address.

Lemma drawsLoop_answers disputeId slots :
  forallb (fun draw =>
             match Arbitrator.isJurorDrawnForDispute _Arbitrator
                     disputeId draw arbitratorAddress account with
             | Resolved _ => true
             | Rejected _ => false
             end) slots = true ->
  forall draws w,
    drawsLoop _Arbitrator arbitratorAddress disputeId account slots draws w
    = (Ok (draws ++ List.filter
                      (drawnAt _Arbitrator arbitratorAddress account
                         disputeId) slots), w).
Proof.
  induction slots as [| draw rest IH]; simpl; intros Hall draws w.
  - rewrite app_nil_r. reflexivity.
  - apply andb_true_iff in Hall as [Hdraw Hrest].
    unfold drawnAt at 1.
    destruct (Arbitrator.isJurorDrawnForDispute _ _ _ _ _)
      as [isJuror | e]; [| discriminate].
    unfold bind, await, ret. rewrite (IH Hrest).
    destruct isJuror; [rewrite <- app_assoc |]; reflexivity.
Qed.

Lemma drawsLoop_fails disputeId slots :
  forallb (fun draw =>
             match Arbitrator.isJurorDrawnForDispute _Arbitrator
                     disputeId draw arbitratorAddress account with
             | Resolved _ => true
             | Rejected _ => false
             end) slots = false ->
  forall draws w,
  exists e,
    drawsLoop _Arbitrator arbitratorAddress disputeId account slots draws w
    = (Throw e, w).
Proof.
  induction slots as [| draw rest IH]; simpl; intros Hall draws w;
    [discriminate |].
  destruct (Arbitrator.isJurorDrawnForDispute _ _ _ _ _)
    as [isJuror | e]; unfold bind, await, ret, throw.
  - simpl in Hall. apply (IH Hall).
  - exists e. reflexivity.
Qed.

Lemma getDrawsForJuror_answers disputeId w :
  drawReadsAnswer _Arbitrator arbitratorAddress account disputeId = true ->
  exists draws,
    getDrawsForJuror _Arbitrator arbitratorAddress disputeId account w
    = (Ok draws, w)
    /\ (0 <? length draws)
       = drawnInSomeSlot _Arbitrator arbitratorAddress account disputeId.
Proof.
  unfold drawReadsAnswer, drawnInSomeSlot, getDrawsForJuror, bind.
  destruct (Arbitrator.getAmountOfJurorsForDispute _ _ _)
    as [numberOfJurors | e]; [| discriminate].
  intros Hall. simpl. rewrite (drawsLoop_answers _ _ Hall). simpl.
  eexists. split; [reflexivity |].
  generalize (seq 1 numberOfJurors). intros slots.
  induction slots as [| draw rest IH]; simpl; [reflexivity |].
  destruct (drawnAt _ _ _ _ draw); simpl; [reflexivity | exact IH].
Qed.

Lemma getDrawsForJuror_fails disputeId w :
  drawReadsAnswer _Arbitrator arbitratorAddress account disputeId = false ->
  exists e,
    getDrawsForJuror _Arbitrator arbitratorAddress disputeId account w
    = (Throw e, w).
Proof.
  unfold drawReadsAnswer, getDrawsForJuror, bind.
  destruct (Arbitrator.getAmountOfJurorsForDispute _ _ _)
    as [numberOfJurors | e]; simpl.
  - intros Hall.
    destruct (drawsLoop_fails _ _ Hall [] w) as [e He].
    rewrite He. exists e. reflexivity.
  - intros _. exists e. reflexivity.
Qed.
End JurorScan.

Section JurorScanTurns.
Variable _Arbitrator : Arbitrator.t.
Variable NULL_ADDRESS : address.
Variable arbitratorAddress account : address.
Variable session : nat.

Lemma jurorScanTurn_end disputeId myDisputes w :
  endOfSpace _Arbitrator NULL_ADDRESS arbitratorAddress account session
    disputeId = true ->
  jurorScanTurn _Arbitrator NULL_ADDRESS arbitratorAddress account session
    disputeId myDisputes w = (Ok Break, w).
Proof.
  unfold endOfSpace, jurorScanTurn, tryCatch, bind.
  destruct (Arbitrator.getDispute _Arbitrator arbitratorAddress disputeId)
    as [[dispute |] | e]; simpl; try reflexivity.
  destruct (bool_decide (Dispute.arbitratedContract dispute = NULL_ADDRESS));
    simpl; [reflexivity |].
  destruct (bool_decide (_ + _ = session)); simpl; [| discriminate].
  intros Hfail. apply negb_true_iff in Hfail.
  destruct (getDrawsForJuror_fails _Arbitrator arbitratorAddress account
              disputeId w Hfail) as [e He].
  rewrite He. reflexivity.
Qed.

(** A turn below the end of the space goes on to the next id, adding
    the current one when it is relevant, unless the look-ahead read of
    the skip branch already fails: the next id is then the end of the
    space, and the current one is not relevant. *)
Lemma jurorScanTurn_below disputeId myDisputes w :
  endOfSpace _Arbitrator NULL_ADDRESS arbitratorAddress account session
    disputeId = false ->
  jurorScanTurn _Arbitrator NULL_ADDRESS arbitratorAddress account session
    disputeId myDisputes w
  = (Ok (Next (S disputeId,
               myDisputes
               ++ (if relevant _Arbitrator arbitratorAddress account
                        session disputeId
                   then [disputeId] else []))), w)
  \/ (jurorScanTurn _Arbitrator NULL_ADDRESS arbitratorAddress account
        session disputeId myDisputes w = (Ok Break, w)
      /\ relevant _Arbitrator arbitratorAddress account session disputeId
         = false
      /\ endOfSpace _Arbitrator NULL_ADDRESS arbitratorAddress account
           session (S disputeId) = true).
Proof.
  unfold endOfSpace at 1, relevant, inSession, jurorScanTurn, tryCatch, bind.
  destruct (Arbitrator.getDispute _Arbitrator arbitratorAddress disputeId)
    as [[dispute |] | e]; simpl; try discriminate.
  destruct (bool_decide (Dispute.arbitratedContract dispute = NULL_ADDRESS));
    simpl; [discriminate |].
  destruct (bool_decide (_ + _ = session)); simpl.
  - intros Hok. apply negb_false_iff in Hok.
    destruct (getDrawsForJuror_answers _Arbitrator arbitratorAddress account
                disputeId w Hok) as (draws & Hdraws & Hsome).
    rewrite Hdraws, Hsome. left. rewrite Nat.add_1_r.
    destruct (drawnInSomeSlot _ _ _ _); [| rewrite app_nil_r]; reflexivity.
  - intros _. unfold endOfSpace.
    destruct (Arbitrator.getDispute _Arbitrator arbitratorAddress
                (S disputeId)) as [next | e]; simpl.
    + left. rewrite app_nil_r. reflexivity.
    + right. auto.
Qed.

Lemma jurorScan_run n w :
  endOfSpace _Arbitrator NULL_ADDRESS arbitratorAddress account session n
  = true ->
  (forall d, d < n ->
     endOfSpace _Arbitrator NULL_ADDRESS arbitratorAddress account session d
     = false) ->
  forall fuel disputeId myDisputes,
    disputeId <= n -> n - disputeId < fuel ->
    jurorScan _Arbitrator NULL_ADDRESS fuel arbitratorAddress account
      session disputeId myDisputes w
    = (Ok (myDisputes
           ++ List.filter
                (relevant _Arbitrator arbitratorAddress account session)
                (seq disputeId (n - disputeId))), w).
Proof.
  intros Hend Hbelow. induction fuel as [| fuel IH];
    intros disputeId myDisputes Hle Hfuel; [lia |].
  simpl. destruct (decide (disputeId = n)) as [-> | Hne].
  - rewrite (bind_Ok _ _ _ _ _ (jurorScanTurn_end n myDisputes w Hend)).
    rewrite Nat.sub_diag. simpl. rewrite app_nil_r. reflexivity.
  - assert (Hlt : disputeId < n) by lia.
    replace (n - disputeId) with (S (n - S disputeId)) by lia.
    simpl.
    destruct (jurorScanTurn_below disputeId myDisputes w
                (Hbelow disputeId Hlt))
      as [Hnext | (Hbreak & Hirrelevant & Hnextend)].
    + rewrite (bind_Ok _ _ _ _ _ Hnext).
      rewrite IH by lia.
      destruct (relevant _ _ _ _ disputeId);
        [rewrite <- app_assoc | rewrite app_nil_r]; reflexivity.
    + rewrite (bind_Ok _ _ _ _ _ Hbreak). rewrite Hirrelevant.
      assert (S disputeId = n) as <-.
      { destruct (decide (S disputeId = n)) as [Heq | Hneq];
          [exact Heq |].
        rewrite Hbelow in Hnextend by lia. discriminate. }
      rewrite Nat.sub_diag. simpl. rewrite app_nil_r. reflexivity.
Qed.
End JurorScanTurns.

(** C2, as the code has it.  The scan ends at the first id [n] at which
    it meets the null arbitrated-contract address or any failure inside
    its loop: a dispute read that fails or answers no dispute, or, for
    a dispute of the current session, a draw read that fails.  On a
    ledger with such an id, [getDisputesForJuror] terminates whenever
    it is given more than [n] turns, and returns exactly the ids below
    [n] whose [firstSession + numberOfAppeals] is the arbitrator's
    current session and in which at least one draw slot of
    [1..numberOfJurors] is drawn for the participant. *)
Theorem getDisputesForJuror_exact (_Arbitrator : Arbitrator.t)
    (NULL_ADDRESS arbitratorAddress account : address)
    (data : ArbitratorData.t) (n fuel : nat) (w : World) :
  Arbitrator.getData _Arbitrator arbitratorAddress (Some account)
  = Resolved data ->
  endOfSpace _Arbitrator NULL_ADDRESS arbitratorAddress account
    (ArbitratorData.session data) n = true ->
  (forall d, d < n ->
     endOfSpace _Arbitrator NULL_ADDRESS arbitratorAddress account
       (ArbitratorData.session data) d = false) ->
  n < fuel ->
  exists myDisputes,
    getDisputesForJuror _Arbitrator NULL_ADDRESS fuel arbitratorAddress
      account w = (Ok myDisputes, w)
    /\ myDisputes
       = List.filter
           (fun d =>
              inSession _Arbitrator arbitratorAddress
                (ArbitratorData.session data) d
              && drawnInSomeSlot _Arbitrator arbitratorAddress account d)
           (seq 0 n)
    /\ forall d,
         In d myDisputes <->
         d < n
         /\ inSession _Arbitrator arbitratorAddress
              (ArbitratorData.session data) d = true
         /\ drawnInSomeSlot _Arbitrator arbitratorAddress account d = true.
Proof.
  intros Hdata Hend Hbelow Hfuel.
  eexists. split; [| split; [reflexivity |]].
  - unfold getDisputesForJuror.
    rewrite Hdata. unfold await.
    rewrite (bind_Ok _ _ _ _ _ (eq_refl : ret data w = (Ok data, w))).
    rewrite (jurorScan_run _ _ _ _ _ n w Hend Hbelow) by lia.
    rewrite Nat.sub_0_r. reflexivity.
  - intros d. rewrite filter_In, in_seq, andb_true_iff. split.
    + intros [[_ Hlt] Hrel]. split; [lia | exact Hrel].
    + intros [Hlt Hrel]. split; [lia | exact Hrel].
Qed.

Lemma getDisputesForJuror_exact_witness :
  Arbitrator.getData Fixture.ledger Fixture.arbitrator (Some Fixture.juror)
  = Resolved {| ArbitratorData.period := 3;
                ArbitratorData.session := 1;
                ArbitratorData.lastPeriodChange := 100%Z |}
  /\ endOfSpace Fixture.ledger Fixture.NULL_ADDRESS Fixture.arbitrator
       Fixture.juror 1 3 = true
  /\ (forall d, d < 3 ->
        endOfSpace Fixture.ledger Fixture.NULL_ADDRESS Fixture.arbitrator
          Fixture.juror 1 d = false)
  /\ exists myDisputes,
       getDisputesForJuror Fixture.ledger Fixture.NULL_ADDRESS 4
         Fixture.arbitrator Fixture.juror Fixture.trackedWorld
       = (Ok myDisputes, Fixture.trackedWorld)
       /\ myDisputes = [0].
Proof.
  assert (Hbelow : forall d, d < 3 ->
            endOfSpace Fixture.ledger Fixture.NULL_ADDRESS Fixture.arbitrator
              Fixture.juror 1 d = false).
  { intros d Hd. destruct d as [| [| [| d]]]; try reflexivity. lia. }
  split; [reflexivity |]. split; [reflexivity |]. split; [exact Hbelow |].
  destruct (getDisputesForJuror_exact Fixture.ledger Fixture.NULL_ADDRESS
              Fixture.arbitrator Fixture.juror _ 3 4 Fixture.trackedWorld
              eq_refl eq_refl Hbelow) as (myDisputes & Hrun & Hlist & _).
  { lia. }
  exists myDisputes. split; [exact Hrun |].
  rewrite Hlist. reflexivity.
Defined.

(** ** The new-period handler *)

(** A failed dispute read in the ruling scan is rethrown as an [Error]
    whose message is ['DisputeOutOfRange']; the outer handler compares
    the caught object with the string and throws it again. *)
Lemma rulingScanTurn_getDispute_fails (_Arbitrator : Arbitrator.t)
    (_ArbitrableContract : ArbitrableContract.t) (NULL_ADDRESS : address)
    (TYPE_APPEAL_POSSIBLE : nat) event contractAddress address
    notificationCallback userProfile currentSession disputeId e w :
  Arbitrator.getDispute _Arbitrator contractAddress disputeId = Rejected e ->
  rulingScanTurn _Arbitrator _ArbitrableContract NULL_ADDRESS
    TYPE_APPEAL_POSSIBLE event contractAddress address notificationCallback
    userProfile currentSession disputeId w
  = (Throw (JsError "DisputeOutOfRange"), w).
Proof.
  intros Hfail. unfold rulingScanTurn, tryCatch, bind. rewrite Hfail.
  reflexivity.
Qed.

(** C4, on a ledger whose dispute getter fails past the last dispute:
    the new-period handler does not end its scan there, it throws.  The
    juror scan over the same ledger ends silently. *)
Theorem disputeRulingHandler_rethrows :
  _disputeRulingHandler Fixture.boundedLedger Fixture.arbitrable
    Fixture.NULL_ADDRESS Fixture.PERIOD_APPEAL Fixture.TYPE_APPEAL_POSSIBLE
    10 Fixture.appealPeriodEvent Fixture.arbitrator Fixture.juror true
    Fixture.trackedWorld
  = (Throw (JsError "DisputeOutOfRange"), Fixture.trackedWorld)
  /\ getDisputesForJuror Fixture.boundedLedger Fixture.NULL_ADDRESS 10
       Fixture.arbitrator Fixture.juror Fixture.trackedWorld
     = (Ok [], Fixture.trackedWorld).
Proof. split; vm_compute; reflexivity. Qed.

(** ** The token-shift handler *)

Lemma findIndex_None {A} (l : list A) (p : A -> bool) :
  findIndex l p = None <-> Forall (fun x => p x = false) l.
Proof.
  induction l as [| x l IH]; simpl.
  - split; [constructor | reflexivity].
  - destruct (p x) eqn:Hx.
    + split; [discriminate |]. intros H. inversion H; congruence.
    + destruct (findIndex l p) as [i |].
      * split; [discriminate |]. intros H. inversion H; subst.
        apply IH in H3. discriminate.
      * split; [| reflexivity]. intros _. constructor; [exact Hx |].
        apply IH. reflexivity.
Qed.

Lemma findIndex_Some {A} (l : list A) (p : A -> bool) i :
  findIndex l p = Some i -> exists x, l !! i = Some x /\ p x = true.
Proof.
  revert i. induction l as [| x l IH]; simpl; intros i; [discriminate |].
  destruct (p x) eqn:Hx.
  - intros [= <-]. exists x. auto.
  - destruct (findIndex l p) as [j |]; [| discriminate].
    intros [= <-]. exact (IH j eq_refl).
Qed.

Lemma sameDispute_true disputeId contractAddress d :
  sameDispute disputeId contractAddress d = true <->
  ProfileDispute.disputeId d = disputeId
  /\ ProfileDispute.arbitratorAddress d = contractAddress.
Proof.
  unfold sameDispute. rewrite andb_true_iff, !bool_decide_eq_true.
  reflexivity.
Qed.

(** The entry written by [updateDisputeProfile] is the one read back
    for its dispute; the entries of other disputes stay. *)
Lemma entryFor_upsert_eq entry l :
  StoreProvider.entryFor (ProfileDispute.arbitratorAddress entry)
    (ProfileDispute.disputeId entry) (StoreProvider.upsert entry l)
  = Some entry.
Proof.
  unfold StoreProvider.entryFor.
  assert (Hself : sameDispute (ProfileDispute.disputeId entry)
                    (ProfileDispute.arbitratorAddress entry) entry = true)
    by (apply sameDispute_true; auto).
  induction l as [| d l IH]; simpl.
  - rewrite Hself. reflexivity.
  - destruct (sameDispute _ _ d) eqn:Hd; simpl.
    + rewrite Hself. reflexivity.
    + rewrite Hd.
      destruct (findIndex (StoreProvider.upsert entry l) _) as [i |];
        [exact IH | discriminate].
Qed.

Lemma entryFor_upsert_same arbitratorAddress disputeId entry l :
  ProfileDispute.disputeId entry = disputeId ->
  ProfileDispute.arbitratorAddress entry = arbitratorAddress ->
  StoreProvider.entryFor arbitratorAddress disputeId
    (StoreProvider.upsert entry l)
  = Some entry.
Proof. intros <- <-. apply entryFor_upsert_eq. Qed.

Lemma entryFor_upsert_ne arbitratorAddress disputeId entry l :
  (ProfileDispute.disputeId entry, ProfileDispute.arbitratorAddress entry)
  <> (disputeId, arbitratorAddress) ->
  StoreProvider.entryFor arbitratorAddress disputeId
    (StoreProvider.upsert entry l)
  = StoreProvider.entryFor arbitratorAddress disputeId l.
Proof.
  intros Hne. unfold StoreProvider.entryFor.
  assert (Hentry : sameDispute disputeId arbitratorAddress entry = false).
  { apply not_true_is_false. rewrite sameDispute_true.
    intros [H1 H2]. apply Hne. congruence. }
  induction l as [| d l IH]; simpl.
  - rewrite Hentry. reflexivity.
  - destruct (sameDispute (ProfileDispute.disputeId entry) _ d) eqn:Hd; simpl.
    + apply sameDispute_true in Hd as [Hd1 Hd2].
      assert (Hother : sameDispute disputeId arbitratorAddress d = false).
      { apply not_true_is_false. rewrite sameDispute_true.
        intros [H1 H2]. apply Hne. congruence. }
      rewrite Hentry, Hother.
      destruct (findIndex l _); reflexivity.
    + destruct (sameDispute disputeId arbitratorAddress d); [reflexivity |].
      destruct (findIndex (StoreProvider.upsert entry l) _) as [i |],
               (findIndex l _) as [j |]; simpl in *;
        try exact IH; try discriminate; reflexivity.
Qed.

(** C7.  A token shift that targets the listening participant for a
    dispute that the participant's profile does not list is ignored:
    the handler returns normally and the world (the store and the log
    of store writes) is as before, also when the event is delivered a
    second time. *)
Theorem tokenShiftHandler_untracked (event : TokenShiftEvent.t)
    (contractAddress listener : address) (w : World)
    (profile : UserProfile.t) :
  TokenShiftEvent._account event = listener ->
  StoreProvider.getUserProfile listener (store w) = Some profile ->
  Forall (fun d =>
            ~ (ProfileDispute.disputeId d = TokenShiftEvent._disputeID event
               /\ ProfileDispute.arbitratorAddress d = contractAddress))
    (UserProfile.disputes profile) ->
  _tokenShiftHandler event contractAddress listener w = (Ok tt, w)
  /\ (let* _ := _tokenShiftHandler event contractAddress listener in
      _tokenShiftHandler event contractAddress listener) w = (Ok tt, w).
Proof.
  intros Haccount Hprofile Hforall.
  assert (Hrun : _tokenShiftHandler event contractAddress listener w
                 = (Ok tt, w)).
  { unfold _tokenShiftHandler.
    rewrite bool_decide_eq_true_2 by exact Haccount.
    unfold bind at 1, bind at 1, readStore. rewrite Hprofile. simpl.
    assert (Hnone : findIndex (UserProfile.disputes profile)
                      (sameDispute (TokenShiftEvent._disputeID event)
                         contractAddress) = None).
    { apply findIndex_None. eapply Forall_impl; [exact Hforall |].
      intros d Hd. apply not_true_is_false. rewrite sameDispute_true.
      exact Hd. }
    rewrite Hnone. reflexivity. }
  split; [exact Hrun |].
  rewrite (bind_Ok _ _ _ _ _ Hrun). exact Hrun.
Qed.

Lemma tokenShiftHandler_untracked_witness :
  StoreProvider.getUserProfile Fixture.juror Fixture.trackedStore
  = Some {| UserProfile.session := Some 1;
            UserProfile.disputes :=
              [Fixture.entryOf 0 (Some [Some [2]]) (Some 5%Z);
               Fixture.entryOf 2 (Some [None; Some [1; 3]]) None] |}
  /\ _tokenShiftHandler (Fixture.shift 12 Fixture.juror 50)
       Fixture.arbitrator Fixture.juror Fixture.trackedWorld
     = (Ok tt, Fixture.trackedWorld)
  /\ (let* _ := _tokenShiftHandler (Fixture.shift 12 Fixture.juror 50)
                  Fixture.arbitrator Fixture.juror in
      _tokenShiftHandler (Fixture.shift 12 Fixture.juror 50)
        Fixture.arbitrator Fixture.juror) Fixture.trackedWorld
     = (Ok tt, Fixture.trackedWorld).
Proof.
  split; [vm_compute; reflexivity |].
  apply (tokenShiftHandler_untracked (Fixture.shift 12 Fixture.juror 50)
           Fixture.arbitrator Fixture.juror Fixture.trackedWorld
           {| UserProfile.session := Some 1;
              UserProfile.disputes :=
                [Fixture.entryOf 0 (Some [Some [2]]) (Some 5%Z);
                 Fixture.entryOf 2 (Some [None; Some [1; 3]]) None] |}).
  - reflexivity.
  - vm_compute; reflexivity.
  - repeat constructor; simpl; intros [Hid _]; discriminate.
Defined.

(** An integer of magnitude at most [2^53] is a double: rounding
    leaves it as it is. *)
Lemma roundToDouble_exact z :
  (Z.abs z <= 2 ^ 53)%Z -> roundToDouble z = z.
Proof.
  intros Hbound.
  destruct (Z.eq_dec (Z.abs z) (2 ^ 53)) as [Hmax | Hless].
  { destruct z as [| p | p]; simpl in Hmax; [discriminate | |];
      injection Hmax as ->; vm_compute; reflexivity. }
  assert (Hshift : Z.max 0 (Z.log2 (Z.abs z) - 52) = 0%Z).
  { destruct (Z.eq_dec (Z.abs z) 0) as [-> | Hpos]; [reflexivity |].
    assert (Z.log2 (Z.abs z) < 53)%Z by (apply Z.log2_lt_pow2; lia).
    lia. }
  unfold roundToDouble. rewrite Hshift. simpl (2 ^ 0)%Z.
  rewrite Z.div_1_r, Z.mod_1_r. simpl. rewrite Z.mul_1_r.
  destruct z; reflexivity.
Qed.

Lemma jsAdd_exact x amount :
  (Z.abs x + Z.abs amount <= 2 ^ 53)%Z ->
  jsAdd x (toNumber amount) = (x + amount)%Z.
Proof.
  intros Hbound. unfold jsAdd, toNumber.
  rewrite (roundToDouble_exact amount) by lia.
  apply roundToDouble_exact. lia.
Qed.

Lemma orZero_Some z : orZero (Some z) = z.
Proof.
  unfold orZero. destruct (Z.eqb_spec z 0) as [-> | _]; reflexivity.
Qed.

(** One delivery: the handler returns, and the stored [netPNK] of each
    tracked dispute becomes the sum, as a double, of what it was and of
    the amount when the event targets the listener and that dispute,
    and stays otherwise. *)
Lemma tokenShiftHandler_step (event : TokenShiftEvent.t)
    (contractAddress listener : address) (w : World)
    (profile : UserProfile.t) :
  StoreProvider.profiles (store w) !! listener = Some profile ->
  exists w',
    _tokenShiftHandler event contractAddress listener w = (Ok tt, w')
    /\ is_Some (StoreProvider.profiles (store w') !! listener)
    /\ forall disputeId,
         is_Some (StoreProvider.profileEntry contractAddress disputeId
                    listener (store w)) ->
         is_Some (StoreProvider.profileEntry contractAddress disputeId
                    listener (store w'))
         /\ storedNetPNK contractAddress disputeId listener (store w')
            = if bool_decide (TokenShiftEvent._account event = listener)
                 && bool_decide (TokenShiftEvent._disputeID event = disputeId)
              then jsAdd (storedNetPNK contractAddress disputeId listener
                            (store w))
                     (toNumber (TokenShiftEvent._amount event))
              else storedNetPNK contractAddress disputeId listener (store w).
Proof.
  intros Hprofile. unfold _tokenShiftHandler.
  destruct (bool_decide (TokenShiftEvent._account event = listener)) eqn:Hacc.
  2:{ exists w. split; [reflexivity |]. split; [eauto |].
      intros disputeId Htracked. split; [exact Htracked | reflexivity]. }
  unfold bind at 1, bind at 1, readStore, StoreProvider.getUserProfile.
  rewrite Hprofile. simpl.
  destruct (findIndex (UserProfile.disputes profile)
              (sameDispute (TokenShiftEvent._disputeID event) contractAddress))
    as [i |] eqn:Hfind.
  2:{ exists w. split; [reflexivity |]. split; [eauto |].
      intros disputeId Htracked. split; [exact Htracked |].
      destruct (bool_decide (TokenShiftEvent._disputeID event = disputeId))
        eqn:Hid; [| reflexivity].
      apply bool_decide_eq_true_1 in Hid. subst disputeId.
      unfold StoreProvider.profileEntry, StoreProvider.entryFor in Htracked.
      rewrite Hprofile, Hfind in Htracked.
      destruct Htracked as [? ?]; discriminate. }
  destruct (findIndex_Some _ _ _ Hfind) as (d & Hd & Hsame).
  apply sameDispute_true in Hsame as [Hid Harb].
  rewrite Hd. unfold bind, requireObject, ret, writeStore. simpl.
  eexists. split; [reflexivity |].
  unfold StoreProvider.updateDisputeProfile. simpl. rewrite Hprofile.
  split; [rewrite lookup_insert_eq; eauto |].
  intros disputeId Htracked.
  unfold storedNetPNK, StoreProvider.profileEntry in *. simpl.
  rewrite lookup_insert_eq. rewrite Hprofile in *. simpl.
  destruct (decide (TokenShiftEvent._disputeID event = disputeId))
    as [Heq | Hneq].
  - rewrite (bool_decide_eq_true_2 _ Heq).
    subst disputeId.
    rewrite entryFor_upsert_same by (simpl; congruence).
    split; [eauto |].
    unfold StoreProvider.entryFor. rewrite Hfind, Hd.
    cbn [mbind option_bind ProfileDispute.netPNK].
    apply orZero_Some.
  - rewrite (bool_decide_eq_false_2 _ Hneq).
    rewrite entryFor_upsert_ne
      by (simpl; intros [= H1 H2]; apply Hneq; congruence).
    split; [exact Htracked | reflexivity].
Qed.

Lemma shiftTotal_cons account disputeId event events :
  shiftTotal account disputeId (event :: events)
  = (shiftTotal account disputeId [event]
     + shiftTotal account disputeId events)%Z.
Proof. simpl. lia. Qed.

Lemma shiftTotal_Permutation account disputeId events events' :
  Permutation events events' ->
  shiftTotal account disputeId events = shiftTotal account disputeId events'.
Proof.
  induction 1 as [| x l l' _ IH | x y l | l l' l'' _ IH1 _ IH2]; simpl;
    lia.
Qed.

Lemma shiftMagnitude_nonneg account disputeId events :
  (0 <= shiftMagnitude account disputeId events)%Z.
Proof.
  induction events as [| event rest IH]; simpl; [lia |].
  destruct (_ && _); lia.
Qed.

Lemma shiftMagnitude_Permutation account disputeId events events' :
  Permutation events events' ->
  shiftMagnitude account disputeId events
  = shiftMagnitude account disputeId events'.
Proof.
  induction 1 as [| x l l' _ IH | x y l | l l' l'' _ IH1 _ IH2]; simpl;
    lia.
Qed.

(** The deliveries of a list of events: while the magnitudes stay
    within [2^53], every sum is exact. *)
Lemma deliverTokenShifts_run (events : list TokenShiftEvent.t)
    (contractAddress listener : address) :
  forall w,
    is_Some (StoreProvider.profiles (store w) !! listener) ->
    exists w',
      deliverTokenShifts events contractAddress listener w = (Ok tt, w')
      /\ forall disputeId,
           is_Some (StoreProvider.profileEntry contractAddress disputeId
                      listener (store w)) ->
           (Z.abs (storedNetPNK contractAddress disputeId listener (store w))
            + shiftMagnitude listener disputeId events <= 2 ^ 53)%Z ->
           storedNetPNK contractAddress disputeId listener (store w')
           = (storedNetPNK contractAddress disputeId listener (store w)
              + shiftTotal listener disputeId events)%Z.
Proof.
  induction events as [| event rest IH]; intros w [profile Hprofile].
  - exists w. split; [reflexivity |]. intros disputeId _ _. simpl. lia.
  - destruct (tokenShiftHandler_step event contractAddress listener w
                profile Hprofile) as (w1 & Hstep & Hprofile1 & Hsum1).
    destruct (IH w1 Hprofile1) as (w' & Hrest & Hsum).
    exists w'. split.
    + simpl. rewrite (bind_Ok _ _ _ _ _ Hstep). exact Hrest.
    + intros disputeId Htracked Hbound.
      destruct (Hsum1 disputeId Htracked) as [Htracked1 Heq1].
      pose proof (shiftMagnitude_nonneg listener disputeId rest) as Hrest0.
      rewrite (shiftTotal_cons _ _ event rest).
      simpl in Hbound. simpl shiftTotal.
      destruct (bool_decide (TokenShiftEvent._account event = listener)
                && bool_decide (TokenShiftEvent._disputeID event = disputeId)).
      * rewrite jsAdd_exact in Heq1 by lia.
        rewrite (Hsum disputeId Htracked1) by (rewrite Heq1; lia).
        rewrite Heq1. lia.
      * rewrite (Hsum disputeId Htracked1) by (rewrite Heq1; lia).
        rewrite Heq1. lia.
Qed.

Lemma shiftTotal_all account disputeId events :
  Forall (fun event =>
            TokenShiftEvent._account event = account
            /\ TokenShiftEvent._disputeID event = disputeId) events ->
  shiftTotal account disputeId events = sumAmounts events.
Proof.
  unfold sumAmounts. induction 1 as [| event rest [Hacc Hid] _ IH]; simpl.
  - reflexivity.
  - rewrite !bool_decide_eq_true_2 by assumption. simpl. rewrite IH.
    reflexivity.
Qed.

(** C3, as the code has it.  The handler adds doubles: the amount of an
    event is converted with [toNumber()] and added with [+].  Token-shift
    events delivered one after the other to the handler of a listener
    whose profile tracks a dispute leave in the store, as the [netPNK]
    of that dispute, the initial [netPNK] (0 when absent) plus the sum
    of the amounts of the events that target the listener and the
    dispute, which is the sum of all the amounts when every event does,
    and delivering the events in any other order ends with the same
    [netPNK], provided that the magnitude of the initial [netPNK] and
    the magnitudes of those amounts add up to [2^53] at most: every
    amount and every sum on the way is then an integer that a double
    holds. *)
Theorem tokenShifts_sum (events events' : list TokenShiftEvent.t)
    (contractAddress listener : address) (disputeId : nat) (w : World) :
  is_Some (StoreProvider.profileEntry contractAddress disputeId listener
             (store w)) ->
  Permutation events events' ->
  (Z.abs (storedNetPNK contractAddress disputeId listener (store w))
   + shiftMagnitude listener disputeId events <= 2 ^ 53)%Z ->
  exists w1 w2,
    deliverTokenShifts events contractAddress listener w = (Ok tt, w1)
    /\ deliverTokenShifts events' contractAddress listener w = (Ok tt, w2)
    /\ storedNetPNK contractAddress disputeId listener (store w1)
       = (storedNetPNK contractAddress disputeId listener (store w)
          + shiftTotal listener disputeId events)%Z
    /\ storedNetPNK contractAddress disputeId listener (store w2)
       = storedNetPNK contractAddress disputeId listener (store w1)
    /\ (Forall (fun event =>
                  TokenShiftEvent._account event = listener
                  /\ TokenShiftEvent._disputeID event = disputeId) events ->
        storedNetPNK contractAddress disputeId listener (store w1)
        = (storedNetPNK contractAddress disputeId listener (store w)
           + sumAmounts events)%Z).
Proof.
  intros Htracked Hperm Hbound.
  assert (Hprofile : is_Some (StoreProvider.profiles (store w) !! listener)).
  { unfold StoreProvider.profileEntry in Htracked.
    destruct (StoreProvider.profiles (store w) !! listener); [eauto |].
    destruct Htracked; discriminate. }
  destruct (deliverTokenShifts_run events contractAddress listener w Hprofile)
    as (w1 & Hrun1 & Hsum1).
  destruct (deliverTokenShifts_run events' contractAddress listener w Hprofile)
    as (w2 & Hrun2 & Hsum2).
  exists w1, w2. split; [exact Hrun1 |]. split; [exact Hrun2 |].
  rewrite (Hsum1 disputeId Htracked Hbound).
  rewrite (Hsum2 disputeId Htracked)
    by (rewrite <- (shiftMagnitude_Permutation _ _ _ _ Hperm); exact Hbound).
  rewrite (shiftTotal_Permutation _ _ _ _ Hperm).
  split; [reflexivity |]. split; [reflexivity |].
  intros Hall. rewrite <- (shiftTotal_all _ _ _ Hall).
  rewrite (shiftTotal_Permutation _ _ _ _ Hperm). reflexivity.
Qed.

(** C3 does not hold as stated: the juror's profile tracks dispute 2
    with no [netPNK] yet.  Three shifts of [2^53], 1 and 1 tokens leave
    [2^53] in the store when they arrive in this order, since
    [2^53 + 1] is not a double and rounds back to [2^53] twice; they
    leave [2^53 + 2], their sum, when the two small ones arrive
    first. *)
Lemma tokenShifts_rounded :
  is_Some (StoreProvider.profileEntry Fixture.arbitrator 2 Fixture.juror
             Fixture.trackedStore)
  /\ storedNetPNK Fixture.arbitrator 2 Fixture.juror Fixture.trackedStore
     = 0%Z
  /\ Permutation
       [Fixture.shift 2 Fixture.juror 9007199254740992;
        Fixture.shift 2 Fixture.juror 1; Fixture.shift 2 Fixture.juror 1]
       [Fixture.shift 2 Fixture.juror 1; Fixture.shift 2 Fixture.juror 1;
        Fixture.shift 2 Fixture.juror 9007199254740992]
  /\ sumAmounts
       [Fixture.shift 2 Fixture.juror 9007199254740992;
        Fixture.shift 2 Fixture.juror 1; Fixture.shift 2 Fixture.juror 1]
     = 9007199254740994%Z
  /\ fst (deliverTokenShifts
            [Fixture.shift 2 Fixture.juror 9007199254740992;
             Fixture.shift 2 Fixture.juror 1; Fixture.shift 2 Fixture.juror 1]
            Fixture.arbitrator Fixture.juror Fixture.trackedWorld) = Ok tt
  /\ storedNetPNK Fixture.arbitrator 2 Fixture.juror
       (store (snd (deliverTokenShifts
                      [Fixture.shift 2 Fixture.juror 9007199254740992;
                       Fixture.shift 2 Fixture.juror 1;
                       Fixture.shift 2 Fixture.juror 1]
                      Fixture.arbitrator Fixture.juror Fixture.trackedWorld)))
     = 9007199254740992%Z
  /\ storedNetPNK Fixture.arbitrator 2 Fixture.juror
       (store (snd (deliverTokenShifts
                      [Fixture.shift 2 Fixture.juror 1;
                       Fixture.shift 2 Fixture.juror 1;
                       Fixture.shift 2 Fixture.juror 9007199254740992]
                      Fixture.arbitrator Fixture.juror Fixture.trackedWorld)))
     = 9007199254740994%Z.
Proof.
  split; [vm_compute; eauto |]. split; [vm_compute; reflexivity |].
  split.
  { change [Fixture.shift 2 Fixture.juror 9007199254740992;
            Fixture.shift 2 Fixture.juror 1; Fixture.shift 2 Fixture.juror 1]
      with ([Fixture.shift 2 Fixture.juror 9007199254740992]
            ++ [Fixture.shift 2 Fixture.juror 1;
                Fixture.shift 2 Fixture.juror 1]).
    apply Permutation_app_comm. }
  repeat split; vm_compute; reflexivity.
Qed.

Lemma tokenShifts_sum_witness :
  is_Some (StoreProvider.profileEntry Fixture.arbitrator 0 Fixture.juror
             Fixture.trackedStore)
  /\ Permutation
       [Fixture.shift 0 Fixture.juror 50; Fixture.shift 0 Fixture.juror (-20)]
       [Fixture.shift 0 Fixture.juror (-20); Fixture.shift 0 Fixture.juror 50]
  /\ (Z.abs (storedNetPNK Fixture.arbitrator 0 Fixture.juror
               Fixture.trackedStore)
      + shiftMagnitude Fixture.juror 0
          [Fixture.shift 0 Fixture.juror 50;
           Fixture.shift 0 Fixture.juror (-20)] <= 2 ^ 53)%Z
  /\ exists w1 w2,
       deliverTokenShifts
         [Fixture.shift 0 Fixture.juror 50;
          Fixture.shift 0 Fixture.juror (-20)]
         Fixture.arbitrator Fixture.juror Fixture.trackedWorld = (Ok tt, w1)
       /\ deliverTokenShifts
            [Fixture.shift 0 Fixture.juror (-20);
             Fixture.shift 0 Fixture.juror 50]
            Fixture.arbitrator Fixture.juror Fixture.trackedWorld
          = (Ok tt, w2)
       /\ storedNetPNK Fixture.arbitrator 0 Fixture.juror (store w1) = 35%Z
       /\ storedNetPNK Fixture.arbitrator 0 Fixture.juror (store w2) = 35%Z.
Proof.
  assert (Htracked : is_Some (StoreProvider.profileEntry Fixture.arbitrator 0
                                Fixture.juror Fixture.trackedStore))
    by (vm_compute; eauto).
  assert (Hperm : Permutation
            [Fixture.shift 0 Fixture.juror 50;
             Fixture.shift 0 Fixture.juror (-20)]
            [Fixture.shift 0 Fixture.juror (-20);
             Fixture.shift 0 Fixture.juror 50])
    by apply perm_swap.
  assert (Hbound :
            (Z.abs (storedNetPNK Fixture.arbitrator 0 Fixture.juror
                      (store Fixture.trackedWorld))
             + shiftMagnitude Fixture.juror 0
                 [Fixture.shift 0 Fixture.juror 50;
                  Fixture.shift 0 Fixture.juror (-20)] <= 2 ^ 53)%Z)
    by (vm_compute; discriminate).
  split; [exact Htracked |]. split; [exact Hperm |]. split; [exact Hbound |].
  destruct (tokenShifts_sum _ _ Fixture.arbitrator Fixture.juror 0
              Fixture.trackedWorld Htracked Hperm Hbound)
    as (w1 & w2 & Hrun1 & Hrun2 & Hsum1 & Hsum2 & _).
  exists w1, w2. split; [exact Hrun1 |]. split; [exact Hrun2 |].
  rewrite Hsum2, Hsum1. split; vm_compute; reflexivity.
Defined.

(** ** Merging ledger facts into the store *)

Lemma readOnly_ret {A} (a : A) : readOnly (ret a).
Proof. intros w o w' [= <- <-]. split; [reflexivity | discriminate]. Qed.

Lemma readOnly_throw {A} (e : thrown) : readOnly (@throw A e).
Proof. intros w o w' [= <- <-]. split; [reflexivity | discriminate]. Qed.

Lemma readOnly_await {A} (r : result A) : readOnly (await r).
Proof. destruct r; [apply readOnly_ret | apply readOnly_throw]. Qed.

Lemma readOnly_readStore {A} (f : StoreProvider.t -> A) :
  readOnly (readStore f).
Proof. intros w o w' [= <- <-]. split; [reflexivity | discriminate]. Qed.

Lemma readOnly_logCall (c : call) : readOnly (logCall c).
Proof. intros w o w' [= <- <-]. split; [reflexivity | discriminate]. Qed.

Lemma readOnly_requireObject {A} (o : option A) : readOnly (requireObject o).
Proof. destruct o; [apply readOnly_ret | apply readOnly_throw]. Qed.

Lemma readOnly_bind {A B} (m : M A) (k : A -> M B) :
  readOnly m -> (forall a, readOnly (k a)) -> readOnly (bind m k).
Proof.
  intros Hm Hk w o w'. unfold bind.
  destruct (m w) as [[a | e |] w1] eqn:Hrun;
    destruct (Hm _ _ _ Hrun) as [Hstore Hfuel].
  - intros Hrest. destruct (Hk a _ _ _ Hrest) as [Hstore' Hfuel'].
    split; [congruence | exact Hfuel'].
  - intros [= <- <-]. split; [exact Hstore | discriminate].
  - contradiction.
Qed.

Lemma readOnly_tryCatch {A} (m : M A) (handler : thrown -> M A) :
  readOnly m -> (forall e, readOnly (handler e)) ->
  readOnly (tryCatch m handler).
Proof.
  intros Hm Hh w o w'. unfold tryCatch.
  destruct (m w) as [[a | e |] w1] eqn:Hrun;
    destruct (Hm _ _ _ Hrun) as [Hstore Hfuel].
  - intros [= <- <-]. split; [exact Hstore | discriminate].
  - intros Hrest. destruct (Hh e _ _ _ Hrest) as [Hstore' Hfuel'].
    split; [congruence | exact Hfuel'].
  - contradiction.
Qed.

Create HintDb readOnly.
#[local] Hint Resolve readOnly_ret readOnly_throw readOnly_await
  readOnly_readStore readOnly_logCall readOnly_requireObject : readOnly.

Ltac readOnly_step :=
  first
    [ apply readOnly_bind; [| intros ?]
    | apply readOnly_tryCatch; [| intros ?]
    | solve [auto with readOnly] ].

Section ReadOnlyMethods.
Variable _Arbitrator : Arbitrator.t.
Variable _ArbitrableContract : ArbitrableContract.t.

Lemma drawsLoop_readOnly arbitratorAddress disputeId account slots :
  forall draws,
    readOnly (drawsLoop _Arbitrator arbitratorAddress disputeId account
                slots draws).
Proof.
  induction slots as [| draw rest IH]; intros draws; simpl.
  - apply readOnly_ret.
  - apply readOnly_bind; [apply readOnly_await | intros b; apply IH].
Qed.

Lemma getDrawsForJuror_readOnly arbitratorAddress disputeId account :
  readOnly (getDrawsForJuror _Arbitrator arbitratorAddress disputeId
              account).
Proof.
  unfold getDrawsForJuror.
  apply readOnly_bind; [apply readOnly_await |].
  intros n. apply drawsLoop_readOnly.
Qed.

Lemma getDeadlineForDispute_readOnly arbitratorAddress period :
  readOnly (getDeadlineForDispute _Arbitrator arbitratorAddress period).
Proof. unfold getDeadlineForDispute. repeat readOnly_step. Qed.

Lemma getEvidenceForArbitrableContract_readOnly contract :
  readOnly (getEvidenceForArbitrableContract _ArbitrableContract contract).
Proof. unfold getEvidenceForArbitrableContract. repeat readOnly_step. Qed.

Lemma fetchUserStoreData_readOnly arbitratorAddress disputeId account :
  readOnly (fetchUserStoreData arbitratorAddress disputeId account).
Proof.
  unfold fetchUserStoreData. destruct (truthyString account);
    repeat readOnly_step.
Qed.

Lemma appealLoop_readOnly arbitratorAddress disputeId account dispute
    lastSession storeData appeals :
  forall rulings jurors,
    readOnly (appealLoop _Arbitrator arbitratorAddress disputeId account
                dispute lastSession storeData appeals rulings jurors).
Proof.
  induction appeals as [| appeal rest IH]; intros rulings jurors; simpl.
  - apply readOnly_ret.
  - apply readOnly_bind; [apply readOnly_await | intros ruling].
    apply readOnly_bind;
      [apply getDeadlineForDispute_readOnly | intros deadline].
    apply readOnly_bind; [| intros canRule; apply IH].
    destruct (_ && _); repeat readOnly_step.
Qed.

Lemma getDataForDispute_readOnly arbitratorAddress disputeId account :
  readOnly (getDataForDispute _Arbitrator _ArbitrableContract
              arbitratorAddress disputeId account).
Proof.
  unfold getDataForDispute.
  apply readOnly_bind; [apply readOnly_await | intros [dispute |]];
    [| apply readOnly_throw].
  apply readOnly_bind; [apply readOnly_await | intros data].
  apply readOnly_bind; [apply readOnly_readStore | intros contractData].
  apply readOnly_bind; [apply fetchUserStoreData_readOnly | intros sd].
  apply readOnly_bind;
    [apply getEvidenceForArbitrableContract_readOnly | intros evidence].
  apply readOnly_bind; [apply appealLoop_readOnly | intros [rulings jurors]].
  apply readOnly_ret.
Qed.
End ReadOnlyMethods.

Section Merge.
Variable _Arbitrator : Arbitrator.t.
Variable _ArbitrableContract : ArbitrableContract.t.

Lemma getDisputeData_updateDispute doc account s :
  StoreProvider.getDisputeData (DisputeDoc.arbitratorAddress doc)
    (DisputeDoc.disputeId doc) account (StoreProvider.updateDispute doc s)
  = Resolved
      {| StoredDispute.appealDraws :=
           StoreProvider.profileEntry (DisputeDoc.arbitratorAddress doc)
             (DisputeDoc.disputeId doc) account s
           ≫= ProfileDispute.appealDraws;
         StoredDispute.netPNK :=
           StoreProvider.profileEntry (DisputeDoc.arbitratorAddress doc)
             (DisputeDoc.disputeId doc) account s
           ≫= ProfileDispute.netPNK;
         StoredDispute.appealCreatedAt := Some (DisputeDoc.appealCreatedAt doc);
         StoredDispute.appealRuledAt := Some (DisputeDoc.appealRuledAt doc) |}.
Proof.
  unfold StoreProvider.getDisputeData, StoreProvider.updateDispute. simpl.
  rewrite lookup_insert_eq. reflexivity.
Qed.

Lemma updateStoreForDispute_effect arbitratorAddress disputeId account
    createdAt ruledAt w o w' :
  _updateStoreForDispute _Arbitrator _ArbitrableContract
    arbitratorAddress disputeId account createdAt ruledAt w = (o, w') ->
  store w' = store w
  \/ exists v doc,
       (exists w1,
           getDataForDispute _Arbitrator _ArbitrableContract
             arbitratorAddress disputeId account w = (Ok v, w1))
       /\ DisputeDoc.arbitratorAddress doc = arbitratorAddress
       /\ DisputeDoc.disputeId doc = disputeId
       /\ DisputeDoc.appealCreatedAt doc
          = setIfTruthy (DisputeData.appealCreatedAt v)
              (DisputeData.numberOfAppeals v) createdAt
       /\ DisputeDoc.appealRuledAt doc
          = setIfTruthy (DisputeData.appealRuledAt v)
              (DisputeData.numberOfAppeals v) ruledAt
       /\ (store w' = StoreProvider.updateDispute doc (store w)
           \/ exists draws netPNK,
                store w'
                = StoreProvider.updateDisputeProfile account draws
                    arbitratorAddress disputeId netPNK
                    (StoreProvider.updateDispute doc (store w))
                /\ (draws
                    = (StoreProvider.profileEntry arbitratorAddress
                         disputeId account (store w)
                       ≫= ProfileDispute.appealDraws)
                    \/ exists sessionDraws,
                         draws
                         = Some (js_set
                                   (orEmpty
                                      (StoreProvider.profileEntry
                                         arbitratorAddress disputeId account
                                         (store w)
                                       ≫= ProfileDispute.appealDraws))
                                   (DisputeData.numberOfAppeals v)
                                   sessionDraws))).
Proof.
  unfold _updateStoreForDispute. unfold bind at 1.
  destruct (getDataForDispute _ _ _ _ _ w) as [[v | e |] w1] eqn:Hdata;
    destruct (getDataForDispute_readOnly _ _ _ _ _ _ _ _ Hdata)
      as [Hstore1 _];
    [| intros [= _ <-]; left; exact Hstore1
     | intros [= _ <-]; left; exact Hstore1].
  destruct (getDataForDispute_Ok_inv _ _ _ _ _ _ _ _ Hdata)
    as (_ & _ & _ & _ & _ & _ & _ & _ & Harb & Hid & _).
  intros Hrun. right. exists v. eexists. split; [eauto |].
  revert Hrun. rewrite Harb, Hid.
  unfold bind at 1, writeStore at 1.
  match goal with
  | |- context [StoreProvider.updateDispute ?d (store w1)] => set (doc := d)
  end.
  rewrite Hstore1.
  pose proof (getDisputeData_updateDispute doc account (store w)) as Hget.
  change (DisputeDoc.arbitratorAddress doc) with arbitratorAddress in Hget.
  change (DisputeDoc.disputeId doc) with disputeId in Hget.
  unfold bind at 1. unfold bind at 1. unfold readStore at 1.
  cbn [store]. rewrite Hget. cbn [await ret].
  unfold bind at 1.
  assert (Hdoc : DisputeDoc.arbitratorAddress doc = arbitratorAddress
                 /\ DisputeDoc.disputeId doc = disputeId
                 /\ DisputeDoc.appealCreatedAt doc
                    = setIfTruthy (DisputeData.appealCreatedAt v)
                        (DisputeData.numberOfAppeals v) createdAt
                 /\ DisputeDoc.appealRuledAt doc
                    = setIfTruthy (DisputeData.appealRuledAt v)
                        (DisputeData.numberOfAppeals v) ruledAt)
    by (repeat split).
  destruct Hdoc as (H1 & H2 & H3 & H4).
  destruct (Arbitrator.getSession _Arbitrator arbitratorAddress)
    as [currentSession | e]; cbn [await ret throw].
  2:{ intros [= _ <-]. repeat (split; [eassumption |]). left. reflexivity. }
  unfold bind at 1.
  cbn [StoredDispute.appealDraws].
  destruct (bool_decide (DisputeData.lastSession v = currentSession)).
  - unfold bind at 1.
    match goal with
    | |- context [getDrawsForJuror ?a ?b ?c ?d ?x] =>
        destruct (getDrawsForJuror a b c d x) as [[sessionDraws | e |] w3]
          eqn:Hdraws;
        destruct (getDrawsForJuror_readOnly _ _ _ _ _ _ _ Hdraws)
          as [Hstore3 Hfuel]
    end; [| | contradiction].
    + cbn [ret]. unfold bind at 1, writeStore at 1. cbn [ret].
      intros [= _ <-]. repeat (split; [eassumption |]). right.
      eexists _, _. cbn [store]. rewrite Hstore3. cbn [store].
      split; [reflexivity |]. right. eexists. reflexivity.
    + intros [= _ <-]. repeat (split; [eassumption |]). left.
      rewrite Hstore3. reflexivity.
  - cbn [ret]. unfold bind at 1, writeStore at 1. cbn [ret].
    intros [= _ <-]. repeat (split; [eassumption |]). right.
    eexists _, _. cbn [store]. split; [reflexivity |]. left. reflexivity.
Qed.
End Merge.

Lemma setIfTruthy_length array index timestamp :
  length array <= length (setIfTruthy array index timestamp).
Proof.
  unfold setIfTruthy. destruct timestamp as [t |]; [| lia].
  destruct (truthyZ (Some t)); [apply js_set_length | lia].
Qed.

Lemma setIfTruthy_get array index timestamp k :
  js_get (setIfTruthy array index timestamp) k = js_get array k
  \/ (k = index /\ truthyZ timestamp = true
      /\ js_get (setIfTruthy array index timestamp) k = timestamp).
Proof.
  unfold setIfTruthy. destruct timestamp as [t |]; [| left; reflexivity].
  destruct (truthyZ (Some t)) eqn:Htruthy; [| left; reflexivity].
  destruct (decide (k = index)) as [-> | Hne].
  - right. rewrite js_get_set_eq. auto.
  - left. apply js_get_set_ne. exact Hne.
Qed.

Lemma getDisputeData_updateDisputeProfile arbitratorAddress disputeId account
    draws netPNK s :
  StoreProvider.getDisputeData arbitratorAddress disputeId account
    (StoreProvider.updateDisputeProfile account draws arbitratorAddress
       disputeId netPNK s)
  = match StoreProvider.disputes s !! (arbitratorAddress, disputeId) with
    | None => Rejected (JsError "dispute not found in store")
    | Some doc =>
        Resolved
          {| StoredDispute.appealDraws := draws;
             StoredDispute.netPNK := Some netPNK;
             StoredDispute.appealCreatedAt :=
               Some (DisputeDoc.appealCreatedAt doc);
             StoredDispute.appealRuledAt :=
               Some (DisputeDoc.appealRuledAt doc) |}
    end.
Proof.
  unfold StoreProvider.getDisputeData, StoreProvider.profileEntry,
    StoreProvider.updateDisputeProfile. simpl.
  destruct (StoreProvider.disputes s !! (arbitratorAddress, disputeId));
    [| reflexivity].
  rewrite lookup_insert_eq. simpl.
  rewrite entryFor_upsert_same by reflexivity. reflexivity.
Qed.

Section MergeClaims.
Variable _Arbitrator : Arbitrator.t.
Variable _ArbitrableContract : ArbitrableContract.t.

(** What the aggregation reads of a stored record, for a participant
    whose address is not empty. *)
Lemma getDataForDispute_stored arbitratorAddress disputeId account w v w1
    before :
  account <> "" ->
  StoreProvider.getDisputeData arbitratorAddress disputeId account (store w)
  = Resolved before ->
  getDataForDispute _Arbitrator _ArbitrableContract
    arbitratorAddress disputeId account w = (Ok v, w1) ->
  DisputeData.appealCreatedAt v
  = orEmpty (StoredDispute.appealCreatedAt before)
  /\ DisputeData.appealRuledAt v
     = orEmpty (StoredDispute.appealRuledAt before)
  /\ currentAppeal _Arbitrator arbitratorAddress disputeId
       (DisputeData.numberOfAppeals v).
Proof.
  intros Haccount Hbefore Hdata.
  apply getDataForDispute_Ok_inv in Hdata
    as (dispute & data & storeData & rulings & Hdispute & _ & Hfetch & _
        & _ & _ & _ & _ & _ & _ & Happeals & _ & _ & Hcreated & Hruled).
  rewrite (fetchUserStoreData_present _ _ _ _ _ Haccount Hbefore) in Hfetch.
  inversion Hfetch; subst storeData. simpl in *.
  repeat split; try assumption.
  exists dispute. auto.
Qed.

(** The record of a participant after a merge, whatever its outcome:
    as before, or with the two timestamp arrays written at the current
    appeal index and, when the merge got as far as the profile, the
    draws possibly rewritten at that index. *)
Lemma updateStoreForDispute_record arbitratorAddress disputeId account
    createdAt ruledAt w o w' before :
  account <> "" ->
  StoreProvider.getDisputeData arbitratorAddress disputeId account (store w)
  = Resolved before ->
  _updateStoreForDispute _Arbitrator _ArbitrableContract
    arbitratorAddress disputeId account createdAt ruledAt w = (o, w') ->
  exists after,
    StoreProvider.getDisputeData arbitratorAddress disputeId account
      (store w') = Resolved after
    /\ (after = before
        \/ exists n,
             currentAppeal _Arbitrator arbitratorAddress disputeId n
             /\ StoredDispute.appealCreatedAt after
                = Some (setIfTruthy
                          (orEmpty (StoredDispute.appealCreatedAt before))
                          n createdAt)
             /\ StoredDispute.appealRuledAt after
                = Some (setIfTruthy
                          (orEmpty (StoredDispute.appealRuledAt before))
                          n ruledAt)
             /\ (StoredDispute.appealDraws after
                 = StoredDispute.appealDraws before
                 \/ exists sessionDraws,
                      StoredDispute.appealDraws after
                      = Some (js_set
                                (orEmpty (StoredDispute.appealDraws before))
                                n sessionDraws))).
Proof.
  intros Haccount Hbefore Hrun.
  apply updateStoreForDispute_effect in Hrun
    as [Hsame | (v & doc & [w1 Hdata] & Harb & Hid & Hcreated & Hruled
                 & Hstore)].
  { exists before. rewrite Hsame. auto. }
  destruct (getDataForDispute_stored _ _ _ _ _ _ _ Haccount Hbefore Hdata)
    as (Hvcreated & Hvruled & Hcurrent).
  rewrite Hvcreated in Hcreated. rewrite Hvruled in Hruled.
  assert (Hdraws : StoredDispute.appealDraws before
                   = StoreProvider.profileEntry arbitratorAddress disputeId
                       account (store w) ≫= ProfileDispute.appealDraws).
  { revert Hbefore. unfold StoreProvider.getDisputeData.
    destruct (StoreProvider.disputes (store w) !! _); [| discriminate].
    intros [= <-]. reflexivity. }
  pose proof (getDisputeData_updateDispute doc account (store w)) as Hget.
  rewrite Harb, Hid in Hget.
  destruct Hstore as [Hstore | (draws & netPNK & Hstore & Hdrawn)].
  - rewrite Hstore, Hget. eexists. split; [reflexivity |].
    right. exists (DisputeData.numberOfAppeals v).
    cbn [StoredDispute.appealDraws StoredDispute.appealCreatedAt
         StoredDispute.appealRuledAt].
    rewrite Hcreated, Hruled, <- Hdraws. auto.
  - rewrite Hstore, getDisputeData_updateDisputeProfile.
    unfold StoreProvider.updateDispute at 1. cbn [StoreProvider.disputes].
    rewrite Harb, Hid, lookup_insert_eq.
    eexists. split; [reflexivity |].
    right. exists (DisputeData.numberOfAppeals v).
    cbn [StoredDispute.appealDraws StoredDispute.appealCreatedAt
         StoredDispute.appealRuledAt].
    rewrite Hcreated, Hruled. rewrite <- Hdraws in Hdrawn. auto.
Qed.

(** C10.  A [createdAt] (resp. [ruledAt]) argument equal to 0 is
    treated as an absent one: the merge runs exactly as without it,
    and it leaves the stored [appealCreatedAt] (resp. [appealRuledAt])
    array of the record as it was, so that no entry is written with
    the zero timestamp. *)
Theorem updateStoreForDispute_zero_timestamp arbitratorAddress disputeId
    account w before :
  account <> "" ->
  StoreProvider.getDisputeData arbitratorAddress disputeId account (store w)
  = Resolved before ->
  (forall ruledAt,
      _updateStoreForDispute _Arbitrator _ArbitrableContract
        arbitratorAddress disputeId account (Some 0%Z) ruledAt w
      = _updateStoreForDispute _Arbitrator _ArbitrableContract
          arbitratorAddress disputeId account None ruledAt w
      /\ exists after,
           StoreProvider.getDisputeData arbitratorAddress disputeId account
             (store (snd (_updateStoreForDispute _Arbitrator
                            _ArbitrableContract arbitratorAddress disputeId
                            account (Some 0%Z) ruledAt w)))
           = Resolved after
           /\ StoredDispute.appealCreatedAt after
              = StoredDispute.appealCreatedAt before)
  /\ (forall createdAt,
        _updateStoreForDispute _Arbitrator _ArbitrableContract
          arbitratorAddress disputeId account createdAt (Some 0%Z) w
        = _updateStoreForDispute _Arbitrator _ArbitrableContract
            arbitratorAddress disputeId account createdAt None w
        /\ exists after,
             StoreProvider.getDisputeData arbitratorAddress disputeId
               account
               (store (snd (_updateStoreForDispute _Arbitrator
                              _ArbitrableContract arbitratorAddress
                              disputeId account createdAt (Some 0%Z) w)))
             = Resolved after
             /\ StoredDispute.appealRuledAt after
                = StoredDispute.appealRuledAt before).
Proof.
  intros Haccount Hbefore.
  assert (Hcreated : exists array,
             StoredDispute.appealCreatedAt before = Some array).
  { revert Hbefore. unfold StoreProvider.getDisputeData.
    destruct (StoreProvider.disputes (store w) !! _); [| discriminate].
    intros [= <-]. eexists. reflexivity. }
  assert (Hruled : exists array,
             StoredDispute.appealRuledAt before = Some array).
  { revert Hbefore. unfold StoreProvider.getDisputeData.
    destruct (StoreProvider.disputes (store w) !! _); [| discriminate].
    intros [= <-]. eexists. reflexivity. }
  destruct Hcreated as [created Hcreated], Hruled as [ruled Hruled].
  split.
  - intros ruledAt. split; [reflexivity |].
    destruct (_updateStoreForDispute _ _ _ _ _ (Some 0%Z) ruledAt w)
      as [o w'] eqn:Hrun.
    destruct (updateStoreForDispute_record _ _ _ _ _ _ _ _ _
                Haccount Hbefore Hrun)
      as (after & Hafter & Hcase).
    exists after. split; [exact Hafter |].
    destruct Hcase as [-> | (n & _ & Hset & _)]; [reflexivity |].
    rewrite Hset, Hcreated. reflexivity.
  - intros createdAt. split; [reflexivity |].
    destruct (_updateStoreForDispute _ _ _ _ _ createdAt (Some 0%Z) w)
      as [o w'] eqn:Hrun.
    destruct (updateStoreForDispute_record _ _ _ _ _ _ _ _ _
                Haccount Hbefore Hrun)
      as (after & Hafter & Hcase).
    exists after. split; [exact Hafter |].
    destruct Hcase as [-> | (n & _ & _ & Hset & _)]; [reflexivity |].
    rewrite Hset, Hruled. reflexivity.
Qed.
End MergeClaims.

(** ** The merge on the sample ledger *)

Lemma updateStoreForDispute_zero_timestamp_witness :
  Fixture.alice <> ""
  /\ StoreProvider.getDisputeData Fixture.arbitrator 0 Fixture.alice
       Fixture.trackedStore
     = Resolved {| StoredDispute.appealDraws := None;
                   StoredDispute.netPNK := None;
                   StoredDispute.appealCreatedAt := Some [Some 1000%Z];
                   StoredDispute.appealRuledAt := Some [] |}
  /\ _updateStoreForDispute Fixture.ledger Fixture.arbitrable
       Fixture.arbitrator 0 Fixture.alice (Some 0%Z) (Some 3000%Z)
       Fixture.trackedWorld
     = _updateStoreForDispute Fixture.ledger Fixture.arbitrable
         Fixture.arbitrator 0 Fixture.alice None (Some 3000%Z)
         Fixture.trackedWorld
  /\ exists after,
       StoreProvider.getDisputeData Fixture.arbitrator 0 Fixture.alice
         (store (snd (_updateStoreForDispute Fixture.ledger Fixture.arbitrable
                        Fixture.arbitrator 0 Fixture.alice
                        (Some 0%Z) (Some 3000%Z) Fixture.trackedWorld)))
       = Resolved after
       /\ StoredDispute.appealCreatedAt after = Some [Some 1000%Z].
Proof.
  assert (Haccount : Fixture.alice <> "") by discriminate.
  assert (Hbefore :
            StoreProvider.getDisputeData Fixture.arbitrator 0 Fixture.alice
              (store Fixture.trackedWorld)
            = Resolved {| StoredDispute.appealDraws := None;
                          StoredDispute.netPNK := None;
                          StoredDispute.appealCreatedAt := Some [Some 1000%Z];
                          StoredDispute.appealRuledAt := Some [] |})
    by (vm_compute; reflexivity).
  split; [exact Haccount |]. split; [exact Hbefore |].
  exact (proj1 (updateStoreForDispute_zero_timestamp Fixture.ledger
                  Fixture.arbitrable Fixture.arbitrator 0 Fixture.alice
                  Fixture.trackedWorld _ Haccount Hbefore)
           (Some 3000%Z)).
Defined.

(** * Further properties of the class *)

(** ** The draws of a juror *)

Lemma filter_seq_sorted (p : nat -> bool) (len : nat) :
  forall start, StronglySorted lt (List.filter p (seq start len)).
Proof.
  induction len as [| len IH]; intros start; simpl; [constructor |].
  destruct (p start); [| apply IH].
  constructor; [apply IH |].
  apply Forall_forall. intros x Hx.
  apply list_elem_of_In, filter_In in Hx as [Hx _].
  apply in_seq in Hx. lia.
Qed.

Section Draws.
Variable _Arbitrator : Arbitrator.t.
Variable arbitratorAddress account : address.
Variable disputeId : nat.

Lemma drawsLoop_Ok_reads slots draws w result w' :
  drawsLoop _Arbitrator arbitratorAddress disputeId account slots draws w
  = (Ok result, w') ->
  forallb (fun draw =>
             match Arbitrator.isJurorDrawnForDispute _Arbitrator
                     disputeId draw arbitratorAddress account with
             | Resolved _ => true
             | Rejected _ => false
             end) slots = true.
Proof.
  intros Hrun.
  match goal with |- ?b = true => destruct b eqn:Hall end; [reflexivity |].
  destruct (drawsLoop_fails _ _ _ _ _ Hall draws w) as [e He].
  congruence.
Qed.

(** X1.  The draws that [getDrawsForJuror] returns are exactly the draw
    slots of [1..numberOfJurors] for which the ledger says that the
    account is drawn, in increasing order and without repetition; the
    store and the log are as before. *)
Theorem getDrawsForJuror_slots w draws w' :
  getDrawsForJuror _Arbitrator arbitratorAddress disputeId account w
  = (Ok draws, w') ->
  exists numberOfJurors,
    Arbitrator.getAmountOfJurorsForDispute _Arbitrator
      arbitratorAddress disputeId = Resolved numberOfJurors
    /\ w' = w
    /\ StronglySorted lt draws
    /\ forall draw,
         In draw draws <->
         1 <= draw <= numberOfJurors
         /\ Arbitrator.isJurorDrawnForDispute _Arbitrator
              disputeId draw arbitratorAddress account = Resolved true.
Proof.
  unfold getDrawsForJuror. intros Hrun.
  apply bind_Ok_inv in Hrun as (n & w1 & Hn & Hloop).
  apply await_Ok_inv in Hn as [Hn ->].
  exists n. split; [exact Hn |].
  pose proof (drawsLoop_Ok_reads _ _ _ _ _ Hloop) as Hreads.
  rewrite (drawsLoop_answers _ _ _ _ _ Hreads) in Hloop.
  inversion Hloop; subst. simpl.
  split; [reflexivity |]. split; [apply filter_seq_sorted |].
  intros draw. rewrite filter_In, in_seq. unfold drawnAt.
  destruct (Arbitrator.isJurorDrawnForDispute _ _ _ _ _) as [[|] | e];
    split; intros [H1 H2]; try discriminate; (split; [lia | congruence]).
Qed.

Lemma drawsLoop_first_failure pre draw post e :
  Forall (fun k =>
            exists b,
              Arbitrator.isJurorDrawnForDispute _Arbitrator
                disputeId k arbitratorAddress account = Resolved b) pre ->
  Arbitrator.isJurorDrawnForDispute _Arbitrator
    disputeId draw arbitratorAddress account = Rejected e ->
  forall draws w,
    drawsLoop _Arbitrator arbitratorAddress disputeId account
      (pre ++ draw :: post) draws w = (Throw e, w).
Proof.
  intros Hpre Hdraw. induction Hpre as [| k pre [b Hk] _ IH];
    intros draws w; simpl.
  - rewrite Hdraw. reflexivity.
  - rewrite Hk. unfold bind, await, ret. apply IH.
Qed.

(** X2.  [getDrawsForJuror] fails with the first failure it meets: the
    error of the juror-count read, or else the error of the first draw
    slot whose read fails, whatever the later slots answer. *)
Theorem getDrawsForJuror_first_failure w e :
  (Arbitrator.getAmountOfJurorsForDispute _Arbitrator
     arbitratorAddress disputeId = Rejected e ->
   getDrawsForJuror _Arbitrator arbitratorAddress disputeId account w
   = (Throw e, w))
  /\ (forall numberOfJurors draw,
        Arbitrator.getAmountOfJurorsForDispute _Arbitrator
          arbitratorAddress disputeId = Resolved numberOfJurors ->
        1 <= draw <= numberOfJurors ->
        (forall k, 1 <= k < draw ->
           exists b,
             Arbitrator.isJurorDrawnForDispute _Arbitrator
               disputeId k arbitratorAddress account = Resolved b) ->
        Arbitrator.isJurorDrawnForDispute _Arbitrator
          disputeId draw arbitratorAddress account = Rejected e ->
        getDrawsForJuror _Arbitrator arbitratorAddress disputeId account w
        = (Throw e, w)).
Proof.
  unfold getDrawsForJuror. split.
  - intros ->. reflexivity.
  - intros n draw -> Hrange Hbefore Hdraw. unfold bind at 1. simpl.
    replace n with ((draw - 1) + S (n - draw)) by lia.
    rewrite seq_app. simpl.
    replace (S (draw - 1)) with draw by lia.
    apply drawsLoop_first_failure; [| exact Hdraw].
    apply Forall_forall. intros k Hk.
    apply list_elem_of_In, in_seq in Hk. apply Hbefore. lia.
Qed.
End Draws.

Lemma getDrawsForJuror_slots_witness :
  getDrawsForJuror Fixture.ledger Fixture.arbitrator 0 Fixture.juror
    Fixture.trackedWorld = (Ok [2], Fixture.trackedWorld)
  /\ exists numberOfJurors,
       Arbitrator.getAmountOfJurorsForDispute Fixture.ledger
         Fixture.arbitrator 0 = Resolved numberOfJurors
       /\ Fixture.trackedWorld = Fixture.trackedWorld
       /\ StronglySorted lt [2]
       /\ forall draw,
            In draw [2] <->
            1 <= draw <= numberOfJurors
            /\ Arbitrator.isJurorDrawnForDispute Fixture.ledger
                 0 draw Fixture.arbitrator Fixture.juror = Resolved true.
Proof.
  assert (Hrun : getDrawsForJuror Fixture.ledger Fixture.arbitrator 0
                   Fixture.juror Fixture.trackedWorld
                 = (Ok [2], Fixture.trackedWorld)) by reflexivity.
  split; [exact Hrun |].
  exact (getDrawsForJuror_slots _ _ _ _ _ _ _ Hrun).
Defined.

Lemma getDrawsForJuror_first_failure_witness :
  Arbitrator.getAmountOfJurorsForDispute Sample.flakyLedger
    Fixture.arbitrator 0 = Resolved 3
  /\ Arbitrator.isJurorDrawnForDispute Sample.flakyLedger
       0 2 Fixture.arbitrator Fixture.juror = Rejected (JsString "timeout")
  /\ getDrawsForJuror Sample.flakyLedger Fixture.arbitrator 0 Fixture.juror
       Fixture.emptyWorld = (Throw (JsString "timeout"), Fixture.emptyWorld).
Proof.
  split; [reflexivity |]. split; [reflexivity |].
  apply (proj2 (getDrawsForJuror_first_failure Sample.flakyLedger
                  Fixture.arbitrator Fixture.juror 0 Fixture.emptyWorld
                  (JsString "timeout")) 3 2).
  - reflexivity.
  - lia.
  - intros k Hk. assert (k = 1) as -> by lia. eexists. reflexivity.
  - reflexivity.
Defined.

(** ** Termination of the juror scan *)

Section JurorScanOutcomes.
Variable _Arbitrator : Arbitrator.t.
Variable NULL_ADDRESS : address.
Variable arbitratorAddress account : address.
Variable session : nat.

Lemma jurorScanTurn_total disputeId myDisputes w :
  exists turn,
    jurorScanTurn _Arbitrator NULL_ADDRESS arbitratorAddress account session
      disputeId myDisputes w = (Ok turn, w).
Proof.
  destruct (endOfSpace _Arbitrator NULL_ADDRESS arbitratorAddress account
              session disputeId) eqn:Hend.
  - eexists. apply jurorScanTurn_end. exact Hend.
  - destruct (jurorScanTurn_below _ _ _ _ _ disputeId myDisputes w Hend)
      as [Hnext | [Hbreak _]]; eexists; eassumption.
Qed.

Lemma jurorScan_no_throw fuel :
  forall disputeId myDisputes w,
  exists o,
    jurorScan _Arbitrator NULL_ADDRESS fuel arbitratorAddress account session
      disputeId myDisputes w = (o, w)
    /\ forall e, o <> Throw e.
Proof.
  induction fuel as [| fuel IH]; intros disputeId myDisputes w; simpl.
  - exists OutOfFuel. split; [reflexivity | discriminate].
  - destruct (jurorScanTurn_total disputeId myDisputes w) as [turn Hturn].
    rewrite (bind_Ok _ _ _ _ _ Hturn).
    destruct turn as [| [next found]].
    + eexists. split; [reflexivity | discriminate].
    + apply IH.
Qed.

(** Up to the end of the space the scan either returns the relevant
    ids or is still running when the fuel is spent. *)
Lemma jurorScan_outcome n w :
  endOfSpace _Arbitrator NULL_ADDRESS arbitratorAddress account session n
  = true ->
  (forall d, d < n ->
     endOfSpace _Arbitrator NULL_ADDRESS arbitratorAddress account session d
     = false) ->
  forall fuel disputeId myDisputes,
    disputeId <= n ->
    jurorScan _Arbitrator NULL_ADDRESS fuel arbitratorAddress account
      session disputeId myDisputes w
    = (Ok (myDisputes
           ++ List.filter
                (relevant _Arbitrator arbitratorAddress account session)
                (seq disputeId (n - disputeId))), w)
    \/ jurorScan _Arbitrator NULL_ADDRESS fuel arbitratorAddress account
         session disputeId myDisputes w = (OutOfFuel, w).
Proof.
  intros Hend Hbelow fuel.
  induction fuel as [| fuel IH]; intros disputeId myDisputes Hle;
    [right; reflexivity |].
  destruct (decide (n - disputeId < S fuel)) as [Hfuel | Hfuel].
  - left. apply jurorScan_run; assumption.
  - assert (Hlt : disputeId < n) by lia. simpl.
    destruct (jurorScanTurn_below _ _ _ _ _ disputeId myDisputes w
                (Hbelow disputeId Hlt))
      as [Hnext | (Hbreak & Hirrelevant & Hnextend)].
    + rewrite (bind_Ok _ _ _ _ _ Hnext).
      destruct (IH (S disputeId)
                  (myDisputes
                   ++ (if relevant _Arbitrator arbitratorAddress account
                            session disputeId
                       then [disputeId] else [])))
        as [Hok | Hout]; [lia | | right; exact Hout].
      left. rewrite Hok.
      replace (n - disputeId) with (S (n - S disputeId)) by lia. simpl.
      destruct (relevant _ _ _ _ disputeId);
        [rewrite <- app_assoc | rewrite app_nil_r]; reflexivity.
    + assert (S disputeId = n) as <-.
      { destruct (decide (S disputeId = n)) as [Heq | Hneq];
          [exact Heq |].
        rewrite Hbelow in Hnextend by lia. discriminate. }
      left. rewrite (bind_Ok _ _ _ _ _ Hbreak).
      replace (S disputeId - disputeId) with 1 by lia. simpl.
      rewrite Hirrelevant, app_nil_r. reflexivity.
Qed.

Lemma jurorScan_diverges fuel :
  forall disputeId myDisputes w,
    (forall d, disputeId <= d <= disputeId + fuel ->
       endOfSpace _Arbitrator NULL_ADDRESS arbitratorAddress account session d
       = false) ->
    jurorScan _Arbitrator NULL_ADDRESS fuel arbitratorAddress account session
      disputeId myDisputes w = (OutOfFuel, w).
Proof.
  induction fuel as [| fuel IH]; intros disputeId myDisputes w Hnone;
    [reflexivity |].
  simpl.
  destruct (jurorScanTurn_below _ _ _ _ _ disputeId myDisputes w
              (Hnone disputeId ltac:(lia)))
    as [Hnext | (_ & _ & Hnextend)].
  - rewrite (bind_Ok _ _ _ _ _ Hnext). apply IH.
    intros d Hd. apply Hnone. lia.
  - rewrite Hnone in Hnextend by lia. discriminate.
Qed.

Lemma first_endOfSpace bound :
  (exists n,
      n <= bound
      /\ endOfSpace _Arbitrator NULL_ADDRESS arbitratorAddress account
           session n = true
      /\ forall d, d < n ->
           endOfSpace _Arbitrator NULL_ADDRESS arbitratorAddress account
             session d = false)
  \/ (forall d, d <= bound ->
        endOfSpace _Arbitrator NULL_ADDRESS arbitratorAddress account
          session d = false).
Proof.
  induction bound as [| bound [(n & Hn & Hend & Hfirst) | Hnone]].
  - destruct (endOfSpace _Arbitrator NULL_ADDRESS arbitratorAddress account
                session 0) eqn:H0.
    + left. exists 0. repeat split; [lia | exact H0 | intros d Hd; lia].
    + right. intros d Hd. replace d with 0 by lia. exact H0.
  - left. exists n. repeat split; [lia | exact Hend | exact Hfirst].
  - destruct (endOfSpace _Arbitrator NULL_ADDRESS arbitratorAddress account
                session (S bound)) eqn:HS.
    + left. exists (S bound). repeat split; [lia | exact HS |].
      intros d Hd. apply Hnone. lia.
    + right. intros d Hd.
      destruct (decide (d = S bound)) as [-> | Hne]; [exact HS |].
      apply Hnone. lia.
Qed.
End JurorScanOutcomes.

(** X3.  A failure of the arbitrator-data read is the only failure
    [getDisputesForJuror] lets through: once that read has answered,
    the method never throws, whatever the dispute and draw reads do, and
    it leaves the store and the log as they were. *)
Theorem getDisputesForJuror_never_throws (_Arbitrator : Arbitrator.t)
    (NULL_ADDRESS arbitratorAddress account : address) (fuel : nat)
    (w : World) :
  (forall e,
      Arbitrator.getData _Arbitrator arbitratorAddress (Some account)
      = Rejected e ->
      getDisputesForJuror _Arbitrator NULL_ADDRESS fuel arbitratorAddress
        account w = (Throw e, w))
  /\ (forall data,
         Arbitrator.getData _Arbitrator arbitratorAddress (Some account)
         = Resolved data ->
         exists o,
           getDisputesForJuror _Arbitrator NULL_ADDRESS fuel arbitratorAddress
             account w = (o, w)
           /\ forall e, o <> Throw e).
Proof.
  unfold getDisputesForJuror. split.
  - intros e ->. reflexivity.
  - intros data ->. unfold await.
    rewrite (bind_Ok _ _ _ _ _ (eq_refl : ret data w = (Ok data, w))).
    apply jurorScan_no_throw.
Qed.

(** X4.  Whenever [getDisputesForJuror] returns, the dispute space has a
    first end [n], within the turns it was given, and the ids returned
    are the relevant ids below [n], each once and in increasing order. *)
Theorem getDisputesForJuror_returns (_Arbitrator : Arbitrator.t)
    (NULL_ADDRESS arbitratorAddress account : address)
    (data : ArbitratorData.t) (fuel : nat) (w w' : World)
    (myDisputes : list nat) :
  Arbitrator.getData _Arbitrator arbitratorAddress (Some account)
  = Resolved data ->
  getDisputesForJuror _Arbitrator NULL_ADDRESS fuel arbitratorAddress
    account w = (Ok myDisputes, w') ->
  StronglySorted lt myDisputes
  /\ exists n,
       n <= fuel
       /\ endOfSpace _Arbitrator NULL_ADDRESS arbitratorAddress account
            (ArbitratorData.session data) n = true
       /\ (forall d, d < n ->
             endOfSpace _Arbitrator NULL_ADDRESS arbitratorAddress account
               (ArbitratorData.session data) d = false)
       /\ forall d,
            In d myDisputes <->
            d < n
            /\ relevant _Arbitrator arbitratorAddress account
                 (ArbitratorData.session data) d = true.
Proof.
  unfold getDisputesForJuror. intros -> Hrun. unfold await in Hrun.
  rewrite (bind_Ok _ _ _ _ _ (eq_refl : ret data w = (Ok data, w))) in Hrun.
  destruct (first_endOfSpace _Arbitrator NULL_ADDRESS arbitratorAddress
              account (ArbitratorData.session data) fuel)
    as [(n & Hn & Hend & Hfirst) | Hnone].
  - destruct (jurorScan_outcome _ _ _ _ _ n w Hend Hfirst fuel 0 []
                ltac:(lia)) as [Hok | Hout]; [| congruence].
    rewrite Hok in Hrun. inversion Hrun; subst. simpl.
    rewrite Nat.sub_0_r. split; [apply filter_seq_sorted |].
    exists n. split; [exact Hn |]. split; [exact Hend |].
    split; [exact Hfirst |].
    intros d. rewrite filter_In, in_seq.
    split; intros [H1 H2]; (split; [lia | assumption]).
  - rewrite jurorScan_diverges in Hrun; [discriminate |].
    intros d Hd. apply Hnone. lia.
Qed.

(** X5.  On a ledger whose dispute space has no end within the first
    [fuel + 1] ids, the scan of [getDisputesForJuror] is still running
    after [fuel] turns: on a ledger without an end it never returns. *)
Theorem getDisputesForJuror_diverges (_Arbitrator : Arbitrator.t)
    (NULL_ADDRESS arbitratorAddress account : address)
    (data : ArbitratorData.t) (fuel : nat) (w : World) :
  Arbitrator.getData _Arbitrator arbitratorAddress (Some account)
  = Resolved data ->
  (forall d, d <= fuel ->
     endOfSpace _Arbitrator NULL_ADDRESS arbitratorAddress account
       (ArbitratorData.session data) d = false) ->
  getDisputesForJuror _Arbitrator NULL_ADDRESS fuel arbitratorAddress
    account w = (OutOfFuel, w).
Proof.
  unfold getDisputesForJuror. intros -> Hnone. unfold await.
  rewrite (bind_Ok _ _ _ _ _ (eq_refl : ret data w = (Ok data, w))).
  apply jurorScan_diverges. intros d Hd. apply Hnone. lia.
Qed.

Lemma getDisputesForJuror_never_throws_witness :
  Arbitrator.getData Sample.flakyLedger Fixture.arbitrator
    (Some Fixture.juror)
  = Resolved {| ArbitratorData.period := 3;
                ArbitratorData.session := 1;
                ArbitratorData.lastPeriodChange := 100%Z |}
  /\ exists o,
       getDisputesForJuror Sample.flakyLedger Fixture.NULL_ADDRESS 10
         Fixture.arbitrator Fixture.juror Fixture.trackedWorld
       = (o, Fixture.trackedWorld)
       /\ forall e, o <> Throw e.
Proof.
  split; [reflexivity |].
  exact (proj2 (getDisputesForJuror_never_throws Sample.flakyLedger
                  Fixture.NULL_ADDRESS Fixture.arbitrator Fixture.juror 10
                  Fixture.trackedWorld) _ eq_refl).
Defined.

Lemma getDisputesForJuror_returns_witness :
  getDisputesForJuror Fixture.ledger Fixture.NULL_ADDRESS 4
    Fixture.arbitrator Fixture.juror Fixture.trackedWorld
  = (Ok [0], Fixture.trackedWorld)
  /\ StronglySorted lt [0]
  /\ exists n,
       n <= 4
       /\ endOfSpace Fixture.ledger Fixture.NULL_ADDRESS Fixture.arbitrator
            Fixture.juror 1 n = true.
Proof.
  assert (Hrun : getDisputesForJuror Fixture.ledger Fixture.NULL_ADDRESS 4
                   Fixture.arbitrator Fixture.juror Fixture.trackedWorld
                 = (Ok [0], Fixture.trackedWorld)) by (vm_compute; reflexivity).
  split; [exact Hrun |].
  destruct (getDisputesForJuror_returns Fixture.ledger Fixture.NULL_ADDRESS
              Fixture.arbitrator Fixture.juror _ 4 _ _ _ eq_refl Hrun)
    as (Hsorted & n & Hn & Hend & _).
  split; [exact Hsorted |]. exists n. split; [exact Hn | exact Hend].
Defined.

Lemma getDisputesForJuror_diverges_witness :
  (forall d, d <= 50 ->
     endOfSpace Sample.endlessLedger Fixture.NULL_ADDRESS Fixture.arbitrator
       Fixture.juror 1 d = false)
  /\ getDisputesForJuror Sample.endlessLedger Fixture.NULL_ADDRESS 50
       Fixture.arbitrator Fixture.juror Fixture.emptyWorld
     = (OutOfFuel, Fixture.emptyWorld).
Proof.
  assert (Hnone : forall d, d <= 50 ->
            endOfSpace Sample.endlessLedger Fixture.NULL_ADDRESS
              Fixture.arbitrator Fixture.juror 1 d = false)
    by (intros d _; reflexivity).
  split; [exact Hnone |].
  exact (getDisputesForJuror_diverges Sample.endlessLedger
           Fixture.NULL_ADDRESS Fixture.arbitrator Fixture.juror _ 50
           Fixture.emptyWorld eq_refl Hnone).
Defined.

(** ** The entries of the aggregated view *)

Section AppealEntries.
Variable _Arbitrator : Arbitrator.t.
Variable _ArbitrableContract : ArbitrableContract.t.
Variable arbitratorAddress account : address.
Variable disputeId : nat.

Lemma existsb_eqb_false x (l : list nat) :
  x ∉ l -> existsb (Nat.eqb x) l = false.
Proof.
  intros Hnot. induction l as [| y l IH]; simpl; [reflexivity |].
  apply not_elem_of_cons in Hnot as [Hne Hnot].
  rewrite IH by exact Hnot.
  destruct (Nat.eqb_spec x y); [contradiction | reflexivity].
Qed.

(** A complete run of the appeal loop, entry by entry. *)
Lemma appealLoop_entries dispute lastSession storeData appeals :
  NoDup appeals ->
  forall rulings jurors w rulings' jurors' w',
    appealLoop _Arbitrator arbitratorAddress disputeId account dispute
      lastSession storeData appeals rulings jurors w
    = (Ok (rulings', jurors'), w') ->
    exists newRulings newJurors,
      rulings' = rulings ++ newRulings
      /\ jurors' = jurors ++ newJurors
      /\ Forall2 (rulingEntryOk _Arbitrator arbitratorAddress disputeId
                    dispute (usd_appealRuledAt storeData))
           appeals newRulings
      /\ Forall2 (jurorFeeOk _Arbitrator account disputeId dispute
                    lastSession (usd_appealDraws storeData))
           appeals newJurors
      /\ store w' = store w
      /\ calls w'
         = calls w ++ consultations account disputeId lastSession
                        (usd_appealDraws storeData) appeals.
Proof.
  unfold consultations.
  induction 1 as [| appeal rest Hfresh Hnodup IH];
    intros rulings jurors w rulings' jurors' w' Hrun.
  - simpl in Hrun. unfold ret in Hrun. inversion Hrun; subst.
    exists [], []. rewrite !app_nil_r. simpl.
    repeat split; constructor.
  - simpl in Hrun.
    apply bind_Ok_inv in Hrun as (ruling & w1 & Hruling & Hrun).
    apply await_Ok_inv in Hruling as [Hruling ->].
    apply bind_Ok_inv in Hrun as (deadline & w1 & Hdeadline & Hrun).
    pose proof (getDeadlineForDispute_world _ _ _ _ _ _ Hdeadline) as ->.
    assert (Hdead : exists data time,
               Arbitrator.getData _Arbitrator arbitratorAddress None
               = Resolved data
               /\ Arbitrator.getTimeForPeriod _Arbitrator arbitratorAddress
                    appeal = Resolved time
               /\ deadline
                  = (1000 * (ArbitratorData.lastPeriodChange data + time))%Z).
    { revert Hdeadline. unfold getDeadlineForDispute, bind.
      destruct (Arbitrator.getData _ _ _) as [data | e]; simpl;
        [| discriminate].
      destruct (Arbitrator.getTimeForPeriod _ _ _) as [time | e]; simpl;
        [| discriminate].
      unfold ret. intros [= <-]. eauto. }
    apply bind_Ok_inv in Hrun as (canRule & w2 & HcanRule & Hrun).
    apply IH in Hrun
      as (newRulings & newJurors & -> & -> & Hrulings & Hjurors & Hstore
          & Hcalls).
    set (draws := orEmpty (js_get (usd_appealDraws storeData) appeal)) in *.
    eexists (_ :: newRulings), (_ :: newJurors).
    split; [rewrite <- app_assoc; reflexivity |].
    split; [rewrite <- app_assoc; reflexivity |].
    split.
    { constructor; [| exact Hrulings]. repeat split; auto. }
    destruct (bool_decide (appeal = lastSession) && (0 <? length draws))
      eqn:Hguard.
    + apply andb_true_iff in Hguard as [Hlast Hlen].
      apply bool_decide_eq_true_1 in Hlast. subst appeal.
      assert (Hne : draws <> [])
        by (apply Nat.ltb_lt in Hlen; destruct draws; simpl in Hlen;
            [lia | discriminate]).
      apply bind_Ok_inv in HcanRule as ([] & w3 & Hcall & HcanRule).
      unfold logCall in Hcall. inversion Hcall; subst w3; clear Hcall.
      apply await_Ok_inv in HcanRule as [Hanswer ->].
      simpl in Hstore, Hcalls.
      split.
      { constructor; [| exact Hjurors]. repeat split; auto. }
      split; [exact Hstore |].
      rewrite Hcalls, (existsb_eqb_false _ _ Hfresh). simpl.
      rewrite Nat.eqb_refl. fold draws. rewrite Hlen. simpl.
      rewrite app_nil_r. reflexivity.
    + unfold ret in HcanRule. inversion HcanRule; subst canRule w2.
      split.
      { constructor; [| exact Hjurors]. repeat split; auto.
        - simpl. discriminate.
        - simpl. intros -> Hne. exfalso.
          rewrite bool_decide_eq_true_2 in Hguard by reflexivity.
          simpl in Hguard. apply Nat.ltb_ge in Hguard.
          fold draws in Hne. destruct draws; [congruence | simpl in *; lia]. }
      split; [exact Hstore |].
      rewrite Hcalls. f_equal. simpl.
      destruct (Nat.eqb_spec lastSession appeal) as [<- | Hne];
        [| reflexivity].
      rewrite bool_decide_eq_true_2 in Hguard by reflexivity.
      simpl in Hguard. fold draws. rewrite Hguard, andb_false_r.
      reflexivity.
Qed.
End AppealEntries.

(** ** Methods that neither write nor log *)

Lemma silent_ret {A} (a : A) : silent (ret a).
Proof. intros w o w' [= _ <-]. reflexivity. Qed.

Lemma silent_throw {A} (e : thrown) : silent (@throw A e).
Proof. intros w o w' [= _ <-]. reflexivity. Qed.

Lemma silent_await {A} (r : result A) : silent (await r).
Proof. destruct r; [apply silent_ret | apply silent_throw]. Qed.

Lemma silent_readStore {A} (f : StoreProvider.t -> A) : silent (readStore f).
Proof. intros w o w' [= _ <-]. reflexivity. Qed.

Lemma silent_requireObject {A} (o : option A) : silent (requireObject o).
Proof. destruct o; [apply silent_ret | apply silent_throw]. Qed.

Lemma silent_bind {A B} (m : M A) (k : A -> M B) :
  silent m -> (forall a, silent (k a)) -> silent (bind m k).
Proof.
  intros Hm Hk w o w'. unfold bind.
  destruct (m w) as [[a | e |] w1] eqn:Hrun;
    pose proof (Hm _ _ _ Hrun) as ->.
  - apply Hk.
  - intros [= _ <-]. reflexivity.
  - intros [= _ <-]. reflexivity.
Qed.

Lemma silent_tryCatch {A} (m : M A) (handler : thrown -> M A) :
  silent m -> (forall e, silent (handler e)) -> silent (tryCatch m handler).
Proof.
  intros Hm Hh w o w'. unfold tryCatch.
  destruct (m w) as [[a | e |] w1] eqn:Hrun;
    pose proof (Hm _ _ _ Hrun) as ->.
  - intros [= _ <-]. reflexivity.
  - apply Hh.
  - intros [= _ <-]. reflexivity.
Qed.

(** What a silent first step leaves of a sequence. *)
Lemma bind_silent_inv {A B} (m : M A) (k : A -> M B) w o w' :
  silent m ->
  bind m k w = (o, w') ->
  (exists a, m w = (Ok a, w) /\ k a w = (o, w'))
  \/ (w' = w /\ forall b, o <> Ok b).
Proof.
  intros Hm. unfold bind.
  destruct (m w) as [[a | e |] w1] eqn:Hrun;
    pose proof (Hm _ _ _ Hrun) as ->.
  - intros Hk. left. eauto.
  - intros [= <- <-]. right. split; [reflexivity | discriminate].
  - intros [= <- <-]. right. split; [reflexivity | discriminate].
Qed.

Ltac silent_step :=
  first
    [ apply silent_bind; [| intros ?]
    | apply silent_tryCatch; [| intros ?]
    | apply silent_ret | apply silent_throw | apply silent_await
    | apply silent_readStore | apply silent_requireObject ].

Section SilentMethods.
Variable _Arbitrator : Arbitrator.t.
Variable _ArbitrableContract : ArbitrableContract.t.

Lemma drawsLoop_silent arbitratorAddress disputeId account slots :
  forall draws,
    silent (drawsLoop _Arbitrator arbitratorAddress disputeId account
              slots draws).
Proof.
  induction slots as [| draw rest IH]; intros draws; simpl.
  - apply silent_ret.
  - apply silent_bind; [apply silent_await | intros b; apply IH].
Qed.

Lemma getDrawsForJuror_silent arbitratorAddress disputeId account :
  silent (getDrawsForJuror _Arbitrator arbitratorAddress disputeId account).
Proof.
  unfold getDrawsForJuror.
  apply silent_bind; [apply silent_await | intros n; apply drawsLoop_silent].
Qed.

Lemma getDeadlineForDispute_silent arbitratorAddress period :
  silent (getDeadlineForDispute _Arbitrator arbitratorAddress period).
Proof. unfold getDeadlineForDispute. repeat silent_step. Qed.

Lemma getEvidenceForArbitrableContract_silent contract :
  silent (getEvidenceForArbitrableContract _ArbitrableContract contract).
Proof. unfold getEvidenceForArbitrableContract. repeat silent_step. Qed.

Lemma fetchUserStoreData_silent arbitratorAddress disputeId account :
  silent (fetchUserStoreData arbitratorAddress disputeId account).
Proof.
  unfold fetchUserStoreData. destruct (truthyString account);
    repeat silent_step.
Qed.

(** Whatever its outcome, the appeal loop logs at most one call, a
    consultation of the eligibility check with draws, and only when it
    visits the index [lastSession]. *)
Lemma appealLoop_log arbitratorAddress disputeId account dispute lastSession
    storeData appeals :
  NoDup appeals ->
  forall rulings jurors w o w',
    appealLoop _Arbitrator arbitratorAddress disputeId account dispute
      lastSession storeData appeals rulings jurors w = (o, w') ->
    exists cs,
      calls w' = calls w ++ cs
      /\ (cs = []
          \/ (lastSession ∈ appeals
              /\ exists draws,
                   draws <> []
                   /\ cs = [CallCanRuleDispute account disputeId draws])).
Proof.
  induction 1 as [| appeal rest Hfresh Hnodup IH];
    intros rulings jurors w o w' Hrun; simpl in Hrun.
  - inversion Hrun; subst. exists []. rewrite app_nil_r. auto.
  - apply bind_silent_inv in Hrun as [(ruling & _ & Hrun) | [-> _]];
      [| exists []; rewrite app_nil_r; auto | apply silent_await].
    apply bind_silent_inv in Hrun as [(deadline & _ & Hrun) | [-> _]];
      [| exists []; rewrite app_nil_r; auto
       | apply getDeadlineForDispute_silent].
    set (draws := orEmpty (js_get (usd_appealDraws storeData) appeal))
      in *.
    destruct (bool_decide (appeal = lastSession) && (0 <? length draws))
      eqn:Hguard.
    + apply andb_true_iff in Hguard as [Hlast Hlen].
      apply bool_decide_eq_true_1 in Hlast. subst appeal.
      assert (Hne : draws <> [])
        by (apply Nat.ltb_lt in Hlen; destruct draws; simpl in Hlen;
            [lia | discriminate]).
      revert Hrun. unfold bind at 1, bind at 1, logCall.
      destruct (Arbitrator.canRuleDispute _ _ _ _) as [b | e]; simpl.
      * intros Hrun. apply IH in Hrun as (cs & Hcalls & Hcs).
        simpl in Hcalls.
        destruct Hcs as [-> | [Hin _]]; [| contradiction].
        exists [CallCanRuleDispute account disputeId draws].
        rewrite Hcalls, app_nil_r. split; [reflexivity |].
        right. split; [left | eauto].
      * intros [= <- <-]. simpl.
        exists [CallCanRuleDispute account disputeId draws].
        split; [reflexivity |]. right. split; [left | eauto].
    + revert Hrun. unfold bind at 1, ret. intros Hrun.
      apply IH in Hrun as (cs & Hcalls & Hcs).
      exists cs. split; [exact Hcalls |].
      destruct Hcs as [-> | [Hin Hdraws]]; [left; reflexivity |].
      right. split; [right; exact Hin | exact Hdraws].
Qed.

(** The outcome of [getDataForDispute] in terms of its appeal loop. *)
Lemma getDataForDispute_loop arbitratorAddress disputeId account w o w' :
  getDataForDispute _Arbitrator _ArbitrableContract
    arbitratorAddress disputeId account w = (o, w') ->
  (w' = w /\ forall v, o <> Ok v)
  \/ exists dispute data storeData lo,
       Arbitrator.getDispute _Arbitrator arbitratorAddress disputeId
       = Resolved (Some dispute)
       /\ ArbitrableContract.getData _ArbitrableContract
            (Dispute.arbitratedContract dispute) = Resolved data
       /\ fetchUserStoreData arbitratorAddress disputeId account w
          = (Ok storeData, w)
       /\ appealLoop _Arbitrator arbitratorAddress disputeId account dispute
            (Dispute.firstSession dispute + Dispute.numberOfAppeals dispute)
            storeData (seq 0 (S (Dispute.numberOfAppeals dispute))) [] [] w
          = (lo, w')
       /\ match lo with
          | Ok (rulings, jurors) =>
              exists v,
                o = Ok v
                /\ DisputeData.appealRulings v = rulings
                /\ DisputeData.appealJuror v = jurors
                /\ DisputeData.firstSession v = Dispute.firstSession dispute
                /\ DisputeData.numberOfAppeals v
                   = Dispute.numberOfAppeals dispute
                /\ DisputeData.appealRuledAt v = usd_appealRuledAt storeData
          | Throw e => o = Throw e
          | OutOfFuel => o = OutOfFuel
          end.
Proof.
  unfold getDataForDispute. intros Hrun.
  apply bind_silent_inv in Hrun as [(dispute & Hdispute & Hrun) | Hfail];
    [| left; exact Hfail | apply silent_await].
  apply await_Ok_inv in Hdispute as [Hdispute _].
  destruct dispute as [dispute |];
    [| inversion Hrun; subst; left; split; [reflexivity | discriminate]].
  apply bind_silent_inv in Hrun as [(data & Hdata & Hrun) | Hfail];
    [| left; exact Hfail | apply silent_await].
  apply await_Ok_inv in Hdata as [Hdata _].
  apply bind_silent_inv in Hrun as [(contractData & _ & Hrun) | Hfail];
    [| left; exact Hfail | apply silent_readStore].
  apply bind_silent_inv in Hrun as [(storeData & Hfetch & Hrun) | Hfail];
    [| left; exact Hfail | apply fetchUserStoreData_silent].
  apply bind_silent_inv in Hrun as [(evidence & _ & Hrun) | Hfail];
    [| left; exact Hfail | apply getEvidenceForArbitrableContract_silent].
  replace (Dispute.firstSession dispute + Dispute.numberOfAppeals dispute
           - Dispute.firstSession dispute)
    with (Dispute.numberOfAppeals dispute) in Hrun by lia.
  right. exists dispute, data, storeData.
  unfold bind in Hrun.
  match type of Hrun with
  | context [appealLoop ?a ?b ?c ?d ?e ?f ?g ?h ?i ?j ?k] =>
      destruct (appealLoop a b c d e f g h i j k)
        as [[[rulings jurors] | e1 |] w1] eqn:Hloop
  end; inversion Hrun; subst; eexists; repeat (split; [eassumption |]).
  - split; [reflexivity |]. eexists. repeat split.
  - split; reflexivity.
  - split; reflexivity.
Qed.
End SilentMethods.

Section ViewEntries.
Variable _Arbitrator : Arbitrator.t.
Variable _ArbitrableContract : ArbitrableContract.t.
Variable arbitratorAddress account : address.
Variable disputeId : nat.

(** X6.  Whatever its outcome, [getDataForDispute] leaves the store as it
    was and needs no fuel; the only call it can add to the log is one
    consultation of [canRuleDispute], for the account and the dispute
    and with draws. *)
Theorem getDataForDispute_reads_only w o w' :
  getDataForDispute _Arbitrator _ArbitrableContract
    arbitratorAddress disputeId account w = (o, w') ->
  store w' = store w
  /\ o <> OutOfFuel
  /\ exists cs,
       calls w' = calls w ++ cs
       /\ length cs <= 1
       /\ Forall (fun c =>
                    exists draws,
                      draws <> []
                      /\ c = CallCanRuleDispute account disputeId draws) cs.
Proof.
  intros Hrun.
  destruct (getDataForDispute_readOnly _ _ _ _ _ _ _ _ Hrun)
    as [Hstore Hfuel].
  split; [exact Hstore |]. split; [exact Hfuel |].
  apply getDataForDispute_loop in Hrun
    as [[-> _] | (dispute & data & storeData & lo & _ & _ & _ & Hloop & _)].
  { exists []. rewrite app_nil_r. repeat split; [simpl; lia | constructor]. }
  apply appealLoop_log in Hloop as (cs & Hcalls & Hcs); [| apply NoDup_seq].
  exists cs. split; [exact Hcalls |].
  destruct Hcs as [-> | (_ & draws & Hne & ->)].
  - split; [simpl; lia | constructor].
  - split; [simpl; lia |]. repeat constructor. eauto.
Qed.

Lemma getDataForDispute_Ok_entries w v w' :
  getDataForDispute _Arbitrator _ArbitrableContract
    arbitratorAddress disputeId account w = (Ok v, w') ->
  exists dispute storeData,
    Arbitrator.getDispute _Arbitrator arbitratorAddress disputeId
    = Resolved (Some dispute)
    /\ fetchUserStoreData arbitratorAddress disputeId account w
       = (Ok storeData, w)
    /\ DisputeData.firstSession v = Dispute.firstSession dispute
    /\ DisputeData.numberOfAppeals v = Dispute.numberOfAppeals dispute
    /\ DisputeData.appealRuledAt v = usd_appealRuledAt storeData
    /\ Forall2 (rulingEntryOk _Arbitrator arbitratorAddress disputeId
                  dispute (usd_appealRuledAt storeData))
         (seq 0 (S (Dispute.numberOfAppeals dispute)))
         (DisputeData.appealRulings v)
    /\ Forall2 (jurorFeeOk _Arbitrator account disputeId dispute
                  (Dispute.firstSession dispute
                   + Dispute.numberOfAppeals dispute)
                  (usd_appealDraws storeData))
         (seq 0 (S (Dispute.numberOfAppeals dispute)))
         (DisputeData.appealJuror v)
    /\ store w' = store w
    /\ calls w'
       = calls w
         ++ consultations account disputeId
              (Dispute.firstSession dispute + Dispute.numberOfAppeals dispute)
              (usd_appealDraws storeData)
              (seq 0 (S (Dispute.numberOfAppeals dispute))).
Proof.
  intros Hrun.
  apply getDataForDispute_loop in Hrun
    as [[_ Hno] | (dispute & data & storeData & lo & Hdispute & _ & Hfetch
                   & Hloop & Hlo)]; [destruct (Hno v eq_refl) |].
  destruct lo as [[rulings jurors] | e |]; try discriminate.
  destruct Hlo as (v' & [= <-] & Hrulings & Hjurors & Hfirst & Happeals
                   & Hruled).
  apply appealLoop_entries in Hloop
    as (newRulings & newJurors & Hr & Hj & Hrentries & Hjentries & Hstore
        & Hcalls); [| apply NoDup_seq].
  simpl in Hr, Hj. subst rulings jurors.
  exists dispute, storeData. rewrite Hrulings, Hjurors.
  repeat (split; [assumption |]). assumption.
Qed.

Lemma world_eq (w w' : World) :
  store w' = store w -> calls w' = calls w -> w' = w.
Proof. destruct w, w'. simpl. intros -> ->. reflexivity. Qed.

(** X7.  For a dispute whose first session is not session 0, the
    aggregation never consults [canRuleDispute] and every appeal of the
    view has [canRule = false], whatever draws the participant holds:
    the loop compares the appeal index with [lastSession]. *)
Theorem getDataForDispute_later_session w v w' :
  getDataForDispute _Arbitrator _ArbitrableContract
    arbitratorAddress disputeId account w = (Ok v, w') ->
  DisputeData.firstSession v <> 0 ->
  w' = w
  /\ Forall (fun j => AppealJuror.canRule j = false)
       (DisputeData.appealJuror v).
Proof.
  intros Hrun Hfirst.
  apply getDataForDispute_Ok_entries in Hrun
    as (dispute & storeData & _ & _ & Hf & _ & _ & _ & Hjurors & Hstore
        & Hcalls).
  rewrite Hf in Hfirst. split.
  - apply world_eq; [exact Hstore |]. rewrite Hcalls.
    unfold consultations. rewrite existsb_eqb_false.
    + simpl. apply app_nil_r.
    + rewrite list_elem_of_In, in_seq. lia.
  - apply Forall_forall. intros j Hj.
    apply list_elem_of_lookup in Hj as [k Hk].
    destruct (Forall2_lookup_r _ _ _ _ _ Hjurors Hk) as (appeal & Ha & Hok).
    apply lookup_seq in Ha as [-> Hlt].
    destruct Hok as (_ & _ & Hrule & _).
    destruct (AppealJuror.canRule j); [| reflexivity].
    destruct (Hrule eq_refl) as [Heq _]. simpl in Heq. lia.
Qed.

(** X8.  For a dispute whose first session is session 0 and in whose
    final appeal the participant holds draws, the aggregation consults
    [canRuleDispute] exactly once, with those draws, and the final
    appeal's [canRule] is the answer. *)
Theorem getDataForDispute_consults w v w' j :
  getDataForDispute _Arbitrator _ArbitrableContract
    arbitratorAddress disputeId account w = (Ok v, w') ->
  DisputeData.firstSession v = 0 ->
  DisputeData.appealJuror v !! DisputeData.numberOfAppeals v = Some j ->
  AppealJuror.draws j <> [] ->
  Arbitrator.canRuleDispute _Arbitrator account disputeId
    (AppealJuror.draws j) = Resolved (AppealJuror.canRule j)
  /\ calls w'
     = calls w ++ [CallCanRuleDispute account disputeId (AppealJuror.draws j)].
Proof.
  intros Hrun Hfirst Hj Hne.
  apply getDataForDispute_Ok_entries in Hrun
    as (dispute & storeData & _ & _ & Hf & Hn & _ & _ & Hjurors & _
        & Hcalls).
  rewrite Hf in Hfirst. rewrite Hn in Hj.
  rewrite Hfirst, Nat.add_0_l in Hjurors, Hcalls.
  destruct (Forall2_lookup_r _ _ _ _ _ Hjurors Hj) as (appeal & Ha & Hok).
  apply lookup_seq in Ha as [Ha _]. simpl in Ha. subst appeal.
  destruct Hok as (Hdraws & _ & _ & Hanswer).
  split; [apply Hanswer; [reflexivity | exact Hne] |].
  rewrite Hcalls. unfold consultations. rewrite <- Hdraws.
  assert (Hin : existsb (Nat.eqb (Dispute.numberOfAppeals dispute))
                  (seq 0 (S (Dispute.numberOfAppeals dispute))) = true).
  { apply existsb_exists. exists (Dispute.numberOfAppeals dispute).
    split; [apply in_seq; lia | apply Nat.eqb_refl]. }
  rewrite Hin.
  destruct (AppealJuror.draws j); [congruence | reflexivity].
Qed.

(** X9.  A returned view has one ruling entry per appeal index
    [0..numberOfAppeals]; entry [k] carries the ledger's current ruling
    for appeal [k], the vote counter and the stored ruling time at
    index [k], and the deadline [1000 * (lastPeriodChange +
    getTimeForPeriod k)]: the appeal index is passed as the period. *)
Theorem getDataForDispute_appealRulings w v w' :
  getDataForDispute _Arbitrator _ArbitrableContract
    arbitratorAddress disputeId account w = (Ok v, w') ->
  exists dispute,
    Arbitrator.getDispute _Arbitrator arbitratorAddress disputeId
    = Resolved (Some dispute)
    /\ length (DisputeData.appealRulings v)
       = S (DisputeData.numberOfAppeals v)
    /\ forall k r,
         DisputeData.appealRulings v !! k = Some r ->
         rulingEntryOk _Arbitrator arbitratorAddress disputeId dispute
           (DisputeData.appealRuledAt v) k r.
Proof.
  intros Hrun.
  apply getDataForDispute_Ok_entries in Hrun
    as (dispute & storeData & Hdispute & _ & _ & Hn & Hruled & Hrulings & _).
  exists dispute. split; [exact Hdispute |]. split.
  - apply Forall2_length in Hrulings. rewrite length_seq in Hrulings.
    congruence.
  - intros k r Hk.
    destruct (Forall2_lookup_r _ _ _ _ _ Hrulings Hk) as (appeal & Ha & Hok).
    apply lookup_seq in Ha as [-> _]. rewrite Hruled. exact Hok.
Qed.

(** X10.  In a returned view the juror entry of appeal [k] carries the
    draws stored for the participant at index [k] (none when the store
    has none there) and the fee [arbitrationFeePerJuror * draws.length],
    which is 0 without draws. *)
Theorem getDataForDispute_fees w v w' :
  getDataForDispute _Arbitrator _ArbitrableContract
    arbitratorAddress disputeId account w = (Ok v, w') ->
  exists dispute,
    Arbitrator.getDispute _Arbitrator arbitratorAddress disputeId
    = Resolved (Some dispute)
    /\ forall k j,
         DisputeData.appealJuror v !! k = Some j ->
         AppealJuror.fee j
         = Dispute.arbitrationFeePerJuror dispute
           * length (AppealJuror.draws j)
         /\ (AppealJuror.draws j = [] -> AppealJuror.fee j = 0)
         /\ forall stored,
              account <> "" ->
              StoreProvider.getDisputeData arbitratorAddress disputeId
                account (store w) = Resolved stored ->
              AppealJuror.draws j
              = orEmpty (js_get (orEmpty (StoredDispute.appealDraws stored))
                           k).
Proof.
  intros Hrun.
  apply getDataForDispute_Ok_entries in Hrun
    as (dispute & storeData & Hdispute & Hfetch & _ & _ & _ & _ & Hjurors
        & _).
  exists dispute. split; [exact Hdispute |].
  intros k j Hk.
  destruct (Forall2_lookup_r _ _ _ _ _ Hjurors Hk) as (appeal & Ha & Hok).
  apply lookup_seq in Ha as [Ha _]. simpl in Ha. subst appeal.
  destruct Hok as (Hdraws & Hfee & _).
  split; [exact Hfee |]. split.
  - intros Hnone. rewrite Hfee, Hnone. simpl. lia.
  - intros stored Haccount Hstored.
    rewrite (fetchUserStoreData_present _ _ _ _ _ Haccount Hstored) in Hfetch.
    inversion Hfetch; subst storeData. exact Hdraws.
Qed.
End ViewEntries.

(** X11.  Called without an account (the empty string), [getDataForDispute]
    does not read the participant's record: the view has [netPNK = 0],
    empty timestamp arrays and no draws, whatever the store holds, and
    the world is left as it was. *)
Theorem getDataForDispute_no_account (_Arbitrator : Arbitrator.t)
    (_ArbitrableContract : ArbitrableContract.t)
    (arbitratorAddress : address) (disputeId : nat) (w w' : World)
    (v : DisputeData.t) :
  getDataForDispute _Arbitrator _ArbitrableContract
    arbitratorAddress disputeId "" w = (Ok v, w') ->
  w' = w
  /\ DisputeData.netPNK v = 0%Z
  /\ DisputeData.appealCreatedAt v = []
  /\ DisputeData.appealRuledAt v = []
  /\ Forall (fun j => AppealJuror.draws j = []
                      /\ AppealJuror.fee j = 0
                      /\ AppealJuror.canRule j = false)
       (DisputeData.appealJuror v).
Proof.
  intros Hrun.
  destruct (getDataForDispute_Ok_inv _ _ _ _ _ _ _ _ Hrun)
    as (_ & _ & sd & _ & _ & _ & Hfetch0 & _ & _ & _ & _ & _ & _ & _ & _ & _
        & Hnet & Hcreated & _).
  apply getDataForDispute_Ok_entries in Hrun
    as (dispute & storeData & _ & Hfetch & _ & _ & Hruled & _ & Hjurors
        & Hstore & Hcalls).
  rewrite Hfetch in Hfetch0. inversion Hfetch0; subst sd.
  inversion Hfetch; subst storeData. simpl in *.
  assert (Hentries : Forall (fun j => AppealJuror.draws j = []
                                      /\ AppealJuror.fee j = 0
                                      /\ AppealJuror.canRule j = false)
                       (DisputeData.appealJuror v)).
  { apply Forall_forall. intros j Hj.
    apply list_elem_of_lookup in Hj as [k Hk].
    destruct (Forall2_lookup_r _ _ _ _ _ Hjurors Hk) as (appeal & _ & Hok).
    destruct Hok as (Hdraws & Hfee & Hrule & _). simpl in Hdraws.
    split; [exact Hdraws |]. split; [rewrite Hfee, Hdraws; simpl; lia |].
    destruct (AppealJuror.canRule j); [| reflexivity].
    destruct (Hrule eq_refl) as [_ Hne]. contradiction. }
  split; [| auto].
  apply world_eq; [exact Hstore |]. rewrite Hcalls.
  unfold consultations. simpl. rewrite andb_false_r. apply app_nil_r.
Qed.

(** ** The view entries on the sample ledger *)

Lemma getDataForDispute_reads_only_witness :
  store (snd (getDataForDispute Fixture.ledger Fixture.arbitrable
                Fixture.arbitrator 2 Fixture.juror Fixture.trackedWorld))
  = Fixture.trackedStore
  /\ fst (getDataForDispute Fixture.ledger Fixture.arbitrable
            Fixture.arbitrator 2 Fixture.juror Fixture.trackedWorld)
     <> OutOfFuel.
Proof.
  destruct (getDataForDispute_reads_only Fixture.ledger Fixture.arbitrable
              Fixture.arbitrator Fixture.juror 2 Fixture.trackedWorld _ _
              (surjective_pairing _)) as (Hstore & Hfuel & _).
  split; [exact Hstore | exact Hfuel].
Defined.

Lemma getDataForDispute_later_session_witness :
  getDataForDispute Fixture.ledger Fixture.arbitrable
    Fixture.arbitrator 0 Fixture.juror Fixture.trackedWorld
  = (Ok Sample.view0, Fixture.trackedWorld)
  /\ DisputeData.firstSession Sample.view0 <> 0
  /\ Forall (fun j => AppealJuror.canRule j = false)
       (DisputeData.appealJuror Sample.view0).
Proof.
  assert (Hrun : getDataForDispute Fixture.ledger Fixture.arbitrable
                   Fixture.arbitrator 0 Fixture.juror Fixture.trackedWorld
                 = (Ok Sample.view0, Fixture.trackedWorld))
    by (vm_compute; reflexivity).
  assert (Hfirst : DisputeData.firstSession Sample.view0 <> 0)
    by discriminate.
  split; [exact Hrun |]. split; [exact Hfirst |].
  exact (proj2 (getDataForDispute_later_session _ _ _ _ _ _ _ _ Hrun Hfirst)).
Defined.

Lemma getDataForDispute_consults_witness :
  getDataForDispute Fixture.ledger Fixture.arbitrable
    Fixture.arbitrator 2 Fixture.juror Fixture.trackedWorld
  = (Ok Fixture.view2, Fixture.trackedWorldConsulted)
  /\ Arbitrator.canRuleDispute Fixture.ledger Fixture.juror 2 [1; 3]
     = Resolved true
  /\ calls Fixture.trackedWorldConsulted
     = calls Fixture.trackedWorld ++ [CallCanRuleDispute Fixture.juror 2 [1; 3]].
Proof.
  assert (Hrun : getDataForDispute Fixture.ledger Fixture.arbitrable
                   Fixture.arbitrator 2 Fixture.juror Fixture.trackedWorld
                 = (Ok Fixture.view2, Fixture.trackedWorldConsulted))
    by (vm_compute; reflexivity).
  split; [exact Hrun |].
  apply (getDataForDispute_consults _ _ _ _ _ _ _ _
           {| AppealJuror.fee := 20; AppealJuror.draws := [1; 3];
              AppealJuror.canRule := true |} Hrun);
    [reflexivity | reflexivity | discriminate].
Defined.

Lemma getDataForDispute_appealRulings_witness :
  getDataForDispute Fixture.ledger Fixture.arbitrable
    Fixture.arbitrator 2 Fixture.juror Fixture.trackedWorld
  = (Ok Fixture.view2, Fixture.trackedWorldConsulted)
  /\ exists dispute,
       Arbitrator.getDispute Fixture.ledger Fixture.arbitrator 2
       = Resolved (Some dispute)
       /\ length (DisputeData.appealRulings Fixture.view2) = 2.
Proof.
  assert (Hrun : getDataForDispute Fixture.ledger Fixture.arbitrable
                   Fixture.arbitrator 2 Fixture.juror Fixture.trackedWorld
                 = (Ok Fixture.view2, Fixture.trackedWorldConsulted))
    by (vm_compute; reflexivity).
  split; [exact Hrun |].
  destruct (getDataForDispute_appealRulings _ _ _ _ _ _ _ _ Hrun)
    as (dispute & Hdispute & Hlen & _).
  exists dispute. split; [exact Hdispute | exact Hlen].
Defined.

Lemma getDataForDispute_fees_witness :
  getDataForDispute Fixture.ledger Fixture.arbitrable
    Fixture.arbitrator 2 Fixture.juror Fixture.trackedWorld
  = (Ok Fixture.view2, Fixture.trackedWorldConsulted)
  /\ exists dispute,
       Arbitrator.getDispute Fixture.ledger Fixture.arbitrator 2
       = Resolved (Some dispute)
       /\ 20 = Dispute.arbitrationFeePerJuror dispute * length [1; 3].
Proof.
  assert (Hrun : getDataForDispute Fixture.ledger Fixture.arbitrable
                   Fixture.arbitrator 2 Fixture.juror Fixture.trackedWorld
                 = (Ok Fixture.view2, Fixture.trackedWorldConsulted))
    by (vm_compute; reflexivity).
  split; [exact Hrun |].
  destruct (getDataForDispute_fees _ _ _ _ _ _ _ _ Hrun)
    as (dispute & Hdispute & Hentries).
  exists dispute. split; [exact Hdispute |].
  exact (proj1 (Hentries 1 {| AppealJuror.fee := 20;
                              AppealJuror.draws := [1; 3];
                              AppealJuror.canRule := true |} eq_refl)).
Defined.

Lemma getDataForDispute_no_account_witness :
  getDataForDispute Fixture.ledger Fixture.arbitrable
    Fixture.arbitrator 0 "" Fixture.trackedWorld
  = (Ok Sample.view0Anonymous, Fixture.trackedWorld)
  /\ DisputeData.netPNK Sample.view0Anonymous = 0%Z
  /\ DisputeData.appealCreatedAt Sample.view0Anonymous = [].
Proof.
  assert (Hrun : getDataForDispute Fixture.ledger Fixture.arbitrable
                   Fixture.arbitrator 0 "" Fixture.trackedWorld
                 = (Ok Sample.view0Anonymous, Fixture.trackedWorld))
    by (vm_compute; reflexivity).
  split; [exact Hrun |].
  destruct (getDataForDispute_no_account _ _ _ _ _ _ _ Hrun)
    as (_ & Hnet & Hcreated & _).
  split; [exact Hnet | exact Hcreated].
Defined.

(** ** The outcomes of a merge *)

Section MergeOutcomes.
Variable _Arbitrator : Arbitrator.t.
Variable _ArbitrableContract : ArbitrableContract.t.
Variable arbitratorAddress account : address.
Variable disputeId : nat.

(** The draws of a juror do not depend on the world they are read in. *)
Lemma getDrawsForJuror_any_world w o w' :
  getDrawsForJuror _Arbitrator arbitratorAddress disputeId account w
  = (o, w') ->
  forall w0,
    getDrawsForJuror _Arbitrator arbitratorAddress disputeId account w0
    = (o, w0).
Proof.
  unfold getDrawsForJuror, bind.
  destruct (Arbitrator.getAmountOfJurorsForDispute _ _ _) as [n | e]; simpl.
  2:{ intros [= <- _] w0. reflexivity. }
  generalize (@nil nat). generalize (seq 1 n). intros slots.
  induction slots as [| draw rest IH]; intros draws; simpl.
  - intros [= <- _] w0. reflexivity.
  - unfold bind.
    destruct (Arbitrator.isJurorDrawnForDispute _ _ _ _ _) as [b | e]; simpl.
    + apply IH.
    + intros [= <- _] w0. reflexivity.
Qed.

(** The three ways a merge can end once the aggregation has returned:
    before the profile write, with the dispute document written, or
    after it. *)
Lemma updateStoreForDispute_after_view createdAt ruledAt w v w1 o w' :
  getDataForDispute _Arbitrator _ArbitrableContract
    arbitratorAddress disputeId account w = (Ok v, w1) ->
  _updateStoreForDispute _Arbitrator _ArbitrableContract
    arbitratorAddress disputeId account createdAt ruledAt w = (o, w') ->
  let doc := mergedDocument v createdAt ruledAt in
  let stored := storedDraws arbitratorAddress disputeId account (store w) in
  (store w' = StoreProvider.updateDispute doc (store w)
   /\ calls w' = calls w1 ++ [CallUpdateDispute doc]
   /\ exists e,
        o = Throw e
        /\ (Arbitrator.getSession _Arbitrator arbitratorAddress = Rejected e
            \/ (Arbitrator.getSession _Arbitrator arbitratorAddress
                = Resolved (DisputeData.lastSession v)
                /\ forall w0,
                     getDrawsForJuror _Arbitrator arbitratorAddress
                       disputeId account w0 = (Throw e, w0))))
  \/ exists currentSession draws,
       Arbitrator.getSession _Arbitrator arbitratorAddress
       = Resolved currentSession
       /\ (if bool_decide (DisputeData.lastSession v = currentSession)
           then exists sessionDraws,
                  (forall w0,
                      getDrawsForJuror _Arbitrator arbitratorAddress
                        disputeId account w0 = (Ok sessionDraws, w0))
                  /\ draws
                     = Some (js_set (orEmpty stored)
                               (DisputeData.numberOfAppeals v) sessionDraws)
           else draws = stored)
       /\ o = Ok doc
       /\ store w'
          = StoreProvider.updateDisputeProfile account draws
              arbitratorAddress disputeId
              (orZero (Some (DisputeData.netPNK v)))
              (StoreProvider.updateDispute doc (store w))
       /\ calls w'
          = calls w1
            ++ [CallUpdateDispute doc;
                CallUpdateDisputeProfile account draws arbitratorAddress
                  disputeId (orZero (Some (DisputeData.netPNK v)))].
Proof.
  intros Hdata Hrun doc stored.
  destruct (getDataForDispute_readOnly _ _ _ _ _ _ _ _ Hdata)
    as [Hstore1 _].
  destruct (getDataForDispute_Ok_inv _ _ _ _ _ _ _ _ Hdata)
    as (_ & _ & _ & _ & _ & _ & _ & _ & Harb & Hid & _).
  revert Hrun. unfold _updateStoreForDispute.
  rewrite (bind_Ok _ _ _ _ _ Hdata).
  fold (mergedDocument v createdAt ruledAt). fold doc.
  unfold bind at 1, writeStore at 1. rewrite Hstore1.
  pose proof (getDisputeData_updateDispute doc account (store w)) as Hget.
  change (DisputeDoc.arbitratorAddress doc)
    with (DisputeData.arbitratorAddress v) in Hget.
  change (DisputeDoc.disputeId doc) with (DisputeData.disputeId v) in Hget.
  rewrite Harb, Hid in Hget. rewrite Harb, Hid.
  unfold bind at 1. unfold bind at 1. unfold readStore at 1.
  cbn [store]. rewrite Hget. cbn [await ret].
  unfold bind at 1.
  destruct (Arbitrator.getSession _Arbitrator arbitratorAddress)
    as [currentSession | e]; cbn [await ret throw].
  2:{ intros [= <- <-]. left. cbn [store calls]. eauto 10. }
  unfold bind at 1. cbn [StoredDispute.appealDraws].
  fold (storedDraws arbitratorAddress disputeId account (store w)).
  fold stored.
  destruct (bool_decide (DisputeData.lastSession v = currentSession))
    eqn:Hsession.
  - apply bool_decide_eq_true_1 in Hsession.
    unfold bind at 1.
    match goal with
    | |- context [getDrawsForJuror ?a ?b ?c ?d ?x] =>
        destruct (getDrawsForJuror a b c d x) as [[sessionDraws | e |] w3]
          eqn:Hdraws;
        pose proof (getDrawsForJuror_silent _ _ _ _ _ _ _ Hdraws) as ->;
        pose proof (getDrawsForJuror_any_world _ _ _ Hdraws) as Hany
    end.
    + cbn [ret]. unfold bind at 1, writeStore at 1. cbn [ret].
      intros [= <- <-]. right. exists currentSession. eexists.
      split; [reflexivity |]. rewrite bool_decide_eq_true_2 by exact Hsession.
      split; [eauto |]. cbn [store calls].
      rewrite <- app_assoc. auto.
    + intros [= <- <-]. left. cbn [store calls].
      split; [reflexivity |]. split; [reflexivity |].
      exists e. split; [reflexivity |]. right. subst currentSession. auto.
    + exfalso.
      destruct (getDrawsForJuror_readOnly _ _ _ _ _ _ _ Hdraws) as [_ Hfuel].
      contradiction.
  - cbn [ret]. unfold bind at 1, writeStore at 1. cbn [ret].
    intros [= <- <-]. right. exists currentSession. eexists.
    split; [reflexivity |]. rewrite Hsession.
    split; [reflexivity |]. cbn [store calls].
    rewrite <- app_assoc. auto.
Qed.
End MergeOutcomes.

(** ** What the store writes of a merge touch *)

Lemma profileEntry_updateDisputeProfile_same account draws arbitratorAddress
    disputeId netPNK s :
  StoreProvider.profileEntry arbitratorAddress disputeId account
    (StoreProvider.updateDisputeProfile account draws arbitratorAddress
       disputeId netPNK s)
  = Some {| ProfileDispute.disputeId := disputeId;
            ProfileDispute.arbitratorAddress := arbitratorAddress;
            ProfileDispute.appealDraws := draws;
            ProfileDispute.netPNK := Some netPNK |}.
Proof.
  unfold StoreProvider.profileEntry, StoreProvider.updateDisputeProfile.
  simpl. rewrite lookup_insert_eq. simpl.
  apply entryFor_upsert_same; reflexivity.
Qed.

Lemma profileEntry_updateDisputeProfile_ne account draws arbitratorAddress
    disputeId netPNK s arbitratorAddress' disputeId' :
  (arbitratorAddress', disputeId') <> (arbitratorAddress, disputeId) ->
  StoreProvider.profileEntry arbitratorAddress' disputeId' account
    (StoreProvider.updateDisputeProfile account draws arbitratorAddress
       disputeId netPNK s)
  = StoreProvider.profileEntry arbitratorAddress' disputeId' account s.
Proof.
  intros Hne.
  unfold StoreProvider.profileEntry, StoreProvider.updateDisputeProfile.
  simpl. rewrite lookup_insert_eq. simpl.
  rewrite entryFor_upsert_ne by (simpl; intros [= H1 H2]; apply Hne;
                                 congruence).
  destruct (StoreProvider.profiles s !! account); reflexivity.
Qed.

Section MergeFrame.
Variable _Arbitrator : Arbitrator.t.
Variable _ArbitrableContract : ArbitrableContract.t.
Variable arbitratorAddress account : address.
Variable disputeId : nat.

(** X12.  Whatever its outcome, a merge touches nothing in the store but
    the document of its dispute and the entry of that dispute in the
    profile of its account: the contract records, the notifications, the
    documents of other disputes, the profiles of other accounts, the
    account's entries for other disputes and its session stay as they
    were. *)
Theorem updateStoreForDispute_frame createdAt ruledAt w o w' :
  _updateStoreForDispute _Arbitrator _ArbitrableContract
    arbitratorAddress disputeId account createdAt ruledAt w = (o, w') ->
  StoreProvider.contracts (store w') = StoreProvider.contracts (store w)
  /\ StoreProvider.notifications (store w')
     = StoreProvider.notifications (store w)
  /\ (forall key,
         key <> (arbitratorAddress, disputeId) ->
         StoreProvider.disputes (store w') !! key
         = StoreProvider.disputes (store w) !! key)
  /\ (forall other,
         other <> account ->
         StoreProvider.profiles (store w') !! other
         = StoreProvider.profiles (store w) !! other)
  /\ (forall arbitratorAddress' disputeId',
         (arbitratorAddress', disputeId') <> (arbitratorAddress, disputeId) ->
         StoreProvider.profileEntry arbitratorAddress' disputeId' account
           (store w')
         = StoreProvider.profileEntry arbitratorAddress' disputeId' account
             (store w))
  /\ StoreProvider.profiles (store w') !! account ≫= UserProfile.session
     = StoreProvider.profiles (store w) !! account ≫= UserProfile.session.
Proof.
  intros Hrun.
  apply updateStoreForDispute_effect in Hrun
    as [-> | (v & doc & _ & Harb & Hid & _ & _
              & [-> | (draws & netPNK & -> & _)])].
  - repeat split; reflexivity.
  - unfold StoreProvider.updateDispute. simpl. rewrite Harb, Hid.
    repeat split; try reflexivity.
    intros key Hkey. apply lookup_insert_ne. congruence.
  - split; [reflexivity |]. split; [reflexivity |].
    split.
    { intros key Hkey. simpl. rewrite Harb, Hid.
      apply lookup_insert_ne. congruence. }
    split.
    { intros other Hother. simpl. apply lookup_insert_ne. congruence. }
    split.
    { intros arbitratorAddress' disputeId' Hne.
      rewrite profileEntry_updateDisputeProfile_ne by exact Hne.
      reflexivity. }
    simpl. rewrite lookup_insert_eq. simpl.
    destruct (StoreProvider.profiles (store w) !! account); reflexivity.
Qed.
End MergeFrame.

Lemma updateStoreForDispute_frame_witness :
  StoreProvider.contracts
    (store (snd (_updateStoreForDispute Fixture.ledger Fixture.arbitrable
                   Fixture.arbitrator 0 Fixture.alice (Some 2000%Z) None
                   Fixture.trackedWorld)))
  = StoreProvider.contracts Fixture.trackedStore
  /\ StoreProvider.profiles
       (store (snd (_updateStoreForDispute Fixture.ledger Fixture.arbitrable
                      Fixture.arbitrator 0 Fixture.alice (Some 2000%Z) None
                      Fixture.trackedWorld))) !! Fixture.juror
     = StoreProvider.profiles Fixture.trackedStore !! Fixture.juror.
Proof.
  destruct (updateStoreForDispute_frame Fixture.ledger Fixture.arbitrable
              Fixture.arbitrator Fixture.alice 0 (Some 2000%Z) None
              Fixture.trackedWorld _ _ (surjective_pairing _))
    as (Hcontracts & _ & _ & Hprofiles & _).
  split; [exact Hcontracts |]. apply Hprofiles. discriminate.
Defined.

Lemma orZero_idem x : orZero (Some (orZero (Some (orZero x)))) = orZero x.
Proof.
  destruct x as [z |]; [| reflexivity]. unfold orZero.
  destruct (Z.eqb z 0) eqn:Hz; simpl; rewrite ?Hz; simpl; rewrite ?Hz;
    reflexivity.
Qed.

Section MergeResults.
Variable _Arbitrator : Arbitrator.t.
Variable _ArbitrableContract : ArbitrableContract.t.
Variable arbitratorAddress account : address.
Variable disputeId : nat.

Lemma updateStoreForDispute_Ok_view createdAt ruledAt w d w' :
  _updateStoreForDispute _Arbitrator _ArbitrableContract
    arbitratorAddress disputeId account createdAt ruledAt w = (Ok d, w') ->
  exists v w1,
    getDataForDispute _Arbitrator _ArbitrableContract
      arbitratorAddress disputeId account w = (Ok v, w1).
Proof.
  unfold _updateStoreForDispute. unfold bind at 1.
  destruct (getDataForDispute _ _ _ _ _ w) as [[v | e |] w1];
    [eauto | discriminate | discriminate].
Qed.

Lemma updateStoreForDispute_no_view createdAt ruledAt w o1 w1 o w' :
  getDataForDispute _Arbitrator _ArbitrableContract
    arbitratorAddress disputeId account w = (o1, w1) ->
  (forall v, o1 <> Ok v) ->
  _updateStoreForDispute _Arbitrator _ArbitrableContract
    arbitratorAddress disputeId account createdAt ruledAt w = (o, w') ->
  store w' = store w /\ forall d, o <> Ok d.
Proof.
  intros Hdata Hno. unfold _updateStoreForDispute. unfold bind at 1.
  rewrite Hdata.
  destruct (getDataForDispute_readOnly _ _ _ _ _ _ _ _ Hdata) as [Hstore _].
  destruct o1 as [v | e |]; [destruct (Hno v eq_refl) | |];
    intros [= <- <-]; (split; [exact Hstore | discriminate]).
Qed.

Lemma getDataForDispute_log w o w' :
  getDataForDispute _Arbitrator _ArbitrableContract
    arbitratorAddress disputeId account w = (o, w') ->
  exists cs,
    calls w' = calls w ++ cs /\ Forall (fun c => ~ isStoreWrite c) cs.
Proof.
  intros Hrun.
  apply getDataForDispute_loop in Hrun
    as [[-> _] | (dispute & data & storeData & lo & _ & _ & _ & Hloop & _)].
  { exists []. rewrite app_nil_r. split; [reflexivity | constructor]. }
  apply appealLoop_log in Hloop as (cs & Hcalls & Hcs); [| apply NoDup_seq].
  exists cs. split; [exact Hcalls |].
  destruct Hcs as [-> | (_ & draws & _ & ->)]; repeat constructor.
  simpl. auto.
Qed.

(** X13.  A merge that returns has made exactly two store writes, in
    this order: [updateDispute] with the document it returns, then
    [updateDisputeProfile] for its account and dispute.  Afterwards the
    store holds the returned document for the dispute and the profile
    of the account lists the dispute. *)
Theorem updateStoreForDispute_success createdAt ruledAt w d w' :
  _updateStoreForDispute _Arbitrator _ArbitrableContract
    arbitratorAddress disputeId account createdAt ruledAt w = (Ok d, w') ->
  StoreProvider.disputes (store w') !! (arbitratorAddress, disputeId) = Some d
  /\ (exists entry,
         StoreProvider.profileEntry arbitratorAddress disputeId account
           (store w') = Some entry
         /\ ProfileDispute.disputeId entry = disputeId
         /\ ProfileDispute.arbitratorAddress entry = arbitratorAddress)
  /\ exists reads draws netPNK,
       calls w'
       = calls w ++ reads
         ++ [CallUpdateDispute d;
             CallUpdateDisputeProfile account draws arbitratorAddress
               disputeId netPNK]
       /\ Forall (fun c => ~ isStoreWrite c) reads.
Proof.
  intros Hrun.
  destruct (updateStoreForDispute_Ok_view _ _ _ _ _ Hrun) as (v & w1 & Hdata).
  destruct (getDataForDispute_Ok_inv _ _ _ _ _ _ _ _ Hdata)
    as (_ & _ & _ & _ & _ & _ & _ & _ & Harb & Hid & _).
  destruct (getDataForDispute_log _ _ _ Hdata) as (reads & Hreads & Hsilent).
  destruct (updateStoreForDispute_after_view _ _ _ _ _ _ _ _ _ _ _ _
              Hdata Hrun)
    as [(_ & _ & e & Hthrow & _)
       | (currentSession & draws & _ & _ & Hd & Hstore & Hcalls)];
    [discriminate |].
  injection Hd as ->. rewrite Hstore. split.
  - simpl. rewrite Harb, Hid. apply lookup_insert_eq.
  - split.
    + rewrite profileEntry_updateDisputeProfile_same. eexists.
      repeat split.
    + exists reads, draws, (orZero (Some (DisputeData.netPNK v))).
      split; [| exact Hsilent]. rewrite Hcalls, Hreads, <- app_assoc.
      reflexivity.
Qed.

(** X14.  A merge into an existing record never changes the
    participant's [netPNK] for the dispute, whatever its outcome. *)
Theorem updateStoreForDispute_netPNK createdAt ruledAt w o w' before :
  account <> "" ->
  StoreProvider.getDisputeData arbitratorAddress disputeId account (store w)
  = Resolved before ->
  _updateStoreForDispute _Arbitrator _ArbitrableContract
    arbitratorAddress disputeId account createdAt ruledAt w = (o, w') ->
  storedNetPNK arbitratorAddress disputeId account (store w')
  = storedNetPNK arbitratorAddress disputeId account (store w).
Proof.
  intros Haccount Hbefore Hrun.
  destruct (getDataForDispute _Arbitrator _ArbitrableContract
              arbitratorAddress disputeId account w) as [[v | e |] w1]
    eqn:Hdata.
  2:{ destruct (updateStoreForDispute_no_view _ _ _ _ _ _ _ Hdata
                  ltac:(discriminate) Hrun) as [-> _]. reflexivity. }
  2:{ destruct (updateStoreForDispute_no_view _ _ _ _ _ _ _ Hdata
                  ltac:(discriminate) Hrun) as [-> _]. reflexivity. }
  destruct (updateStoreForDispute_after_view _ _ _ _ _ _ _ _ _ _ _ _
              Hdata Hrun)
    as [(-> & _) | (currentSession & draws & _ & _ & _ & -> & _)];
    [reflexivity |].
  unfold storedNetPNK at 1.
  rewrite profileEntry_updateDisputeProfile_same. simpl.
  apply getDataForDispute_Ok_inv in Hdata
    as (_ & _ & storeData & _ & _ & _ & Hfetch & _ & _ & _ & _ & _ & _ & _
        & _ & _ & Hnet & _).
  rewrite (fetchUserStoreData_present _ _ _ _ _ Haccount Hbefore) in Hfetch.
  inversion Hfetch; subst storeData. simpl in Hnet. rewrite Hnet.
  assert (Hentry : StoredDispute.netPNK before
                   = StoreProvider.profileEntry arbitratorAddress disputeId
                       account (store w) ≫= ProfileDispute.netPNK).
  { revert Hbefore. unfold StoreProvider.getDisputeData.
    destruct (StoreProvider.disputes (store w) !! _); [| discriminate].
    intros [= <-]. reflexivity. }
  unfold storedNetPNK. rewrite <- Hentry. apply orZero_idem.
Qed.

(** X15.  A merge is not atomic: when the session read fails after the
    aggregation has returned, the merge throws the error of that read,
    the dispute document has been written and the profile has not. *)
Theorem updateStoreForDispute_partial createdAt ruledAt w v w1 e :
  getDataForDispute _Arbitrator _ArbitrableContract
    arbitratorAddress disputeId account w = (Ok v, w1) ->
  Arbitrator.getSession _Arbitrator arbitratorAddress = Rejected e ->
  exists w',
    _updateStoreForDispute _Arbitrator _ArbitrableContract
      arbitratorAddress disputeId account createdAt ruledAt w = (Throw e, w')
    /\ StoreProvider.disputes (store w') !! (arbitratorAddress, disputeId)
       = Some (mergedDocument v createdAt ruledAt)
    /\ StoreProvider.profiles (store w') = StoreProvider.profiles (store w)
    /\ calls w'
       = calls w1 ++ [CallUpdateDispute (mergedDocument v createdAt ruledAt)].
Proof.
  intros Hdata Hsession.
  destruct (_updateStoreForDispute _Arbitrator _ArbitrableContract
              arbitratorAddress disputeId account createdAt ruledAt w)
    as [o w'] eqn:Hrun.
  destruct (getDataForDispute_Ok_inv _ _ _ _ _ _ _ _ Hdata)
    as (_ & _ & _ & _ & _ & _ & _ & _ & Harb & Hid & _).
  destruct (updateStoreForDispute_after_view _ _ _ _ _ _ _ _ _ _ _ _
              Hdata Hrun)
    as [(Hstore & Hcalls & e' & -> & [Hrej | [Hres _]])
       | (currentSession & draws & Hres & _)]; try congruence.
  assert (e' = e) as -> by congruence.
  exists w'. split; [reflexivity |]. rewrite Hstore.
  split; [simpl; rewrite Harb, Hid; apply lookup_insert_eq |].
  split; [reflexivity | exact Hcalls].
Qed.

(** X16.  After a merge that returns, the draws stored for the
    participant are rewritten at the current appeal index with the
    draws that [getDrawsForJuror] returns when the dispute is in the
    arbitrator's current session and are left entirely as they were
    when it is not; the other indices are never touched. *)
Theorem updateStoreForDispute_session_draws createdAt ruledAt w d w' :
  _updateStoreForDispute _Arbitrator _ArbitrableContract
    arbitratorAddress disputeId account createdAt ruledAt w = (Ok d, w') ->
  exists dispute currentSession,
    Arbitrator.getDispute _Arbitrator arbitratorAddress disputeId
    = Resolved (Some dispute)
    /\ Arbitrator.getSession _Arbitrator arbitratorAddress
       = Resolved currentSession
    /\ (Dispute.firstSession dispute + Dispute.numberOfAppeals dispute
        = currentSession ->
        exists sessionDraws,
          getDrawsForJuror _Arbitrator arbitratorAddress disputeId account w'
          = (Ok sessionDraws, w')
          /\ js_get (orEmpty (storedDraws arbitratorAddress disputeId account
                                (store w')))
               (Dispute.numberOfAppeals dispute) = Some sessionDraws
          /\ forall k,
               k <> Dispute.numberOfAppeals dispute ->
               js_get (orEmpty (storedDraws arbitratorAddress disputeId
                                  account (store w'))) k
               = js_get (orEmpty (storedDraws arbitratorAddress disputeId
                                    account (store w))) k)
    /\ (Dispute.firstSession dispute + Dispute.numberOfAppeals dispute
        <> currentSession ->
        storedDraws arbitratorAddress disputeId account (store w')
        = storedDraws arbitratorAddress disputeId account (store w)).
Proof.
  intros Hrun.
  destruct (updateStoreForDispute_Ok_view _ _ _ _ _ Hrun) as (v & w1 & Hdata).
  destruct (getDataForDispute_Ok_inv _ _ _ _ _ _ _ _ Hdata)
    as (dispute & _ & _ & _ & Hdispute & _ & _ & _ & _ & _ & _ & _ & _ & _
        & Hn & Hlast & _).
  destruct (updateStoreForDispute_after_view _ _ _ _ _ _ _ _ _ _ _ _
              Hdata Hrun)
    as [(_ & _ & e & Hthrow & _)
       | (currentSession & draws & Hsession & Hdraws & _ & Hstore & _)];
    [discriminate |].
  exists dispute, currentSession.
  split; [exact Hdispute |]. split; [exact Hsession |].
  assert (Hafter : storedDraws arbitratorAddress disputeId account (store w')
                   = draws).
  { unfold storedDraws. rewrite Hstore.
    rewrite profileEntry_updateDisputeProfile_same. reflexivity. }
  rewrite Hafter, <- Hlast, <- Hn. split.
  - intros Hcurrent.
    rewrite bool_decide_eq_true_2 in Hdraws by exact Hcurrent.
    destruct Hdraws as (sessionDraws & Hany & ->).
    exists sessionDraws. split; [apply Hany |]. simpl.
    split; [apply js_get_set_eq |].
    intros k Hk. apply js_get_set_ne. exact Hk.
  - intros Hother.
    rewrite bool_decide_eq_false_2 in Hdraws by exact Hother.
    exact Hdraws.
Qed.

(** X17.  The first merge of a dispute that the store does not hold yet
    creates its record: the participant's [netPNK] is 0, and each
    timestamp array holds the timestamp given, at the dispute's current
    appeal index, and nothing else (it is empty when the timestamp is
    absent or zero). *)
Theorem updateStoreForDispute_first_merge createdAt ruledAt w d w' :
  StoreProvider.disputes (store w) !! (arbitratorAddress, disputeId) = None ->
  _updateStoreForDispute _Arbitrator _ArbitrableContract
    arbitratorAddress disputeId account createdAt ruledAt w = (Ok d, w') ->
  exists after n,
    currentAppeal _Arbitrator arbitratorAddress disputeId n
    /\ StoreProvider.getDisputeData arbitratorAddress disputeId account
         (store w') = Resolved after
    /\ StoredDispute.netPNK after = Some 0%Z
    /\ (forall k,
           js_get (orEmpty (StoredDispute.appealCreatedAt after)) k
           = if decide (k = n)
             then (if truthyZ createdAt then createdAt else None)
             else None)
    /\ (forall k,
           js_get (orEmpty (StoredDispute.appealRuledAt after)) k
           = if decide (k = n)
             then (if truthyZ ruledAt then ruledAt else None)
             else None).
Proof.
  intros Habsent Hrun.
  destruct (updateStoreForDispute_Ok_view _ _ _ _ _ Hrun) as (v & w1 & Hdata).
  destruct (getDataForDispute_Ok_inv _ _ _ _ _ _ _ _ Hdata)
    as (dispute & _ & storeData & _ & Hdispute & _ & Hfetch & _ & Harb & Hid
        & _ & _ & _ & _ & Hn & _ & Hnet & Hcreated & Hruled).
  assert (Hrejected :
            StoreProvider.getDisputeData arbitratorAddress disputeId account
              (store w) = Rejected (JsError "dispute not found in store")).
  { unfold StoreProvider.getDisputeData. rewrite Habsent. reflexivity. }
  rewrite (fetchUserStoreData_absent _ _ _ _ _ Hrejected) in Hfetch.
  inversion Hfetch; subst storeData. simpl in Hnet, Hcreated, Hruled.
  destruct (updateStoreForDispute_after_view _ _ _ _ _ _ _ _ _ _ _ _
              Hdata Hrun)
    as [(_ & _ & e & Hthrow & _)
       | (currentSession & draws & _ & _ & _ & Hstore & _)];
    [discriminate |].
  rewrite Hstore, getDisputeData_updateDisputeProfile.
  unfold StoreProvider.updateDispute at 1. cbn [StoreProvider.disputes].
  cbn [mergedDocument DisputeDoc.arbitratorAddress DisputeDoc.disputeId].
  rewrite Harb, Hid, lookup_insert_eq.
  eexists. exists (Dispute.numberOfAppeals dispute).
  split; [exists dispute; auto |]. split; [reflexivity |].
  cbn [StoredDispute.netPNK StoredDispute.appealCreatedAt
       StoredDispute.appealRuledAt orEmpty DisputeDoc.appealCreatedAt
       DisputeDoc.appealRuledAt mergedDocument].
  rewrite Hnet, Hcreated, Hruled, Hn.
  assert (Hset : forall timestamp k,
             js_get (setIfTruthy [] (Dispute.numberOfAppeals dispute)
                       timestamp) k
             = if decide (k = Dispute.numberOfAppeals dispute)
               then (if truthyZ timestamp then timestamp else None)
               else None).
  { intros timestamp k.
    destruct (setIfTruthy_get [] (Dispute.numberOfAppeals dispute)
                timestamp k) as [Heq | (-> & Htruthy & Heq)].
    - rewrite js_get_nil in Heq.
      destruct (decide (k = Dispute.numberOfAppeals dispute)) as [-> |];
        [| exact Heq].
      destruct (truthyZ timestamp) eqn:Ht; [| exact Heq].
      unfold setIfTruthy in *. destruct timestamp as [t |];
        [| discriminate].
      rewrite Ht. apply js_get_set_eq.
    - rewrite decide_True by reflexivity. rewrite Htruthy. exact Heq. }
  split; [reflexivity |]. split; intros k; apply Hset.
Qed.
End MergeResults.

(** ** The merge results on the sample ledger *)

Lemma updateStoreForDispute_success_witness :
  _updateStoreForDispute Fixture.ledger Fixture.arbitrable
    Fixture.arbitrator 0 Fixture.alice (Some 2000%Z) None Fixture.trackedWorld
  = (Ok (Fixture.docOf 0 [Some 2000%Z] []),
     snd (_updateStoreForDispute Fixture.ledger Fixture.arbitrable
            Fixture.arbitrator 0 Fixture.alice (Some 2000%Z) None
            Fixture.trackedWorld))
  /\ StoreProvider.disputes
       (store (snd (_updateStoreForDispute Fixture.ledger Fixture.arbitrable
                      Fixture.arbitrator 0 Fixture.alice (Some 2000%Z) None
                      Fixture.trackedWorld))) !! (Fixture.arbitrator, 0)
     = Some (Fixture.docOf 0 [Some 2000%Z] []).
Proof.
  assert (Hrun :
            _updateStoreForDispute Fixture.ledger Fixture.arbitrable
              Fixture.arbitrator 0 Fixture.alice (Some 2000%Z) None
              Fixture.trackedWorld
            = (Ok (Fixture.docOf 0 [Some 2000%Z] []),
               snd (_updateStoreForDispute Fixture.ledger Fixture.arbitrable
                      Fixture.arbitrator 0 Fixture.alice (Some 2000%Z) None
                      Fixture.trackedWorld)))
    by (vm_compute; reflexivity).
  split; [exact Hrun |].
  exact (proj1 (updateStoreForDispute_success _ _ _ _ _ _ _ _ _ _ Hrun)).
Defined.

Lemma updateStoreForDispute_netPNK_witness :
  Fixture.juror <> ""
  /\ StoreProvider.getDisputeData Fixture.arbitrator 0 Fixture.juror
       Fixture.trackedStore
     = Resolved {| StoredDispute.appealDraws := Some [Some [2]];
                   StoredDispute.netPNK := Some 5%Z;
                   StoredDispute.appealCreatedAt := Some [Some 1000%Z];
                   StoredDispute.appealRuledAt := Some [] |}
  /\ storedNetPNK Fixture.arbitrator 0 Fixture.juror
       (store (snd (_updateStoreForDispute Fixture.ledger Fixture.arbitrable
                      Fixture.arbitrator 0 Fixture.juror None (Some 7000%Z)
                      Fixture.trackedWorld)))
     = storedNetPNK Fixture.arbitrator 0 Fixture.juror Fixture.trackedStore.
Proof.
  assert (Haccount : Fixture.juror <> "") by discriminate.
  assert (Hbefore :
            StoreProvider.getDisputeData Fixture.arbitrator 0 Fixture.juror
              (store Fixture.trackedWorld)
            = Resolved {| StoredDispute.appealDraws := Some [Some [2]];
                          StoredDispute.netPNK := Some 5%Z;
                          StoredDispute.appealCreatedAt := Some [Some 1000%Z];
                          StoredDispute.appealRuledAt := Some [] |})
    by (vm_compute; reflexivity).
  split; [exact Haccount |]. split; [exact Hbefore |].
  exact (updateStoreForDispute_netPNK Fixture.ledger Fixture.arbitrable
           Fixture.arbitrator Fixture.juror 0 None (Some 7000%Z)
           Fixture.trackedWorld _ _ _ Haccount Hbefore
           (surjective_pairing _)).
Defined.

Lemma updateStoreForDispute_partial_witness :
  getDataForDispute Sample.sessionlessLedger Fixture.arbitrable
    Fixture.arbitrator 0 Fixture.alice Fixture.trackedWorld
  = (Ok Sample.view0Alice, Fixture.trackedWorld)
  /\ Arbitrator.getSession Sample.sessionlessLedger Fixture.arbitrator
     = Rejected (JsError "no session")
  /\ exists w',
       _updateStoreForDispute Sample.sessionlessLedger Fixture.arbitrable
         Fixture.arbitrator 0 Fixture.alice (Some 2000%Z) None
         Fixture.trackedWorld = (Throw (JsError "no session"), w')
       /\ StoreProvider.disputes (store w') !! (Fixture.arbitrator, 0)
          = Some (mergedDocument Sample.view0Alice (Some 2000%Z) None)
       /\ StoreProvider.profiles (store w')
          = StoreProvider.profiles Fixture.trackedStore.
Proof.
  assert (Hdata : getDataForDispute Sample.sessionlessLedger Fixture.arbitrable
                    Fixture.arbitrator 0 Fixture.alice Fixture.trackedWorld
                  = (Ok Sample.view0Alice, Fixture.trackedWorld))
    by (vm_compute; reflexivity).
  split; [exact Hdata |]. split; [reflexivity |].
  destruct (updateStoreForDispute_partial Sample.sessionlessLedger
              Fixture.arbitrable Fixture.arbitrator Fixture.alice 0
              (Some 2000%Z) None _ _ _ (JsError "no session") Hdata eq_refl)
    as (w' & Hrun & Hdoc & Hprofiles & _).
  exists w'. split; [exact Hrun |]. split; [exact Hdoc | exact Hprofiles].
Defined.

Lemma updateStoreForDispute_session_draws_witness :
  _updateStoreForDispute Fixture.ledger Fixture.arbitrable
    Fixture.arbitrator 0 Fixture.juror None None Fixture.emptyWorld
  = (Ok (Fixture.docOf 0 [] []),
     snd (_updateStoreForDispute Fixture.ledger Fixture.arbitrable
            Fixture.arbitrator 0 Fixture.juror None None Fixture.emptyWorld))
  /\ exists dispute currentSession,
       Arbitrator.getDispute Fixture.ledger Fixture.arbitrator 0
       = Resolved (Some dispute)
       /\ Arbitrator.getSession Fixture.ledger Fixture.arbitrator
          = Resolved currentSession.
Proof.
  assert (Hrun :
            _updateStoreForDispute Fixture.ledger Fixture.arbitrable
              Fixture.arbitrator 0 Fixture.juror None None Fixture.emptyWorld
            = (Ok (Fixture.docOf 0 [] []),
               snd (_updateStoreForDispute Fixture.ledger Fixture.arbitrable
                      Fixture.arbitrator 0 Fixture.juror None None
                      Fixture.emptyWorld)))
    by (vm_compute; reflexivity).
  split; [exact Hrun |].
  destruct (updateStoreForDispute_session_draws _ _ _ _ _ _ _ _ _ _ Hrun)
    as (dispute & currentSession & Hdispute & Hsession & _).
  exists dispute, currentSession. split; [exact Hdispute | exact Hsession].
Defined.

Lemma updateStoreForDispute_first_merge_witness :
  StoreProvider.disputes Fixture.emptyStore !! (Fixture.arbitrator, 0) = None
  /\ _updateStoreForDispute Fixture.ledger Fixture.arbitrable
       Fixture.arbitrator 0 Fixture.juror (Some 1000%Z) None
       Fixture.emptyWorld
     = (Ok (Fixture.docOf 0 [Some 1000%Z] []),
        snd (_updateStoreForDispute Fixture.ledger Fixture.arbitrable
               Fixture.arbitrator 0 Fixture.juror (Some 1000%Z) None
               Fixture.emptyWorld))
  /\ exists after n,
       currentAppeal Fixture.ledger Fixture.arbitrator 0 n
       /\ StoreProvider.getDisputeData Fixture.arbitrator 0 Fixture.juror
            (store (snd (_updateStoreForDispute Fixture.ledger
                           Fixture.arbitrable Fixture.arbitrator 0
                           Fixture.juror (Some 1000%Z) None
                           Fixture.emptyWorld)))
          = Resolved after
       /\ StoredDispute.netPNK after = Some 0%Z.
Proof.
  assert (Habsent : StoreProvider.disputes (store Fixture.emptyWorld)
                      !! (Fixture.arbitrator, 0) = None) by reflexivity.
  assert (Hrun :
            _updateStoreForDispute Fixture.ledger Fixture.arbitrable
              Fixture.arbitrator 0 Fixture.juror (Some 1000%Z) None
              Fixture.emptyWorld
            = (Ok (Fixture.docOf 0 [Some 1000%Z] []),
               snd (_updateStoreForDispute Fixture.ledger Fixture.arbitrable
                      Fixture.arbitrator 0 Fixture.juror (Some 1000%Z) None
                      Fixture.emptyWorld)))
    by (vm_compute; reflexivity).
  split; [exact Habsent |]. split; [exact Hrun |].
  destruct (updateStoreForDispute_first_merge _ _ _ _ _ _ _ _ _ _
              Habsent Hrun) as (after & n & Hcurrent & Hafter & Hnet & _).
  exists after, n. split; [exact Hcurrent |]. split; [exact Hafter |].
  exact Hnet.
Defined.

(** ** The token-shift handler, event by event *)

Section TokenShiftOutcomes.
Variable event : TokenShiftEvent.t.
Variable contractAddress listener : address.

(** The three ways the handler runs: past an event that is not for it
    to handle, into the null profile, or to the profile write. *)
Lemma tokenShiftHandler_cases w :
  (_tokenShiftHandler event contractAddress listener w = (Ok tt, w)
   /\ (TokenShiftEvent._account event <> listener
       \/ exists profile,
            StoreProvider.getUserProfile listener (store w) = Some profile
            /\ StoreProvider.entryFor contractAddress
                 (TokenShiftEvent._disputeID event)
                 (UserProfile.disputes profile) = None))
  \/ (_tokenShiftHandler event contractAddress listener w
      = (Throw (JsError "TypeError: Cannot read property of null"), w)
      /\ TokenShiftEvent._account event = listener
      /\ StoreProvider.getUserProfile listener (store w) = None)
  \/ exists profile entry,
       TokenShiftEvent._account event = listener
       /\ StoreProvider.getUserProfile listener (store w) = Some profile
       /\ StoreProvider.entryFor contractAddress
            (TokenShiftEvent._disputeID event)
            (UserProfile.disputes profile) = Some entry
       /\ ProfileDispute.disputeId entry = TokenShiftEvent._disputeID event
       /\ ProfileDispute.arbitratorAddress entry = contractAddress
       /\ let netPNK :=
            jsAdd (orZero (ProfileDispute.netPNK entry))
              (toNumber (TokenShiftEvent._amount event)) in
          _tokenShiftHandler event contractAddress listener w
          = (Ok tt,
             {| store :=
                  StoreProvider.updateDisputeProfile listener
                    (ProfileDispute.appealDraws entry) contractAddress
                    (TokenShiftEvent._disputeID event) netPNK (store w);
                calls :=
                  calls w
                  ++ [CallUpdateDisputeProfile listener
                        (ProfileDispute.appealDraws entry) contractAddress
                        (TokenShiftEvent._disputeID event) netPNK] |}).
Proof.
  unfold _tokenShiftHandler.
  destruct (bool_decide (TokenShiftEvent._account event = listener))
    eqn:Haccount.
  2:{ left. split; [reflexivity |]. left.
      apply bool_decide_eq_false_1 in Haccount. exact Haccount. }
  apply bool_decide_eq_true_1 in Haccount.
  destruct (StoreProvider.getUserProfile listener (store w))
    as [profile |] eqn:Hprofile.
  2:{ right. left. split; [| auto].
      unfold bind, readStore. rewrite Hprofile. reflexivity. }
  unfold StoreProvider.entryFor.
  destruct (findIndex (UserProfile.disputes profile)
              (sameDispute (TokenShiftEvent._disputeID event) contractAddress))
    as [i |] eqn:Hfind.
  2:{ left. split.
      - unfold bind, readStore. rewrite Hprofile. simpl. rewrite Hfind.
        reflexivity.
      - right. exists profile. rewrite Hfind. auto. }
  destruct (findIndex_Some _ _ _ Hfind) as (entry & Hentry & Hsame).
  apply sameDispute_true in Hsame as [Hid Harb].
  right. right. exists profile, entry.
  split; [exact Haccount |]. split; [reflexivity |].
  rewrite Hfind.
  split; [exact Hentry |]. split; [exact Hid |]. split; [exact Harb |].
  unfold bind, readStore, writeStore. rewrite Hprofile. simpl.
  rewrite Hfind, Hentry. simpl. rewrite Hid, Harb.
  reflexivity.
Qed.

(** X18.  The token-shift handler fails in one situation only: the
    event targets the listener and the store has no profile for the
    listener.  It then fails with the [TypeError] of the property read
    on [null] and has changed nothing.  In every other situation it
    returns. *)
Theorem tokenShiftHandler_failure w :
  (TokenShiftEvent._account event = listener
   /\ StoreProvider.getUserProfile listener (store w) = None
   /\ _tokenShiftHandler event contractAddress listener w
      = (Throw (JsError "TypeError: Cannot read property of null"), w))
  \/ (~ (TokenShiftEvent._account event = listener
         /\ StoreProvider.getUserProfile listener (store w) = None)
      /\ fst (_tokenShiftHandler event contractAddress listener w) = Ok tt).
Proof.
  destruct (tokenShiftHandler_cases w)
    as [[Hrun Hwhy] | [(Hrun & Haccount & Hprofile)
                      | (profile & entry & Haccount & Hprofile & _ & _ & _
                         & Hrun)]].
  - right. rewrite Hrun. split; [| reflexivity].
    intros [Haccount Hprofile].
    destruct Hwhy as [Hother | (profile & Hsome & _)]; congruence.
  - left. auto.
  - right. simpl in Hrun. rewrite Hrun. split; [| reflexivity].
    intros [_ Hnone]. congruence.
Qed.

(** X19.  Whatever the event, the token-shift handler writes at most
    once, and only the [netPNK] of the listener's entry for the dispute
    of the event: the draws of that entry, the listener's entries for
    other disputes, the profiles of other accounts, the dispute
    documents, the contract records and the notifications are as
    before. *)
Theorem tokenShiftHandler_frame w :
  let w' := snd (_tokenShiftHandler event contractAddress listener w) in
  let disputeId := TokenShiftEvent._disputeID event in
  StoreProvider.disputes (store w') = StoreProvider.disputes (store w)
  /\ StoreProvider.contracts (store w') = StoreProvider.contracts (store w)
  /\ StoreProvider.notifications (store w')
     = StoreProvider.notifications (store w)
  /\ (forall other,
         other <> listener ->
         StoreProvider.profiles (store w') !! other
         = StoreProvider.profiles (store w) !! other)
  /\ (forall arbitratorAddress' disputeId',
         (arbitratorAddress', disputeId') <> (contractAddress, disputeId) ->
         StoreProvider.profileEntry arbitratorAddress' disputeId' listener
           (store w')
         = StoreProvider.profileEntry arbitratorAddress' disputeId' listener
             (store w))
  /\ storedDraws contractAddress disputeId listener (store w')
     = storedDraws contractAddress disputeId listener (store w)
  /\ (w' = w
      \/ exists draws netPNK,
           calls w'
           = calls w
             ++ [CallUpdateDisputeProfile listener draws contractAddress
                   disputeId netPNK]).
Proof.
  intros w' disputeId. subst w'.
  destruct (tokenShiftHandler_cases w)
    as [[Hrun _] | [(Hrun & _)
                   | (profile & entry & _ & Hprofile & Hentry & _ & _
                      & Hrun)]].
  - rewrite Hrun. simpl. repeat split; auto.
  - rewrite Hrun. simpl. repeat split; auto.
  - simpl in Hrun. rewrite Hrun. simpl.
    split; [reflexivity |]. split; [reflexivity |]. split; [reflexivity |].
    split.
    { intros other Hother. apply lookup_insert_ne. congruence. }
    split.
    { intros arbitratorAddress' disputeId' Hne.
      apply (profileEntry_updateDisputeProfile_ne listener
               (ProfileDispute.appealDraws entry) contractAddress disputeId).
      exact Hne. }
    split.
    { unfold storedDraws.
      rewrite (profileEntry_updateDisputeProfile_same listener
                 (ProfileDispute.appealDraws entry) contractAddress
                 disputeId).
      unfold StoreProvider.profileEntry.
      unfold StoreProvider.getUserProfile in Hprofile.
      rewrite Hprofile. fold disputeId in Hentry. rewrite Hentry.
      reflexivity. }
    right. eauto.
Qed.
End TokenShiftOutcomes.

(** ** The lookup of a participant's entry *)

Lemma filter_head_findIndex {A} (p : A -> bool) (l : list A) :
  head (List.filter p l)
  = match findIndex l p with
    | Some i => l !! i
    | None => None
    end.
Proof.
  induction l as [| x l IH]; simpl; [reflexivity |].
  destruct (p x); simpl; [reflexivity |].
  rewrite IH. destruct (findIndex l p); reflexivity.
Qed.

(** X20.  [getUserDisputeFromStore] and the event handlers agree on the
    entry of a dispute: the lookup returns an entry exactly when that
    entry is the first one of the participant's profile with the id and
    the arbitrator asked for, which is the entry that the token-shift
    handler updates.  The entry returned carries that id and that
    arbitrator, and the lookup leaves the world as it is. *)
Theorem getUserDisputeFromStore_first_match arbitratorAddress disputeId
    account w entry w' :
  getUserDisputeFromStore arbitratorAddress disputeId account w
  = (Ok entry, w')
  <-> StoreProvider.profileEntry arbitratorAddress disputeId account (store w)
      = Some entry
      /\ ProfileDispute.disputeId entry = disputeId
      /\ ProfileDispute.arbitratorAddress entry = arbitratorAddress
      /\ w' = w.
Proof.
  unfold getUserDisputeFromStore, StoreProvider.profileEntry,
    StoreProvider.entryFor, StoreProvider.getUserProfile.
  unfold bind at 1, bind at 1, readStore.
  destruct (StoreProvider.profiles (store w) !! account) as [profile |];
    simpl.
  2:{ split; [discriminate | intros [Hno _]; discriminate]. }
  pose proof (filter_head_findIndex (sameDispute disputeId arbitratorAddress)
                (UserProfile.disputes profile)) as Hhead.
  destruct (List.filter _ (UserProfile.disputes profile)) as [| first rest];
    simpl in Hhead; rewrite <- Hhead.
  - split; [discriminate | intros [Hno _]; discriminate].
  - assert (Hsame : sameDispute disputeId arbitratorAddress first = true).
    { symmetry in Hhead.
      destruct (findIndex _ _) as [i |] eqn:Hfind; [| discriminate].
      destruct (findIndex_Some _ _ _ Hfind) as (x & Hx & Hsame).
      congruence. }
    apply sameDispute_true in Hsame as [Hid Harb].
    split.
    + intros [= <- <-]. auto.
    + intros ([= <-] & _ & _ & ->). reflexivity.
Qed.

(** X21.  The lookup fails in two ways: with the [TypeError] of a
    property read on [null] when the store has no profile for the
    account, and with an [Error] naming the account when the profile
    lists no entry for the dispute.  It never fails otherwise. *)
Theorem getUserDisputeFromStore_failure arbitratorAddress disputeId account
    w :
  match fst (getUserDisputeFromStore arbitratorAddress disputeId account w)
  with
  | Ok entry =>
      StoreProvider.profileEntry arbitratorAddress disputeId account (store w)
      = Some entry
  | Throw e =>
      (StoreProvider.getUserProfile account (store w) = None
       /\ e = JsError "TypeError: Cannot read property of null")
      \/ (is_Some (StoreProvider.getUserProfile account (store w))
          /\ StoreProvider.profileEntry arbitratorAddress disputeId account
               (store w) = None
          /\ e = JsError ("User " +:+ account
                          +:+ " does not have store data for dispute"))
  | OutOfFuel => False
  end.
Proof.
  unfold getUserDisputeFromStore, StoreProvider.profileEntry,
    StoreProvider.entryFor, StoreProvider.getUserProfile.
  unfold bind at 1, bind at 1, readStore.
  destruct (StoreProvider.profiles (store w) !! account) as [profile |];
    simpl; [| left; auto].
  pose proof (filter_head_findIndex (sameDispute disputeId arbitratorAddress)
                (UserProfile.disputes profile)) as Hhead.
  destruct (List.filter _ (UserProfile.disputes profile)) as [| first rest];
    simpl in *; rewrite <- Hhead; [| reflexivity].
  right. split; [eauto |]. split; reflexivity.
Qed.

(** ** The new-period handler, turn by turn *)

Lemma noticesOf_app cs1 cs2 : noticesOf (cs1 ++ cs2) = noticesOf cs1 ++ noticesOf cs2.
Proof. apply omap_app. Qed.

Lemma callbacksOf_app cs1 cs2 :
  callbacksOf (cs1 ++ cs2) = callbacksOf cs1 ++ callbacksOf cs2.
Proof. apply omap_app. Qed.

Section MergeLog.
Variable _Arbitrator : Arbitrator.t.
Variable _ArbitrableContract : ArbitrableContract.t.

(** The aggregation logs consultations of the eligibility check and
    nothing else. *)
Lemma getDataForDispute_consultations arbitratorAddress disputeId account
    w o w' :
  getDataForDispute _Arbitrator _ArbitrableContract
    arbitratorAddress disputeId account w = (o, w') ->
  exists cs,
    calls w' = calls w ++ cs /\ noticesOf cs = [] /\ callbacksOf cs = [].
Proof.
  intros Hrun.
  apply getDataForDispute_loop in Hrun
    as [[-> _] | (dispute & data & storeData & lo & _ & _ & _ & Hloop & _)].
  { exists []. rewrite app_nil_r. auto. }
  apply appealLoop_log in Hloop as (cs & Hcalls & Hcs); [| apply NoDup_seq].
  exists cs. split; [exact Hcalls |].
  destruct Hcs as [-> | (_ & draws & _ & ->)]; auto.
Qed.

(** A merge stores no notification and calls no callback. *)
Lemma updateStoreForDispute_world arbitratorAddress disputeId account
    createdAt ruledAt w o w' :
  _updateStoreForDispute _Arbitrator _ArbitrableContract
    arbitratorAddress disputeId account createdAt ruledAt w = (o, w') ->
  StoreProvider.notifications (store w')
  = StoreProvider.notifications (store w)
  /\ exists cs,
       calls w' = calls w ++ cs /\ noticesOf cs = [] /\ callbacksOf cs = [].
Proof.
  intros Hrun. split.
  { apply updateStoreForDispute_effect in Hrun
      as [-> | (v & doc & _ & _ & _ & _ & _
                & [-> | (draws & netPNK & -> & _)])]; reflexivity. }
  destruct (getDataForDispute _Arbitrator _ArbitrableContract
              arbitratorAddress disputeId account w)
    as [o1 w1] eqn:Hdata.
  destruct (getDataForDispute_consultations _ _ _ _ _ _ Hdata)
    as (cs & Hcalls & Hnotices & Hcallbacks).
  destruct o1 as [v | e |].
  - destruct (updateStoreForDispute_after_view _ _ _ _ _ _ _ _ _ _ _ _
                Hdata Hrun)
      as [(_ & Hlog & _) | (currentSession & draws & _ & _ & _ & _ & Hlog)];
      rewrite Hlog, Hcalls, <- app_assoc; eexists; (split; [reflexivity |]);
      rewrite noticesOf_app, callbacksOf_app, Hnotices, Hcallbacks; auto.
  - revert Hrun. unfold _updateStoreForDispute. unfold bind at 1.
    rewrite Hdata. intros [= _ <-]. eauto.
  - revert Hrun. unfold _updateStoreForDispute. unfold bind at 1.
    rewrite Hdata. intros [= _ <-]. eauto.
Qed.
End MergeLog.

Section RulingScan.
Variable _Arbitrator : Arbitrator.t.
Variable _ArbitrableContract : ArbitrableContract.t.
Variable NULL_ADDRESS : address.
Variable TYPE_APPEAL_POSSIBLE : nat.
Variable event : NewPeriodEvent.t.
Variable contractAddress address : address.
Variable notificationCallback : bool.
Variable userProfile : option UserProfile.t.
Variable currentSession : nat.

(** One turn of the scan: it leaves the world as it is, or it stores
    one notification, for the dispute of the turn, merges the dispute
    and may call the callback with the notification.  The next turn is
    for a later dispute. *)
Lemma rulingScanTurn_effect disputeId w o w' :
  rulingScanTurn _Arbitrator _ArbitrableContract NULL_ADDRESS
    TYPE_APPEAL_POSSIBLE event contractAddress address notificationCallback
    userProfile currentSession disputeId w = (o, w') ->
  (forall next, o = Ok (Next next) -> disputeId < next)
  /\ (w' = w
      \/ exists n cs,
           appealNotice _Arbitrator NULL_ADDRESS TYPE_APPEAL_POSSIBLE event
             contractAddress address userProfile currentSession n
           /\ Notification.dataDisputeId n = disputeId
           /\ StoreProvider.notifications (store w')
              = StoreProvider.notifications (store w) ++ [n]
           /\ calls w' = calls w ++ CallNewNotification n :: cs
           /\ noticesOf cs = []
           /\ (callbacksOf cs = []
               \/ (notificationCallback = true
                   /\ callbacksOf cs = [Some n]))).
Proof.
  unfold rulingScanTurn, tryCatch. unfold bind at 1. unfold bind at 1.
  destruct (Arbitrator.getDispute _Arbitrator contractAddress disputeId)
    as [[dispute |] | e] eqn:Hdispute; simpl;
    [| intros [= <- <-]; split; [discriminate | auto]
     | intros [= <- <-]; split; [discriminate | auto]].
  destruct (bool_decide (Dispute.arbitratedContract dispute = NULL_ADDRESS))
    eqn:Hnull; simpl;
    [intros [= <- <-]; split; [discriminate | auto] |].
  apply bool_decide_eq_false_1 in Hnull.
  destruct (bool_decide (Dispute.firstSession dispute
                         + Dispute.numberOfAppeals dispute = currentSession))
    eqn:Hsession; simpl;
    [| intros [= <- <-]; split; [intros next [= <-]; lia | auto]].
  apply bool_decide_eq_true_1 in Hsession.
  unfold bind at 1.
  destruct (Arbitrator.currentRulingForDispute _Arbitrator contractAddress
              disputeId (Dispute.numberOfAppeals dispute))
    as [ruling | e] eqn:Hruling; simpl;
    [| destruct (strictEqString e "DisputeOutOfRange");
       intros [= <- <-]; split; [discriminate | auto | discriminate | auto]].
  unfold bind at 1.
  destruct userProfile as [profile |] eqn:Hprofile; simpl;
    [| intros [= <- <-]; split; [discriminate | auto]].
  unfold bind at 1.
  destruct (findIndex (UserProfile.disputes profile)
              (sameDispute disputeId contractAddress)) as [i |] eqn:Hfind;
    [| simpl; intros [= <- <-]; split; [intros next [= <-]; lia | auto]].
  destruct (findIndex_Some _ _ _ Hfind) as (entry & Hentry & _).
  set (n := {| Notification.account := address;
               Notification.txHash := NewPeriodEvent.transactionHash event;
               Notification.logIndex := disputeId;
               Notification.notificationType := TYPE_APPEAL_POSSIBLE;
               Notification.message :=
                 "A ruling has been made. Appeal is possible";
               Notification.dataDisputeId := disputeId;
               Notification.dataContractAddress := contractAddress;
               Notification.dataRuling := ruling |}).
  assert (Hnotice :
            appealNotice _Arbitrator NULL_ADDRESS TYPE_APPEAL_POSSIBLE event
              contractAddress address (Some profile) currentSession n).
  { repeat split.
    - exists profile, entry. split; [reflexivity |].
      unfold StoreProvider.entryFor. simpl. rewrite Hfind. exact Hentry.
    - exists dispute. simpl. auto. }
  unfold bind at 1. unfold writeStore at 1. simpl.
  unfold bind at 1.
  match goal with
  | |- context [_updateStoreForDispute ?a ?b ?c ?d ?e ?f ?g ?w0] =>
      destruct (_updateStoreForDispute a b c d e f g w0) as [o2 w2] eqn:Hmerge
  end.
  apply updateStoreForDispute_world in Hmerge
    as (Hkept & cs & Hcalls & Hnotices & Hcallbacks).
  simpl in Hkept, Hcalls.
  assert (Hstays :
            forall o0,
              (forall next, o0 = Ok (Next next) -> disputeId < next) ->
              (forall next : nat, o0 = Ok (Next next) -> disputeId < next)
              /\ (w2 = w
                  \/ exists n0 cs0,
                       appealNotice _Arbitrator NULL_ADDRESS
                         TYPE_APPEAL_POSSIBLE event contractAddress address
                         (Some profile) currentSession n0
                       /\ Notification.dataDisputeId n0 = disputeId
                       /\ StoreProvider.notifications (store w2)
                          = StoreProvider.notifications (store w) ++ [n0]
                       /\ calls w2 = calls w ++ CallNewNotification n0 :: cs0
                       /\ noticesOf cs0 = []
                       /\ (callbacksOf cs0 = []
                           \/ (notificationCallback = true
                               /\ callbacksOf cs0 = [Some n0])))).
  { intros o0 Hnext. split; [exact Hnext |]. right. exists n, cs.
    split; [exact Hnotice |]. split; [reflexivity |].
    split; [exact Hkept |].
    split; [rewrite Hcalls, <- app_assoc; reflexivity |].
    split; [exact Hnotices | left; exact Hcallbacks]. }
  destruct o2 as [d | e |]; simpl.
  - destruct notificationCallback eqn:Hcb; simpl.
    + intros [= <- <-]. split; [intros next [= <-]; lia |].
      right. exists n, (cs ++ [CallNotificationCallback (Some n)]).
      simpl. split; [exact Hnotice |]. split; [reflexivity |].
      split; [exact Hkept |].
      split; [rewrite Hcalls, <- !app_assoc; reflexivity |].
      rewrite noticesOf_app, callbacksOf_app, Hnotices, Hcallbacks.
      split; [reflexivity | right; auto].
    + intros [= <- <-]. apply Hstays. intros next [= <-]. lia.
  - destruct (strictEqString e "DisputeOutOfRange");
      intros [= <- <-]; apply Hstays; discriminate.
  - intros [= <- <-]. apply Hstays. discriminate.
Qed.

(** A turn for a dispute that the profile does not list changes
    nothing. *)
Lemma rulingScanTurn_untracked disputeId w o w' :
  (forall profile,
      userProfile = Some profile ->
      StoreProvider.entryFor contractAddress disputeId
        (UserProfile.disputes profile) = None) ->
  rulingScanTurn _Arbitrator _ArbitrableContract NULL_ADDRESS
    TYPE_APPEAL_POSSIBLE event contractAddress address notificationCallback
    userProfile currentSession disputeId w = (o, w') ->
  w' = w.
Proof.
  intros Huntracked Hrun.
  apply rulingScanTurn_effect in Hrun
    as [_ [-> | (n & cs & Hnotice & Hid & _)]]; [reflexivity |].
  destruct Hnotice as (_ & _ & _ & _ & _ & (profile & entry & Hsome & Hentry)
                       & _).
  rewrite Hid, (Huntracked profile Hsome) in Hentry. discriminate.
Qed.

Lemma rulingScan_untracked fuel :
  (forall disputeId profile,
      userProfile = Some profile ->
      StoreProvider.entryFor contractAddress disputeId
        (UserProfile.disputes profile) = None) ->
  forall disputeId w o w',
    rulingScan _Arbitrator _ArbitrableContract NULL_ADDRESS
      TYPE_APPEAL_POSSIBLE fuel event contractAddress address
      notificationCallback userProfile currentSession disputeId w = (o, w') ->
    w' = w.
Proof.
  intros Huntracked.
  induction fuel as [| fuel IH]; intros disputeId w o w'; simpl.
  - intros [= _ <-]. reflexivity.
  - unfold bind at 1.
    destruct (rulingScanTurn _ _ _ _ _ _ _ _ _ _ disputeId w)
      as [[[| next] | e |] w1] eqn:Hturn;
      apply rulingScanTurn_untracked in Hturn; try (apply Huntracked);
      subst w1.
    + intros [= _ <-]. reflexivity.
    + apply IH.
    + intros [= _ <-]. reflexivity.
    + intros [= _ <-]. reflexivity.
Qed.

(** The notifications of a scan from a dispute on: one per dispute at
    most, in the order of the ids, each of them a notice of a possible
    appeal; the callback gets stored notifications only. *)
Lemma rulingScan_notices fuel :
  forall disputeId w o w',
    rulingScan _Arbitrator _ArbitrableContract NULL_ADDRESS
      TYPE_APPEAL_POSSIBLE fuel event contractAddress address
      notificationCallback userProfile currentSession disputeId w = (o, w') ->
    exists cs,
      calls w' = calls w ++ cs
      /\ StoreProvider.notifications (store w')
         = StoreProvider.notifications (store w) ++ noticesOf cs
      /\ Forall (appealNotice _Arbitrator NULL_ADDRESS TYPE_APPEAL_POSSIBLE
                   event contractAddress address userProfile currentSession)
           (noticesOf cs)
      /\ Forall (fun n => disputeId <= Notification.dataDisputeId n)
           (noticesOf cs)
      /\ StronglySorted
           (fun n m =>
              Notification.dataDisputeId n < Notification.dataDisputeId m)
           (noticesOf cs)
      /\ Forall (fun given => exists n, given = Some n /\ n ∈ noticesOf cs)
           (callbacksOf cs)
      /\ (notificationCallback = false -> callbacksOf cs = []).
Proof.
  assert (Hnone :
            forall w : World,
            exists cs,
              calls w = calls w ++ cs
              /\ StoreProvider.notifications (store w)
                 = StoreProvider.notifications (store w) ++ noticesOf cs
              /\ Forall (appealNotice _Arbitrator NULL_ADDRESS
                           TYPE_APPEAL_POSSIBLE event contractAddress address
                           userProfile currentSession) (noticesOf cs)
              /\ (forall disputeId,
                     Forall (fun n => disputeId <= Notification.dataDisputeId n)
                       (noticesOf cs))
              /\ StronglySorted
                   (fun n m =>
                      Notification.dataDisputeId n
                      < Notification.dataDisputeId m) (noticesOf cs)
              /\ Forall (fun given =>
                           exists n, given = Some n /\ n ∈ noticesOf cs)
                   (callbacksOf cs)
              /\ (notificationCallback = false -> callbacksOf cs = [])).
  { intros w. exists []. simpl. rewrite !app_nil_r.
    repeat split; constructor. }
  assert (Hone :
            forall disputeId (w w1 : World) n cs,
              appealNotice _Arbitrator NULL_ADDRESS TYPE_APPEAL_POSSIBLE event
                contractAddress address userProfile currentSession n ->
              Notification.dataDisputeId n = disputeId ->
              StoreProvider.notifications (store w1)
              = StoreProvider.notifications (store w) ++ [n] ->
              calls w1 = calls w ++ CallNewNotification n :: cs ->
              noticesOf cs = [] ->
              (callbacksOf cs = []
               \/ (notificationCallback = true
                   /\ callbacksOf cs = [Some n])) ->
              noticesOf (CallNewNotification n :: cs) = [n]
              /\ Forall (fun given => exists m, given = Some m /\ m = n)
                   (callbacksOf (CallNewNotification n :: cs))
              /\ (notificationCallback = false ->
                  callbacksOf (CallNewNotification n :: cs) = [])).
  { intros disputeId w w1 n cs _ _ _ _ Hnotices Hcallbacks.
    change (noticesOf (CallNewNotification n :: cs)) with (n :: noticesOf cs).
    change (callbacksOf (CallNewNotification n :: cs)) with (callbacksOf cs).
    rewrite Hnotices. split; [reflexivity |].
    destruct Hcallbacks as [-> | [Hcb ->]].
    - split; [constructor | reflexivity].
    - split; [repeat constructor; eauto | congruence]. }
  induction fuel as [| fuel IH]; intros disputeId w o w'; simpl.
  - intros [= _ <-]. destruct (Hnone w) as (cs & H1 & H2 & H3 & H4 & H5).
    exists cs. auto.
  - unfold bind at 1.
    destruct (rulingScanTurn _ _ _ _ _ _ _ _ _ _ disputeId w)
      as [turn w1] eqn:Hturn.
    destruct (rulingScanTurn_effect _ _ _ _ Hturn) as [Hnext Heffect].
    assert (Hends :
              w' = w1 ->
              exists cs,
                calls w' = calls w ++ cs
                /\ StoreProvider.notifications (store w')
                   = StoreProvider.notifications (store w) ++ noticesOf cs
                /\ Forall (appealNotice _Arbitrator NULL_ADDRESS
                             TYPE_APPEAL_POSSIBLE event contractAddress
                             address userProfile currentSession)
                     (noticesOf cs)
                /\ Forall (fun n => disputeId <= Notification.dataDisputeId n)
                     (noticesOf cs)
                /\ StronglySorted
                     (fun n m =>
                        Notification.dataDisputeId n
                        < Notification.dataDisputeId m) (noticesOf cs)
                /\ Forall (fun given =>
                             exists n, given = Some n /\ n ∈ noticesOf cs)
                     (callbacksOf cs)
                /\ (notificationCallback = false -> callbacksOf cs = [])).
    { intros ->.
      destruct Heffect as [-> | (n & cs & Hnotice & Hid & Hstored & Hcalls
                                & Hnotices & Hcallbacks)].
      - destruct (Hnone w) as (cs & H1 & H2 & H3 & H4 & H5).
        exists cs. auto.
      - destruct (Hone _ _ _ _ _ Hnotice Hid Hstored Hcalls Hnotices
                    Hcallbacks) as (Hlist & Hgiven & Hoff).
        exists (CallNewNotification n :: cs). rewrite Hlist.
        split; [exact Hcalls |]. split; [exact Hstored |].
        split; [constructor; [exact Hnotice | constructor] |].
        split; [constructor; [lia | constructor] |].
        split; [constructor; constructor |].
        split; [| exact Hoff].
        eapply Forall_impl; [exact Hgiven |].
        intros given (m & -> & ->). exists n. split; [reflexivity |].
        apply list_elem_of_singleton. reflexivity. }
    destruct turn as [[| next] | e |];
      [intros [= _ <-]; apply Hends; reflexivity
      | | intros [= _ <-]; apply Hends; reflexivity
      | intros [= _ <-]; apply Hends; reflexivity].
    specialize (Hnext next eq_refl).
    intros Hrest. apply IH in Hrest
      as (cs2 & Hcalls2 & Hstored2 & Hall2 & Hfrom2 & Hsorted2 & Hgiven2
          & Hoff2).
    destruct Heffect as [-> | (n & cs & Hnotice & Hid & Hstored & Hcalls
                              & Hnotices & Hcallbacks)].
    + exists cs2. split; [exact Hcalls2 |]. split; [exact Hstored2 |].
      split; [exact Hall2 |].
      split; [| auto].
      eapply Forall_impl; [exact Hfrom2 |]. simpl. intros; lia.
    + destruct (Hone _ _ _ _ _ Hnotice Hid Hstored Hcalls Hnotices
                  Hcallbacks) as (Hlist & Hgiven & Hoff).
      exists ((CallNewNotification n :: cs) ++ cs2).
      rewrite noticesOf_app, callbacksOf_app, Hlist.
      split; [rewrite Hcalls2, Hcalls, <- app_assoc; reflexivity |].
      split; [rewrite Hstored2, Hstored, <- app_assoc; reflexivity |].
      split; [constructor; [exact Hnotice | exact Hall2] |].
      split.
      { constructor; [lia |].
        eapply Forall_impl; [exact Hfrom2 |]. simpl. intros; lia. }
      split.
      { constructor; [exact Hsorted2 |].
        eapply Forall_impl; [exact Hfrom2 |]. simpl. intros; lia. }
      split.
      { apply Forall_app. split.
        - eapply Forall_impl; [exact Hgiven |].
          intros given (m & -> & ->). exists n. split; [reflexivity |].
          left.
        - eapply Forall_impl; [exact Hgiven2 |].
          intros given (m & -> & Hin). exists m. split; [reflexivity |].
          right. exact Hin. }
      intros Hcb. rewrite (Hoff Hcb), (Hoff2 Hcb). reflexivity.
Qed.
End RulingScan.

Section RulingHandler.
Variable _Arbitrator : Arbitrator.t.
Variable _ArbitrableContract : ArbitrableContract.t.
Variable NULL_ADDRESS : address.
Variable PERIOD_APPEAL TYPE_APPEAL_POSSIBLE : nat.
Variable event : NewPeriodEvent.t.
Variable contractAddress address : address.
Variable notificationCallback : bool.

(** X22.  A new-period event changes nothing for a listener whose
    profile lists no dispute of the arbitrator (or who has no profile):
    no notification is stored, no dispute is merged and the callback is
    not called, whatever the period of the event, the fuel given to the
    scan and the outcome of the handler. *)
Theorem disputeRulingHandler_untracked fuel w o w' :
  (forall disputeId,
      StoreProvider.profileEntry contractAddress disputeId address (store w)
      = None) ->
  _disputeRulingHandler _Arbitrator _ArbitrableContract NULL_ADDRESS
    PERIOD_APPEAL TYPE_APPEAL_POSSIBLE fuel event contractAddress address
    notificationCallback w = (o, w') ->
  w' = w.
Proof.
  intros Huntracked. unfold _disputeRulingHandler.
  destruct (bool_decide (NewPeriodEvent._period event = PERIOD_APPEAL));
    [| intros [= _ <-]; reflexivity].
  unfold bind at 1, readStore. unfold bind at 1.
  destruct (Arbitrator.getData _Arbitrator contractAddress (Some address))
    as [data | e]; simpl; [| intros [= _ <-]; reflexivity].
  apply rulingScan_untracked.
  intros disputeId profile Hprofile.
  specialize (Huntracked disputeId).
  unfold StoreProvider.profileEntry in Huntracked.
  unfold StoreProvider.getUserProfile in Hprofile.
  rewrite Hprofile in Huntracked. exact Huntracked.
Qed.

(** X23.  The notifications of the new-period handler, whatever its
    outcome: the store gains exactly the notifications that the handler
    logs, at most one per dispute and in the order of the dispute ids.
    Each of them is addressed to the listener, of the appeal-possible
    type, for a dispute that the listener's profile listed when the
    handler started, that is in the arbitrator's session and is not the
    end sentinel, and carries the ledger's ruling for the current
    appeal.  The callback is called with stored notifications only, and
    not at all when the listener was registered without one. *)
Theorem disputeRulingHandler_notices fuel w o w' :
  _disputeRulingHandler _Arbitrator _ArbitrableContract NULL_ADDRESS
    PERIOD_APPEAL TYPE_APPEAL_POSSIBLE fuel event contractAddress address
    notificationCallback w = (o, w') ->
  exists cs,
    calls w' = calls w ++ cs
    /\ StoreProvider.notifications (store w')
       = StoreProvider.notifications (store w) ++ noticesOf cs
    /\ StronglySorted
         (fun n m =>
            Notification.dataDisputeId n < Notification.dataDisputeId m)
         (noticesOf cs)
    /\ Forall
         (fun n =>
            NewPeriodEvent._period event = PERIOD_APPEAL
            /\ exists data,
                 Arbitrator.getData _Arbitrator contractAddress (Some address)
                 = Resolved data
                 /\ appealNotice _Arbitrator NULL_ADDRESS TYPE_APPEAL_POSSIBLE
                      event contractAddress address
                      (StoreProvider.getUserProfile address (store w))
                      (ArbitratorData.session data) n)
         (noticesOf cs)
    /\ Forall (fun given => exists n, given = Some n /\ n ∈ noticesOf cs)
         (callbacksOf cs)
    /\ (notificationCallback = false -> callbacksOf cs = []).
Proof.
  assert (Hnone :
            exists cs,
              calls w = calls w ++ cs
              /\ StoreProvider.notifications (store w)
                 = StoreProvider.notifications (store w) ++ noticesOf cs
              /\ StronglySorted
                   (fun n m =>
                      Notification.dataDisputeId n
                      < Notification.dataDisputeId m) (noticesOf cs)
              /\ Forall
                   (fun n =>
                      NewPeriodEvent._period event = PERIOD_APPEAL
                      /\ exists data,
                           Arbitrator.getData _Arbitrator contractAddress
                             (Some address) = Resolved data
                           /\ appealNotice _Arbitrator NULL_ADDRESS
                                TYPE_APPEAL_POSSIBLE event contractAddress
                                address
                                (StoreProvider.getUserProfile address
                                   (store w))
                                (ArbitratorData.session data) n)
                   (noticesOf cs)
              /\ Forall (fun given =>
                           exists n, given = Some n /\ n ∈ noticesOf cs)
                   (callbacksOf cs)
              /\ (notificationCallback = false -> callbacksOf cs = [])).
  { exists []. simpl. rewrite !app_nil_r. repeat split; constructor. }
  unfold _disputeRulingHandler.
  destruct (bool_decide (NewPeriodEvent._period event = PERIOD_APPEAL))
    eqn:Hperiod; [| intros [= _ <-]; exact Hnone].
  apply bool_decide_eq_true_1 in Hperiod.
  unfold bind at 1, readStore. unfold bind at 1.
  destruct (Arbitrator.getData _Arbitrator contractAddress (Some address))
    as [data | e] eqn:Hdata; simpl; [| intros [= _ <-]; exact Hnone].
  intros Hscan. apply rulingScan_notices in Hscan
    as (cs & Hcalls & Hstored & Hall & _ & Hsorted & Hgiven & Hoff).
  exists cs. split; [exact Hcalls |]. split; [exact Hstored |].
  split; [exact Hsorted |]. split; [| auto].
  eapply Forall_impl; [exact Hall |].
  intros n Hnotice. split; [exact Hperiod |]. exists data. auto.
Qed.
End RulingHandler.

Lemma disputeRulingHandler_untracked_witness :
  (forall disputeId,
      StoreProvider.profileEntry Fixture.arbitrator disputeId Fixture.bob
        Fixture.trackedStore = None)
  /\ snd (_disputeRulingHandler Fixture.ledger Fixture.arbitrable
            Fixture.NULL_ADDRESS Fixture.PERIOD_APPEAL
            Fixture.TYPE_APPEAL_POSSIBLE 10 Fixture.appealPeriodEvent
            Fixture.arbitrator Fixture.bob true Fixture.trackedWorld)
     = Fixture.trackedWorld.
Proof.
  assert (Huntracked :
            forall disputeId,
              StoreProvider.profileEntry Fixture.arbitrator disputeId
                Fixture.bob (store Fixture.trackedWorld) = None)
    by (intros disputeId; reflexivity).
  split; [exact Huntracked |].
  exact (disputeRulingHandler_untracked Fixture.ledger Fixture.arbitrable
           Fixture.NULL_ADDRESS Fixture.PERIOD_APPEAL
           Fixture.TYPE_APPEAL_POSSIBLE Fixture.appealPeriodEvent
           Fixture.arbitrator Fixture.bob true 10 Fixture.trackedWorld _ _
           Huntracked (surjective_pairing _)).
Defined.

Lemma disputeRulingHandler_notices_witness :
  exists cs,
    calls (snd (_disputeRulingHandler Fixture.ledger Fixture.arbitrable
                  Fixture.NULL_ADDRESS Fixture.PERIOD_APPEAL
                  Fixture.TYPE_APPEAL_POSSIBLE 10 Fixture.appealPeriodEvent
                  Fixture.arbitrator Fixture.juror true Fixture.trackedWorld))
    = calls Fixture.trackedWorld ++ cs
    /\ StoreProvider.notifications
         (store (snd (_disputeRulingHandler Fixture.ledger Fixture.arbitrable
                        Fixture.NULL_ADDRESS Fixture.PERIOD_APPEAL
                        Fixture.TYPE_APPEAL_POSSIBLE 10
                        Fixture.appealPeriodEvent Fixture.arbitrator
                        Fixture.juror true Fixture.trackedWorld)))
       = StoreProvider.notifications (store Fixture.trackedWorld)
         ++ noticesOf cs.
Proof.
  destruct (disputeRulingHandler_notices Fixture.ledger Fixture.arbitrable
              Fixture.NULL_ADDRESS Fixture.PERIOD_APPEAL
              Fixture.TYPE_APPEAL_POSSIBLE Fixture.appealPeriodEvent
              Fixture.arbitrator Fixture.juror true 10 Fixture.trackedWorld
              _ _ (surjective_pairing _))
    as (cs & Hcalls & Hstored & _).
  exists cs. split; [exact Hcalls | exact Hstored].
Defined.

(** ** Merging the same event again *)







Section MergeAgain.
Variable _Arbitrator : Arbitrator.t.
Variable _ArbitrableContract : ArbitrableContract.t.
Variable arbitratorAddress account : address.
Variable disputeId : nat.



End MergeAgain.


(** ** The dispute-creation handler *)

Section CreationHandler.
Variable _Arbitrator : Arbitrator.t.
Variable _ArbitrableContract : ArbitrableContract.t.
Variable account : address.
Variable event : DisputeCreationEvent.t.
Variable contractAddress address : address.

(** The two ways the handler runs: without a merge, when the view fails
    or the listener is not a party, and into the merge of the dispute
    for the listener. *)
Lemma disputeCreatedHandler_cases w o w' :
  _disputeCreatedHandler _Arbitrator _ArbitrableContract account event
    contractAddress address w = (o, w') ->
  (store w' = store w
   /\ ((forall u, o <> Ok u)
       \/ exists v,
            getDataForDispute _Arbitrator _ArbitrableContract contractAddress
              (DisputeCreationEvent._disputeID event) account w = (Ok v, w')
            /\ DisputeData.partyA v <> address
            /\ DisputeData.partyB v <> address))
  \/ exists v w1 o2,
       getDataForDispute _Arbitrator _ArbitrableContract contractAddress
         (DisputeCreationEvent._disputeID event) account w = (Ok v, w1)
       /\ store w1 = store w
       /\ (DisputeData.partyA v = address \/ DisputeData.partyB v = address)
       /\ _updateStoreForDispute _Arbitrator _ArbitrableContract
            contractAddress (DisputeCreationEvent._disputeID event) address
            (Some (Arbitrator.getBlockTimestamp _Arbitrator
                     (DisputeCreationEvent.blockNumber event) * 1000)%Z)
            None w1 = (o2, w')
       /\ ((exists d, o2 = Ok d) <-> o = Ok tt).
Proof.
  unfold _disputeCreatedHandler. unfold bind at 1.
  destruct (getDataForDispute _Arbitrator _ArbitrableContract contractAddress
              (DisputeCreationEvent._disputeID event) account w)
    as [[v | e |] w1] eqn:Hdata;
    destruct (getDataForDispute_readOnly _ _ _ _ _ _ _ _ Hdata)
      as [Hstore _];
    [| intros [= <- <-]; left; split; [exact Hstore | left; discriminate]
     | intros [= <- <-]; left; split; [exact Hstore | left; discriminate]].
  destruct (bool_decide (DisputeData.partyA v = address)
            || bool_decide (DisputeData.partyB v = address)) eqn:Hparty.
  - apply orb_true_iff in Hparty. rewrite !bool_decide_eq_true in Hparty.
    unfold bind at 1.
    destruct (_updateStoreForDispute _ _ _ _ _ _ _ w1) as [o2 w2] eqn:Hmerge.
    intros Hrun. right. exists v, w1, o2.
    split; [reflexivity |]. split; [exact Hstore |].
    split; [exact Hparty |].
    destruct o2 as [d | e |]; simpl in Hrun; injection Hrun as <- <-;
      (split; [exact Hmerge |]).
    + split; [reflexivity | eauto].
    + split; [intros [d0 [=]] | discriminate].
    + split; [intros [d0 [=]] | discriminate].
  - apply orb_false_iff in Hparty. rewrite !bool_decide_eq_false in Hparty.
    intros [= <- <-]. left. split; [exact Hstore |]. right. exists v.
    destruct Hparty. auto.
Qed.

(** X25.  The dispute-creation handler changes the store only for a
    listener who is a party of the arbitrable contract of the dispute,
    and only once both aggregations have returned, its own and the one
    of its merge: for every other listener the store is as it was, and
    so it is when the handler fails before the first write of its
    merge, also for a party. *)
Theorem disputeCreatedHandler_parties_only w o w' :
  _disputeCreatedHandler _Arbitrator _ArbitrableContract account event
    contractAddress address w = (o, w') ->
  (store w' = store w
   \/ exists dispute data,
        Arbitrator.getDispute _Arbitrator contractAddress
          (DisputeCreationEvent._disputeID event) = Resolved (Some dispute)
        /\ ArbitrableContract.getData _ArbitrableContract
             (Dispute.arbitratedContract dispute) = Resolved data
        /\ (ArbitrableData.partyA data = address
            \/ ArbitrableData.partyB data = address))
  /\ (forall o1 w1,
         getDataForDispute _Arbitrator _ArbitrableContract contractAddress
           (DisputeCreationEvent._disputeID event) account w = (o1, w1) ->
         (forall v, o1 <> Ok v) ->
         store w' = store w /\ exists e, o1 = Throw e /\ o = Throw e)
  /\ (forall v w1 o2 w2,
         getDataForDispute _Arbitrator _ArbitrableContract contractAddress
           (DisputeCreationEvent._disputeID event) account w = (Ok v, w1) ->
         getDataForDispute _Arbitrator _ArbitrableContract contractAddress
           (DisputeCreationEvent._disputeID event) address w1 = (o2, w2) ->
         (forall v', o2 <> Ok v') ->
         store w' = store w).
Proof.
  intros Hrun. split; [| split].
  - apply disputeCreatedHandler_cases in Hrun
      as [[Hstore _] | (v & w1 & o2 & Hdata & _ & Hparty & _)];
      [left; exact Hstore | right].
    apply getDataForDispute_Ok_inv in Hdata
      as (dispute & data & _ & _ & Hdispute & Hcontract & _ & _ & _ & _ & _
          & HpartyA & HpartyB & _).
    exists dispute, data. rewrite <- HpartyA, <- HpartyB. auto.
  - intros o1 w1 Hdata Hfail.
    destruct (getDataForDispute_readOnly _ _ _ _ _ _ _ _ Hdata)
      as [Hstore Hfuel].
    revert Hrun. unfold _disputeCreatedHandler. unfold bind at 1.
    rewrite Hdata.
    destruct o1 as [v | e |];
      [destruct (Hfail v eq_refl) | | destruct (Hfuel eq_refl)].
    intros [= <- <-]. split; [exact Hstore | eauto].
  - intros v w1 o2 w2 Hdata Hdata2 Hfail.
    apply disputeCreatedHandler_cases in Hrun
      as [[Hstore _] | (v0 & w0 & o0 & Hdata0 & Hkept & _ & Hmerge & _)];
      [exact Hstore |].
    rewrite Hdata in Hdata0. injection Hdata0 as <- <-.
    destruct (updateStoreForDispute_no_view _ _ _ _ _ _ _ _ _ _ _ _
                Hdata2 Hfail Hmerge) as [Hsame _].
    congruence.
Qed.

(** X26.  When the handler returns for a listener who is a party, the
    dispute is in the store from then on: its document names the
    contract and both parties, the creation time of the current appeal
    is the time of the event's block in milliseconds (when the block
    has a time other than 0), and the listener's profile lists the
    dispute. *)
Theorem disputeCreatedHandler_tracks w w' dispute data :
  _disputeCreatedHandler _Arbitrator _ArbitrableContract account event
    contractAddress address w = (Ok tt, w') ->
  Arbitrator.getDispute _Arbitrator contractAddress
    (DisputeCreationEvent._disputeID event) = Resolved (Some dispute) ->
  ArbitrableContract.getData _ArbitrableContract
    (Dispute.arbitratedContract dispute) = Resolved data ->
  ArbitrableData.partyA data = address
  \/ ArbitrableData.partyB data = address ->
  let disputeId := DisputeCreationEvent._disputeID event in
  let timestamp :=
    (Arbitrator.getBlockTimestamp _Arbitrator
       (DisputeCreationEvent.blockNumber event) * 1000)%Z in
  (exists doc,
      StoreProvider.disputes (store w') !! (contractAddress, disputeId)
      = Some doc
      /\ DisputeDoc.arbitrableContractAddress doc
         = Dispute.arbitratedContract dispute
      /\ DisputeDoc.partyA doc = ArbitrableData.partyA data
      /\ DisputeDoc.partyB doc = ArbitrableData.partyB data
      /\ (timestamp <> 0%Z ->
          js_get (DisputeDoc.appealCreatedAt doc)
            (Dispute.numberOfAppeals dispute) = Some timestamp))
  /\ is_Some (StoreProvider.profileEntry contractAddress disputeId address
                (store w')).
Proof.
  intros Hrun Hdispute Hcontract Hparty disputeId timestamp.
  apply disputeCreatedHandler_cases in Hrun
    as [[_ [Hfail | (v & Hdata & HnotA & HnotB)]]
       | (v & w1 & o2 & _ & _ & _ & Hmerge & Hreturns)].
  - destruct (Hfail tt eq_refl).
  - apply getDataForDispute_Ok_inv in Hdata
      as (dispute0 & data0 & _ & _ & Hdispute0 & Hcontract0 & _ & _ & _ & _
          & _ & HpartyA & HpartyB & _).
    rewrite Hdispute in Hdispute0. injection Hdispute0 as <-.
    rewrite Hcontract in Hcontract0. injection Hcontract0 as <-.
    rewrite HpartyA in HnotA. rewrite HpartyB in HnotB. tauto.
  - destruct (proj2 Hreturns eq_refl) as [d ->].
    destruct (updateStoreForDispute_Ok_view _ _ _ _ _ _ _ _ _ _ Hmerge)
      as (v' & w2 & Hdata').
    destruct (getDataForDispute_Ok_inv _ _ _ _ _ _ _ _ Hdata')
      as (dispute0 & data0 & _ & _ & Hdispute0 & Hcontract0 & _ & _ & Harb
          & Hid & Harbitrable & HpartyA & HpartyB & _ & Happeals & _).
    rewrite Hdispute in Hdispute0. injection Hdispute0 as <-.
    rewrite Hcontract in Hcontract0. injection Hcontract0 as <-.
    destruct (updateStoreForDispute_after_view _ _ _ _ _ _ _ _ _ _ _ _
                Hdata' Hmerge)
      as [(_ & _ & e & Hthrow & _)
         | (currentSession & draws & _ & _ & _ & Hstore & _)];
      [discriminate |].
    rewrite Hstore. split.
    + exists (mergedDocument v' (Some timestamp) None).
      split; [simpl; rewrite Harb, Hid; apply lookup_insert_eq |].
      split; [exact Harbitrable |]. split; [exact HpartyA |].
      split; [exact HpartyB |].
      intros Hnonzero. cbn [mergedDocument DisputeDoc.appealCreatedAt].
      rewrite Happeals. unfold setIfTruthy, truthyZ.
      rewrite (proj2 (Z.eqb_neq _ _) Hnonzero). simpl.
      apply js_get_set_eq.
    + rewrite profileEntry_updateDisputeProfile_same. eauto.
Qed.

End CreationHandler.

Lemma disputeCreatedHandler_parties_only_witness :
  ArbitrableData.partyA
    {| ArbitrableData.partyA := Fixture.alice;
       ArbitrableData.partyB := Fixture.bob;
       ArbitrableData.status := 4 |} = Fixture.alice
  /\ getDataForDispute Sample.rulinglessLedger Fixture.arbitrable
       Fixture.arbitrator 0 Fixture.alice Fixture.trackedWorld
     = (Throw (JsError "no ruling"), Fixture.trackedWorld)
  /\ store (snd (_disputeCreatedHandler Sample.rulinglessLedger
                   Fixture.arbitrable Fixture.alice Fixture.creationEvent
                   Fixture.arbitrator Fixture.alice Fixture.trackedWorld))
     = store Fixture.trackedWorld
  /\ fst (_disputeCreatedHandler Sample.rulinglessLedger Fixture.arbitrable
            Fixture.alice Fixture.creationEvent Fixture.arbitrator
            Fixture.alice Fixture.trackedWorld)
     = Throw (JsError "no ruling").
Proof.
  assert (Hdata :
            getDataForDispute Sample.rulinglessLedger Fixture.arbitrable
              Fixture.arbitrator
              (DisputeCreationEvent._disputeID Fixture.creationEvent)
              Fixture.alice Fixture.trackedWorld
            = (Throw (JsError "no ruling"), Fixture.trackedWorld))
    by (vm_compute; reflexivity).
  split; [reflexivity |]. split; [exact Hdata |].
  destruct (disputeCreatedHandler_parties_only Sample.rulinglessLedger
              Fixture.arbitrable Fixture.alice Fixture.creationEvent
              Fixture.arbitrator Fixture.alice Fixture.trackedWorld _ _
              (surjective_pairing _)) as (_ & Hfails & _).
  destruct (Hfails _ _ Hdata) as (Hstore & e & Hthrown & Hrun);
    [discriminate |].
  split; [exact Hstore |]. rewrite Hrun. injection Hthrown as <-.
  reflexivity.
Defined.

Lemma disputeCreatedHandler_tracks_witness :
  _disputeCreatedHandler Fixture.ledger Fixture.arbitrable Fixture.alice
    Fixture.creationEvent Fixture.arbitrator Fixture.alice Fixture.emptyWorld
  = (Ok tt,
     snd (_disputeCreatedHandler Fixture.ledger Fixture.arbitrable
            Fixture.alice Fixture.creationEvent Fixture.arbitrator
            Fixture.alice Fixture.emptyWorld))
  /\ is_Some
       (StoreProvider.profileEntry Fixture.arbitrator 0 Fixture.alice
          (store (snd (_disputeCreatedHandler Fixture.ledger
                         Fixture.arbitrable Fixture.alice
                         Fixture.creationEvent Fixture.arbitrator
                         Fixture.alice Fixture.emptyWorld)))).
Proof.
  assert (Hrun :
            _disputeCreatedHandler Fixture.ledger Fixture.arbitrable
              Fixture.alice Fixture.creationEvent Fixture.arbitrator
              Fixture.alice Fixture.emptyWorld
            = (Ok tt,
               snd (_disputeCreatedHandler Fixture.ledger Fixture.arbitrable
                      Fixture.alice Fixture.creationEvent Fixture.arbitrator
                      Fixture.alice Fixture.emptyWorld)))
    by (vm_compute; reflexivity).
  split; [exact Hrun |].
  exact (proj2 (disputeCreatedHandler_tracks Fixture.ledger
                  Fixture.arbitrable Fixture.alice Fixture.creationEvent
                  Fixture.arbitrator Fixture.alice Fixture.emptyWorld _
                  (Fixture.disputeAt 1 0)
                  {| ArbitrableData.partyA := Fixture.alice;
                     ArbitrableData.partyB := Fixture.bob;
                     ArbitrableData.status := 4 |}
                  Hrun eq_refl eq_refl (or_introl eq_refl))).
Defined.


(** ** The handlers and the lookup on the samples *)

Lemma tokenShiftHandler_failure_witness :
  _tokenShiftHandler (Fixture.shift 0 Fixture.juror 5) Fixture.arbitrator
    Fixture.juror Fixture.emptyWorld
  = (Throw (JsError "TypeError: Cannot read property of null"),
     Fixture.emptyWorld)
  /\ fst (_tokenShiftHandler (Fixture.shift 0 Fixture.juror 5)
            Fixture.arbitrator Fixture.juror Fixture.trackedWorld) = Ok tt.
Proof.
  split.
  - destruct (tokenShiftHandler_failure (Fixture.shift 0 Fixture.juror 5)
                Fixture.arbitrator Fixture.juror Fixture.emptyWorld)
      as [(_ & _ & Hrun) | [Hno _]]; [exact Hrun |].
    exfalso. apply Hno. split; reflexivity.
  - destruct (tokenShiftHandler_failure (Fixture.shift 0 Fixture.juror 5)
                Fixture.arbitrator Fixture.juror Fixture.trackedWorld)
      as [(_ & Hnone & _) | [_ Hrun]]; [discriminate Hnone | exact Hrun].
Defined.

Lemma tokenShiftHandler_frame_witness :
  storedDraws Fixture.arbitrator 0 Fixture.juror
    (store (snd (_tokenShiftHandler (Fixture.shift 0 Fixture.juror 5)
                   Fixture.arbitrator Fixture.juror Fixture.trackedWorld)))
  = Some [Some [2]]
  /\ StoreProvider.profileEntry Fixture.arbitrator 2 Fixture.juror
       (store (snd (_tokenShiftHandler (Fixture.shift 0 Fixture.juror 5)
                      Fixture.arbitrator Fixture.juror Fixture.trackedWorld)))
     = Some (Fixture.entryOf 2 (Some [None; Some [1; 3]]) None).
Proof.
  destruct (tokenShiftHandler_frame (Fixture.shift 0 Fixture.juror 5)
              Fixture.arbitrator Fixture.juror Fixture.trackedWorld)
    as (_ & _ & _ & _ & Hentries & Hdraws & _).
  split.
  - etransitivity; [exact Hdraws | reflexivity].
  - etransitivity; [apply Hentries; discriminate | reflexivity].
Defined.

Lemma getUserDisputeFromStore_first_match_witness :
  getUserDisputeFromStore Fixture.arbitrator 2 Fixture.juror
    Fixture.trackedWorld
  = (Ok (Fixture.entryOf 2 (Some [None; Some [1; 3]]) None),
     Fixture.trackedWorld).
Proof.
  apply (proj2 (getUserDisputeFromStore_first_match Fixture.arbitrator 2
                  Fixture.juror Fixture.trackedWorld _ _)).
  repeat split.
Defined.

Lemma getUserDisputeFromStore_failure_witness :
  fst (getUserDisputeFromStore Fixture.arbitrator 2 Fixture.alice
         Fixture.trackedWorld)
  = Throw (JsError "User 0xalice does not have store data for dispute")
  /\ fst (getUserDisputeFromStore Fixture.arbitrator 2 Fixture.bob
            Fixture.trackedWorld)
     = Throw (JsError "TypeError: Cannot read property of null").
Proof.
  split.
  - pose proof (getUserDisputeFromStore_failure Fixture.arbitrator 2
                  Fixture.alice Fixture.trackedWorld) as Hfails.
    destruct (fst (getUserDisputeFromStore Fixture.arbitrator 2 Fixture.alice
                     Fixture.trackedWorld)) as [entry | e |].
    + discriminate Hfails.
    + destruct Hfails as [(Hnone & _) | (_ & _ & ->)];
        [discriminate Hnone | reflexivity].
    + destruct Hfails.
  - pose proof (getUserDisputeFromStore_failure Fixture.arbitrator 2
                  Fixture.bob Fixture.trackedWorld) as Hfails.
    destruct (fst (getUserDisputeFromStore Fixture.arbitrator 2 Fixture.bob
                     Fixture.trackedWorld)) as [entry | e |].
    + discriminate Hfails.
    + destruct Hfails as [(_ & ->) | ([profile Hsome] & _)];
        [reflexivity | discriminate Hsome].
    + destruct Hfails.
Defined.

(** ** The ruling options *)

Section RulingOptions.
Variable _Arbitrator : Arbitrator.t.
Variable _ArbitrableContract : ArbitrableContract.t.
Variable _Transactions : Transactions.t.

(** X30.  For a dispute whose view can be built, [getRulingOptions]
    answers with the ruling options of the arbitrable contract that the
    view names, and fails only when that read fails; it neither reads
    nor writes the store and logs no call.  For a dispute that the
    ledger answers [null] for, the case in which the view fails too, it
    fails with an [Error] that names the arbitrator and the id. *)
Theorem getRulingOptions_of_view arbitratorAddress disputeId w :
  (forall account w0 v w1,
      getDataForDispute _Arbitrator _ArbitrableContract arbitratorAddress
        disputeId account w0 = (Ok v, w1) ->
      getRulingOptions _Arbitrator _Transactions arbitratorAddress disputeId w
      = (match Transactions.getRulingOptions _Transactions
                 (DisputeData.arbitrableContractAddress v) arbitratorAddress
                 disputeId with
         | Resolved options => Ok options
         | Rejected e => Throw e
         end, w))
  /\ (Arbitrator.getDispute _Arbitrator arbitratorAddress disputeId
      = Resolved None ->
      getRulingOptions _Arbitrator _Transactions arbitratorAddress disputeId w
      = (Throw (JsError ("Cannot fetch ruling options: Dispute from arbitrator "
                         +:+ arbitratorAddress +:+ " with disputeId: "
                         +:+ pretty disputeId +:+ " does not exist")), w)
      /\ forall account w0 v w1,
           getDataForDispute _Arbitrator _ArbitrableContract arbitratorAddress
             disputeId account w0 <> (Ok v, w1)).
Proof.
  split.
  - intros account w0 v w1 Hdata.
    apply getDataForDispute_Ok_inv in Hdata
      as (dispute & _ & _ & _ & Hdispute & _ & _ & _ & _ & _ & Harbitrable
          & _).
    unfold getRulingOptions, bind. rewrite Hdispute, Harbitrable. simpl.
    destruct (Transactions.getRulingOptions _ _ _ _); reflexivity.
  - intros Hnull. split.
    + unfold getRulingOptions, bind. rewrite Hnull. reflexivity.
    + intros account w0 v w1 Hdata.
      apply getDataForDispute_Ok_inv in Hdata
        as (dispute & _ & _ & _ & Hdispute & _).
      congruence.
Qed.
End RulingOptions.

Lemma getRulingOptions_of_view_witness :
  getRulingOptions Fixture.ledger Sample.wallet Fixture.arbitrator 2
    Fixture.emptyWorld = (Ok ["yes"; "no"], Fixture.emptyWorld)
  /\ getRulingOptions Fixture.ledger Sample.wallet Fixture.arbitrator 4
       Fixture.emptyWorld
     = (Throw (JsError "Cannot fetch ruling options: Dispute from arbitrator 0xarbitrator with disputeId: 4 does not exist"),
        Fixture.emptyWorld).
Proof.
  split.
  - exact (proj1 (getRulingOptions_of_view Fixture.ledger Fixture.arbitrable
                    Sample.wallet Fixture.arbitrator 2 Fixture.emptyWorld)
             Fixture.juror Fixture.trackedWorld Fixture.view2
             Fixture.trackedWorldConsulted
             ltac:(vm_compute; reflexivity)).
  - exact (proj1 (proj2 (getRulingOptions_of_view Fixture.ledger
                           Fixture.arbitrable Sample.wallet Fixture.arbitrator
                           4 Fixture.emptyWorld) eq_refl)).
Defined.

(** ** The merge policy *)

Lemma setIfTruthy_get_at array index timestamp :
  js_get (setIfTruthy array index timestamp) index
  = if truthyZ timestamp then timestamp else js_get array index.
Proof.
  unfold setIfTruthy. destruct timestamp as [t |]; [| reflexivity].
  destruct (truthyZ (Some t)); [apply js_get_set_eq | reflexivity].
Qed.

Lemma setIfTruthy_get_other array index timestamp k :
  k <> index ->
  js_get (setIfTruthy array index timestamp) k = js_get array k.
Proof.
  intros Hne. unfold setIfTruthy. destruct timestamp as [t |];
    [| reflexivity].
  destruct (truthyZ (Some t)); [apply js_get_set_ne; exact Hne | reflexivity].
Qed.

Lemma getDisputeData_updateDisputeProfile_other arbitratorAddress disputeId
    participant account draws arbitratorAddress' disputeId' netPNK s :
  participant <> account ->
  StoreProvider.getDisputeData arbitratorAddress disputeId participant
    (StoreProvider.updateDisputeProfile account draws arbitratorAddress'
       disputeId' netPNK s)
  = StoreProvider.getDisputeData arbitratorAddress disputeId participant s.
Proof.
  intros Hne.
  unfold StoreProvider.getDisputeData, StoreProvider.profileEntry,
    StoreProvider.updateDisputeProfile. simpl.
  rewrite lookup_insert_ne by congruence. reflexivity.
Qed.

Section MergePolicy.
Variable _Arbitrator : Arbitrator.t.
Variable _ArbitrableContract : ArbitrableContract.t.
Variable arbitratorAddress account : address.
Variable disputeId : nat.

(** The record that any participant has of a dispute, after a merge of
    the dispute made for an account that is not empty: as before when
    the aggregation of the merge fails, and otherwise with the two
    timestamp arrays written at the current appeal index and, for the
    account of the merge alone, the draws possibly rewritten there. *)
Lemma updateStoreForDispute_record_of participant createdAt ruledAt w o w'
    before :
  account <> "" ->
  StoreProvider.getDisputeData arbitratorAddress disputeId participant
    (store w) = Resolved before ->
  _updateStoreForDispute _Arbitrator _ArbitrableContract
    arbitratorAddress disputeId account createdAt ruledAt w = (o, w') ->
  exists after,
    StoreProvider.getDisputeData arbitratorAddress disputeId participant
      (store w') = Resolved after
    /\ (((forall v w1,
             getDataForDispute _Arbitrator _ArbitrableContract
               arbitratorAddress disputeId account w <> (Ok v, w1))
         /\ after = before)
        \/ exists v w1,
             getDataForDispute _Arbitrator _ArbitrableContract
               arbitratorAddress disputeId account w = (Ok v, w1)
             /\ currentAppeal _Arbitrator arbitratorAddress disputeId
                  (DisputeData.numberOfAppeals v)
             /\ StoredDispute.appealCreatedAt after
                = Some (setIfTruthy
                          (orEmpty (StoredDispute.appealCreatedAt before))
                          (DisputeData.numberOfAppeals v) createdAt)
             /\ StoredDispute.appealRuledAt after
                = Some (setIfTruthy
                          (orEmpty (StoredDispute.appealRuledAt before))
                          (DisputeData.numberOfAppeals v) ruledAt)
             /\ (StoredDispute.appealDraws after
                 = StoredDispute.appealDraws before
                 \/ (participant = account
                     /\ exists sessionDraws,
                          StoredDispute.appealDraws after
                          = Some (js_set
                                    (orEmpty
                                       (StoredDispute.appealDraws before))
                                    (DisputeData.numberOfAppeals v)
                                    sessionDraws)))).
Proof.
  intros Haccount Hbefore Hrun.
  destruct (getDataForDispute _Arbitrator _ArbitrableContract
              arbitratorAddress disputeId account w)
    as [o1 w1] eqn:Hdata.
  assert (Hview : (exists v, o1 = Ok v) \/ forall v, o1 <> Ok v)
    by (destruct o1; [left; eauto | right; discriminate
                      | right; discriminate]).
  destruct Hview as [[v ->] | Hfail].
  2:{ destruct (updateStoreForDispute_no_view _ _ _ _ _ _ _ _ _ _ _ _
                  Hdata Hfail Hrun) as [Hkept _].
      exists before. rewrite Hkept. split; [exact Hbefore |]. left.
      split; [| reflexivity].
      intros v w2 [= -> _]. exact (Hfail v eq_refl). }
  assert (Hdocument :
            exists document,
              StoreProvider.disputes (store w)
                !! (arbitratorAddress, disputeId) = Some document
              /\ StoredDispute.appealCreatedAt before
                 = Some (DisputeDoc.appealCreatedAt document)
              /\ StoredDispute.appealRuledAt before
                 = Some (DisputeDoc.appealRuledAt document)
              /\ StoredDispute.appealDraws before
                 = StoreProvider.profileEntry arbitratorAddress disputeId
                     participant (store w) ≫= ProfileDispute.appealDraws).
  { revert Hbefore. unfold StoreProvider.getDisputeData.
    destruct (StoreProvider.disputes (store w) !! _) as [document |];
      [| discriminate].
    intros [= <-]. exists document. auto. }
  destruct Hdocument as (document & Hdocument & Hcreated0 & Hruled0
                         & Hdraws0).
  assert (Hown :
            StoreProvider.getDisputeData arbitratorAddress disputeId account
              (store w)
            = Resolved
                {| StoredDispute.appealDraws :=
                     StoreProvider.profileEntry arbitratorAddress disputeId
                       account (store w) ≫= ProfileDispute.appealDraws;
                   StoredDispute.netPNK :=
                     StoreProvider.profileEntry arbitratorAddress disputeId
                       account (store w) ≫= ProfileDispute.netPNK;
                   StoredDispute.appealCreatedAt :=
                     Some (DisputeDoc.appealCreatedAt document);
                   StoredDispute.appealRuledAt :=
                     Some (DisputeDoc.appealRuledAt document) |}).
  { unfold StoreProvider.getDisputeData. rewrite Hdocument. reflexivity. }
  destruct (getDataForDispute_stored _ _ _ _ _ _ _ _ _ Haccount Hown Hdata)
    as (Hvcreated & Hvruled & Hcurrent).
  cbn [StoredDispute.appealCreatedAt StoredDispute.appealRuledAt orEmpty]
    in Hvcreated, Hvruled.
  destruct (getDataForDispute_Ok_inv _ _ _ _ _ _ _ _ Hdata)
    as (_ & _ & _ & _ & _ & _ & _ & _ & Harb & Hid & _).
  assert (Hwritten :
            forall s,
              StoreProvider.getDisputeData arbitratorAddress disputeId
                participant
                (StoreProvider.updateDispute
                   (mergedDocument v createdAt ruledAt) s)
              = Resolved
                  {| StoredDispute.appealDraws :=
                       StoreProvider.profileEntry arbitratorAddress disputeId
                         participant s ≫= ProfileDispute.appealDraws;
                     StoredDispute.netPNK :=
                       StoreProvider.profileEntry arbitratorAddress disputeId
                         participant s ≫= ProfileDispute.netPNK;
                     StoredDispute.appealCreatedAt :=
                       Some (setIfTruthy
                               (orEmpty (StoredDispute.appealCreatedAt before))
                               (DisputeData.numberOfAppeals v) createdAt);
                     StoredDispute.appealRuledAt :=
                       Some (setIfTruthy
                               (orEmpty (StoredDispute.appealRuledAt before))
                               (DisputeData.numberOfAppeals v) ruledAt) |}).
  { intros s.
    pose proof (getDisputeData_updateDispute
                  (mergedDocument v createdAt ruledAt) participant s) as Hget.
    cbn [mergedDocument DisputeDoc.arbitratorAddress DisputeDoc.disputeId
         DisputeDoc.appealCreatedAt DisputeDoc.appealRuledAt] in Hget.
    rewrite Harb, Hid, Hvcreated, Hvruled in Hget.
    rewrite Hcreated0, Hruled0. exact Hget. }
  destruct (updateStoreForDispute_after_view _ _ _ _ _ _ _ _ _ _ _ _
              Hdata Hrun)
    as [(Hstore & _)
       | (currentSession & draws & _ & Hdraws & _ & Hstore & _)].
  - eexists. rewrite Hstore. split; [apply Hwritten |].
    right. exists v, w1. split; [reflexivity |]. split; [exact Hcurrent |].
    cbn [StoredDispute.appealCreatedAt StoredDispute.appealRuledAt
         StoredDispute.appealDraws].
    split; [reflexivity |]. split; [reflexivity |].
    left. rewrite Hdraws0. reflexivity.
  - destruct (decide (participant = account)) as [-> | Hother].
    + rewrite Hstore, getDisputeData_updateDisputeProfile.
      unfold StoreProvider.updateDispute at 1. cbn [StoreProvider.disputes].
      cbn [mergedDocument DisputeDoc.arbitratorAddress DisputeDoc.disputeId].
      rewrite Harb, Hid, lookup_insert_eq.
      eexists. split; [reflexivity |].
      right. exists v, w1. split; [reflexivity |]. split; [exact Hcurrent |].
      cbn [StoredDispute.appealCreatedAt StoredDispute.appealRuledAt
           StoredDispute.appealDraws mergedDocument
           DisputeDoc.appealCreatedAt DisputeDoc.appealRuledAt].
      rewrite Hvcreated, Hvruled, Hcreated0, Hruled0.
      split; [reflexivity |]. split; [reflexivity |].
      unfold storedDraws in Hdraws. rewrite <- Hdraws0 in Hdraws.
      destruct (bool_decide (DisputeData.lastSession v = currentSession)).
      * destruct Hdraws as (sessionDraws & _ & ->). right. eauto.
      * left. exact Hdraws.
    + rewrite Hstore,
        getDisputeData_updateDisputeProfile_other by exact Hother.
      eexists. split; [apply Hwritten |].
      right. exists v, w1. split; [reflexivity |]. split; [exact Hcurrent |].
      cbn [StoredDispute.appealCreatedAt StoredDispute.appealRuledAt
           StoredDispute.appealDraws].
      split; [reflexivity |]. split; [reflexivity |].
      left. rewrite Hdraws0. reflexivity.
Qed.

(** C1, as the code has it.  Take the record that a participant has of
    a dispute and a merge of that dispute made for an account that is
    not empty.  Whatever the outcome of the merge, it never shortens
    the [appealCreatedAt], [appealRuledAt] and [appealDraws] arrays of
    the record and leaves every entry at an index other than the
    dispute's current number of appeals as it was.  When the merge
    fails before its first write (its aggregation fails), the record is
    as it was.  When the aggregation returns, the entry of
    [appealCreatedAt] (resp. [appealRuledAt]) at the current number of
    appeals is the [createdAt] (resp. [ruledAt]) argument when that is
    neither absent nor zero, whether or not the entry was set before,
    and is as it was otherwise; the draws are as they were for every
    participant but the account of the merge. *)
Theorem updateStoreForDispute_merge participant createdAt ruledAt w o w'
    before :
  account <> "" ->
  StoreProvider.getDisputeData arbitratorAddress disputeId participant
    (store w) = Resolved before ->
  _updateStoreForDispute _Arbitrator _ArbitrableContract
    arbitratorAddress disputeId account createdAt ruledAt w = (o, w') ->
  exists after,
    StoreProvider.getDisputeData arbitratorAddress disputeId participant
      (store w') = Resolved after
    /\ length (orEmpty (StoredDispute.appealCreatedAt before))
       <= length (orEmpty (StoredDispute.appealCreatedAt after))
    /\ length (orEmpty (StoredDispute.appealRuledAt before))
       <= length (orEmpty (StoredDispute.appealRuledAt after))
    /\ length (orEmpty (StoredDispute.appealDraws before))
       <= length (orEmpty (StoredDispute.appealDraws after))
    /\ (forall k,
           ~ currentAppeal _Arbitrator arbitratorAddress disputeId k ->
           js_get (orEmpty (StoredDispute.appealCreatedAt after)) k
           = js_get (orEmpty (StoredDispute.appealCreatedAt before)) k
           /\ js_get (orEmpty (StoredDispute.appealRuledAt after)) k
              = js_get (orEmpty (StoredDispute.appealRuledAt before)) k
           /\ js_get (orEmpty (StoredDispute.appealDraws after)) k
              = js_get (orEmpty (StoredDispute.appealDraws before)) k)
    /\ ((forall v w1,
            getDataForDispute _Arbitrator _ArbitrableContract
              arbitratorAddress disputeId account w <> (Ok v, w1)) ->
        after = before)
    /\ (forall v w1,
           getDataForDispute _Arbitrator _ArbitrableContract
             arbitratorAddress disputeId account w = (Ok v, w1) ->
           currentAppeal _Arbitrator arbitratorAddress disputeId
             (DisputeData.numberOfAppeals v)
           /\ js_get (orEmpty (StoredDispute.appealCreatedAt after))
                (DisputeData.numberOfAppeals v)
              = (if truthyZ createdAt then createdAt
                 else js_get (orEmpty (StoredDispute.appealCreatedAt before))
                        (DisputeData.numberOfAppeals v))
           /\ js_get (orEmpty (StoredDispute.appealRuledAt after))
                (DisputeData.numberOfAppeals v)
              = (if truthyZ ruledAt then ruledAt
                 else js_get (orEmpty (StoredDispute.appealRuledAt before))
                        (DisputeData.numberOfAppeals v)))
    /\ (participant <> account ->
        StoredDispute.appealDraws after = StoredDispute.appealDraws before).
Proof.
  intros Haccount Hbefore Hrun.
  destruct (updateStoreForDispute_record_of _ _ _ _ _ _ _
              Haccount Hbefore Hrun)
    as (after & Hafter
        & [[Hfail ->]
          | (v & w1 & Hdata & Hcurrent & Hcreated & Hruled & Hdraws)]).
  { exists before. split; [exact Hafter |].
    split; [lia |]. split; [lia |]. split; [lia |].
    split; [auto |]. split; [auto |].
    split; [| auto].
    intros v w1 Hdata. destruct (Hfail v w1 Hdata). }
  exists after. split; [exact Hafter |].
  rewrite Hcreated, Hruled. cbn [orEmpty].
  split; [apply setIfTruthy_length |].
  split; [apply setIfTruthy_length |].
  split.
  { destruct Hdraws as [-> | (_ & sessionDraws & ->)];
      [lia | apply js_set_length]. }
  split.
  { intros k Hk.
    assert (Hne : k <> DisputeData.numberOfAppeals v)
      by (intros ->; exact (Hk Hcurrent)).
    split; [apply setIfTruthy_get_other; exact Hne |].
    split; [apply setIfTruthy_get_other; exact Hne |].
    destruct Hdraws as [-> | (_ & sessionDraws & ->)]; [reflexivity |].
    cbn [orEmpty]. apply js_get_set_ne. exact Hne. }
  split.
  { intros Hfail. destruct (Hfail v w1 Hdata). }
  split.
  { intros v2 w2 Hdata2. rewrite Hdata in Hdata2. injection Hdata2 as <- <-.
    split; [exact Hcurrent |].
    split; apply setIfTruthy_get_at. }
  intros Hother. destruct Hdraws as [Hsame | (Hown & _)];
    [exact Hsame | contradiction].
Qed.
End MergePolicy.

(** C1 does not hold as stated, in two ways.  Alice's record of
    dispute 0 has [appealCreatedAt[0] = 1000]; a creation event for
    dispute 0 that arrives in a block of timestamp 2 is merged, and the
    entry becomes 2000.  The juror's record of dispute 2 has two
    creation times and one ruling time; a merge of dispute 2 made for
    the empty account does not read the stored arrays, and leaves both
    of them empty. *)
Lemma updateStoreForDispute_overwrites_and_truncates :
  (StoreProvider.getDisputeData Fixture.arbitrator 0 Fixture.alice
     Fixture.trackedStore
   = Resolved {| StoredDispute.appealDraws := None;
                 StoredDispute.netPNK := None;
                 StoredDispute.appealCreatedAt := Some [Some 1000%Z];
                 StoredDispute.appealRuledAt := Some [] |}
   /\ fst (_disputeCreatedHandler Fixture.ledger Fixture.arbitrable
             Fixture.alice Fixture.creationEvent Fixture.arbitrator
             Fixture.alice Fixture.trackedWorld) = Ok tt
   /\ StoreProvider.getDisputeData Fixture.arbitrator 0 Fixture.alice
        (store (snd (_disputeCreatedHandler Fixture.ledger Fixture.arbitrable
                       Fixture.alice Fixture.creationEvent Fixture.arbitrator
                       Fixture.alice Fixture.trackedWorld)))
      = Resolved {| StoredDispute.appealDraws := Some [Some []];
                    StoredDispute.netPNK := Some 0%Z;
                    StoredDispute.appealCreatedAt := Some [Some 2000%Z];
                    StoredDispute.appealRuledAt := Some [] |})
  /\ StoreProvider.getDisputeData Fixture.arbitrator 2 Fixture.juror
       Fixture.trackedStore
     = Resolved {| StoredDispute.appealDraws := Some [None; Some [1; 3]];
                   StoredDispute.netPNK := None;
                   StoredDispute.appealCreatedAt :=
                     Some [Some 500%Z; Some 900%Z];
                   StoredDispute.appealRuledAt := Some [Some 700%Z] |}
  /\ fst (_updateStoreForDispute Fixture.ledger Fixture.arbitrable
            Fixture.arbitrator 2 "" None None Fixture.trackedWorld)
     = Ok (Fixture.docOf 2 [] [])
  /\ StoreProvider.getDisputeData Fixture.arbitrator 2 Fixture.juror
       (store (snd (_updateStoreForDispute Fixture.ledger Fixture.arbitrable
                      Fixture.arbitrator 2 "" None None
                      Fixture.trackedWorld)))
     = Resolved {| StoredDispute.appealDraws := Some [None; Some [1; 3]];
                   StoredDispute.netPNK := None;
                   StoredDispute.appealCreatedAt := Some [];
                   StoredDispute.appealRuledAt := Some [] |}.
Proof. repeat split; vm_compute; reflexivity. Qed.

Lemma updateStoreForDispute_merge_witness :
  Fixture.alice <> ""
  /\ StoreProvider.getDisputeData Fixture.arbitrator 0 Fixture.alice
       Fixture.trackedStore
     = Resolved {| StoredDispute.appealDraws := None;
                   StoredDispute.netPNK := None;
                   StoredDispute.appealCreatedAt := Some [Some 1000%Z];
                   StoredDispute.appealRuledAt := Some [] |}
  /\ exists after,
       StoreProvider.getDisputeData Fixture.arbitrator 0 Fixture.alice
         (store (snd (_updateStoreForDispute Fixture.ledger Fixture.arbitrable
                        Fixture.arbitrator 0 Fixture.alice
                        (Some 2000%Z) None Fixture.trackedWorld)))
       = Resolved after
       /\ 1 <= length (orEmpty (StoredDispute.appealCreatedAt after))
       /\ js_get (orEmpty (StoredDispute.appealCreatedAt after)) 0
          = Some 2000%Z
       /\ js_get (orEmpty (StoredDispute.appealRuledAt after)) 0 = None.
Proof.
  assert (Haccount : Fixture.alice <> "") by discriminate.
  assert (Hbefore :
            StoreProvider.getDisputeData Fixture.arbitrator 0 Fixture.alice
              (store Fixture.trackedWorld)
            = Resolved {| StoredDispute.appealDraws := None;
                          StoredDispute.netPNK := None;
                          StoredDispute.appealCreatedAt := Some [Some 1000%Z];
                          StoredDispute.appealRuledAt := Some [] |})
    by (vm_compute; reflexivity).
  assert (Hdata :
            getDataForDispute Fixture.ledger Fixture.arbitrable
              Fixture.arbitrator 0 Fixture.alice Fixture.trackedWorld
            = (Ok Sample.view0Alice, Fixture.trackedWorld))
    by (vm_compute; reflexivity).
  split; [exact Haccount |]. split; [exact Hbefore |].
  destruct (updateStoreForDispute_merge Fixture.ledger Fixture.arbitrable
              Fixture.arbitrator Fixture.alice 0 Fixture.alice (Some 2000%Z)
              None Fixture.trackedWorld _ _ _ Haccount Hbefore
              (surjective_pairing _))
    as (after & Hafter & Hlen & _ & _ & _ & _ & Hwritten & _).
  destruct (Hwritten _ _ Hdata) as (_ & Hcreated & Hruled).
  exists after. split; [exact Hafter |]. split; [exact Hlen |].
  split; [exact Hcreated | exact Hruled].
Defined.

(** ** The juror scan past a failing draw read *)

(** C2 does not hold as stated: on a ledger whose first null
    arbitrated-contract address is at id 2 and whose dispute reads all
    answer below it, dispute 1 is in the session and the juror holds
    one of its draws; the draw reads of dispute 0 fail, the scan ends
    there, and dispute 1 is not returned. *)
Lemma getDisputesForJuror_stops_at_failed_draw :
  Arbitrator.getData Sample.brokenDrawsLedger Fixture.arbitrator
    (Some Fixture.juror)
  = Resolved {| ArbitratorData.period := 3;
                ArbitratorData.session := 1;
                ArbitratorData.lastPeriodChange := 100%Z |}
  /\ Arbitrator.getDispute Sample.brokenDrawsLedger Fixture.arbitrator 0
     = Resolved (Some (Fixture.disputeAt 1 0))
  /\ Arbitrator.getDispute Sample.brokenDrawsLedger Fixture.arbitrator 1
     = Resolved (Some (Fixture.disputeAt 1 0))
  /\ Dispute.arbitratedContract (Fixture.disputeAt 1 0)
     <> Fixture.NULL_ADDRESS
  /\ Arbitrator.getDispute Sample.brokenDrawsLedger Fixture.arbitrator 2
     = Resolved (Some Fixture.endOfDisputes)
  /\ Dispute.arbitratedContract Fixture.endOfDisputes = Fixture.NULL_ADDRESS
  /\ Dispute.firstSession (Fixture.disputeAt 1 0)
     + Dispute.numberOfAppeals (Fixture.disputeAt 1 0) = 1
  /\ Arbitrator.getAmountOfJurorsForDispute Sample.brokenDrawsLedger
       Fixture.arbitrator 1 = Resolved 3
  /\ Arbitrator.isJurorDrawnForDispute Sample.brokenDrawsLedger 1 2
       Fixture.arbitrator Fixture.juror = Resolved true
  /\ relevant Sample.brokenDrawsLedger Fixture.arbitrator Fixture.juror 1 1
     = true
  /\ getDisputesForJuror Sample.brokenDrawsLedger Fixture.NULL_ADDRESS 10
       Fixture.arbitrator Fixture.juror Fixture.emptyWorld
     = (Ok [], Fixture.emptyWorld).
Proof. repeat split; try discriminate; vm_compute; reflexivity. Qed.
